(** * Vendor invoice engine: a shallow embedding of the Python sources

    The development follows the layout of the repository:

    - [PyStr]        the fragment of Python's [str] and [re] the sources use;
    - [PyDate]       [datetime.date] and the addition of whole days;
    - [PaymentTerms] [utils/payment_terms_calculator.py];
    - [PyNum]        the numbers, as an interface and as exact rationals;
    - [PyFloat]      the numbers as IEEE binary64;
    - [Frame]        the data frames;
    - [Currency]     [utils/currency_utils.py];
    - [Service]      [utils/invoice_service.py];
    - [InvoiceData]  the day-count accessor, the [true_remaining_qty]
                     column, the basic validation of a selection and the
                     invoice numbers of [utils/invoice_data.py];
    - [Attachments]  [utils/invoice_attachments.py];
    - [S3]           the uploads and the deletions of [S3Manager];
    - [Store]        the tables and their two writers;
    - [CreatePage]   [create_invoice_final] of the invoice creation page;
    - [Spec]         the notions of the specification;
    - [Examples]     concrete inputs.

    Definitions come first; the theorems about them follow. *)

From Stdlib Require Import ZArith QArith Qminmax Qround List Ascii String Bool Lia.
From Stdlib Require Floats.
From stdpp Require Import base option gmap strings list pretty.

Import ListNotations.
Local Open Scope Z_scope.

(** ** Exceptions and results

    A Python function either returns a value or raises.  Functions that
    can raise return a [result]; [result] is a monad for stdpp's
    [x ← m; k] notation. *)

Inductive exn : Type :=
| ValueError
| OverflowError
| TypeError
| KeyError
| IndexError
| ClientError
| OtherError.

Inductive result (A : Type) : Type :=
| Ok (a : A)
| Raise (e : exn).

Arguments Ok {A} a.
Arguments Raise {A} e.

#[global] Instance result_ret : MRet result := fun A a => Ok a.
#[global] Instance result_bind : MBind result :=
  fun A B f m => match m with Ok a => f a | Raise e => Raise e end.

(** ** Python strings

    A [str] is modelled as the list of its characters; the characters are
    the ASCII ones, which is the alphabet of the term labels, currency
    codes and file names the engine handles.  [L] turns a literal into a
    [str]. *)

Module PyStr.

Abbreviation str := (list ascii) (only parsing).

Definition L (s : string) : str := list_ascii_of_string s.

Definition code (c : ascii) : N := N_of_ascii c.

(** [\s] of [re] and the blanks of [str.split] / [str.strip]:
    TAB, LF, VT, FF, CR, FS, GS, RS, US and the space. *)
Definition is_space (c : ascii) : bool :=
  let n := code c in
  ((9 <=? n) && (n <=? 13) || (28 <=? n) && (n <=? 32))%N.

(** [\d] restricted to ASCII. *)
Definition is_digit (c : ascii) : bool :=
  let n := code c in ((48 <=? n) && (n <=? 57))%N.

Definition is_upper (c : ascii) : bool :=
  let n := code c in ((65 <=? n) && (n <=? 90))%N.

Definition is_lower (c : ascii) : bool :=
  let n := code c in ((97 <=? n) && (n <=? 122))%N.

Definition upper_char (c : ascii) : ascii :=
  if is_lower c then ascii_of_N (code c - 32) else c.

Definition lower_char (c : ascii) : ascii :=
  if is_upper c then ascii_of_N (code c + 32) else c.

(** [s.upper()] and [s.lower()]. *)
Definition upper (s : str) : str := map upper_char s.
Definition lower (s : str) : str := map lower_char s.

Definition eqc (a b : ascii) : bool := Ascii.eqb a b.

(** [s.startswith(p)], returning what follows the prefix. *)
Fixpoint strip_prefix (p s : str) : option str :=
  match p, s with
  | [], _ => Some s
  | _ :: _, [] => None
  | a :: p', b :: s' => if eqc a b then strip_prefix p' s' else None
  end.

(** [sub in s]. *)
Fixpoint contains (sub s : str) : bool :=
  match strip_prefix sub s with
  | Some _ => true
  | None => match s with
            | [] => false
            | _ :: s' => contains sub s'
            end
  end.

(** [a == b] *)
Definition str_eqb (a b : str) : bool := bool_decide (a = b).

(** [s.count(c)] for a one-character [c]. *)
Definition count_char (c : ascii) (s : str) : nat :=
  length (List.filter (eqc c) s).

(** [s.replace(a, b)] for one-character [a] and [b]. *)
Definition replace_char (a b : ascii) (s : str) : str :=
  map (fun c => if eqc c a then b else c) s.

(** The longest prefix whose characters satisfy [P], and the rest. *)
Fixpoint span (P : ascii -> bool) (s : str) : str * str :=
  match s with
  | [] => ([], [])
  | c :: s' => if P c then let (a, b) := span P s' in (c :: a, b)
               else ([], s)
  end.

Fixpoint lstrip (s : str) : str :=
  match s with
  | [] => []
  | c :: s' => if is_space c then lstrip s' else s
  end.

Definition rstrip (s : str) : str := rev (lstrip (rev s)).

(** [s.strip()]. *)
Definition strip (s : str) : str := rstrip (lstrip s).

(** [s.split()]: the maximal runs of non-blank characters.  [cur] is the
    run being read, reversed. *)
Fixpoint split_go (cur : str) (s : str) : list str :=
  match s with
  | [] => match cur with [] => [] | _ => [rev cur] end
  | c :: s' =>
      if is_space c
      then match cur with
           | [] => split_go [] s'
           | _ => rev cur :: split_go [] s'
           end
      else split_go (c :: cur) s'
  end.

Definition split (s : str) : list str := split_go [] s.

(** [s.rsplit(c, 1)]: [None] when [c] does not occur (Python returns the
    one-element list [[s]]), else what is before and after the last [c]. *)
Fixpoint rsplit1 (c : ascii) (s : str) : option (str * str) :=
  match s with
  | [] => None
  | x :: s' =>
      match rsplit1 c s' with
      | Some (a, b) => Some (x :: a, b)
      | None => if eqc x c then Some ([], s') else None
      end
  end.

(** [s[:n]]. *)
Definition take_prefix (n : nat) (s : str) : str := firstn n s.

(** [int(ds)] for a run of ASCII digits. *)
Definition digit_val (c : ascii) : Z := Z.of_N (code c) - 48.

Definition int_of_digits (ds : str) : Z :=
  fold_left (fun acc c => 10 * acc + digit_val c) ds 0.

(** [str(n)] for an integer. *)
Definition str_of_int (n : Z) : str := L (pretty n).

(** *** The regular expressions of the sources

    Every pattern the sources use is a sequence of literals and of the
    greedy runs [\s+], [\s*] and [\d+], each followed by an item that
    starts with a character outside the run's class; giving up characters
    of a run can therefore never help, and matching at a position is the
    deterministic left-to-right reading below.  A matcher returns the
    captured group and the text after the match. *)

Definition matcher : Type := str -> option (str * str).

(** [\s+] *)
Definition spaces1 (s : str) : option str :=
  match span is_space s with
  | ([], _) => None
  | (_, r) => Some r
  end.

(** [\s*] *)
Definition spaces0 (s : str) : str := snd (span is_space s).

(** [(\d+)] *)
Definition digits1 (s : str) : option (str * str) :=
  match span is_digit s with
  | ([], _) => None
  | (ds, r) => Some (ds, r)
  end.

(** [DAYS?] *)
Definition days_opt_s (s : str) : option str :=
  match strip_prefix (L "DAY") s with
  | Some r => match strip_prefix (L "S") r with
              | Some r' => Some r'
              | None => Some r
              end
  | None => None
  end.

(** [KW\s+(\d+)\s*DAYS?] *)
Definition re_kw_num_days (kw : str) : matcher := fun s =>
  r1 ← strip_prefix kw s;
  r2 ← spaces1 r1;
  '(ds, r3) ← digits1 r2;
  r4 ← days_opt_s (spaces0 r3);
  Some (ds, r4).

(** [KW\s+(\d+)] *)
Definition re_kw_num (kw : str) : matcher := fun s =>
  r1 ← strip_prefix kw s;
  r2 ← spaces1 r1;
  digits1 r2.

(** [KW\s*(\d+)] *)
Definition re_kw_opt_num (kw : str) : matcher := fun s =>
  r1 ← strip_prefix kw s;
  digits1 (spaces0 r1).

(** [(\d+)\s*DAYS?] *)
Definition re_num_days : matcher := fun s =>
  '(ds, r1) ← digits1 s;
  r2 ← days_opt_s (spaces0 r1);
  Some (ds, r2).

(** [\d+] and [(\d+)] *)
Definition re_num : matcher := digits1.

(** [re.search(p, s)]: the match at the leftmost position that has one. *)
Fixpoint re_search (m : matcher) (s : str) : option (str * str) :=
  match m s with
  | Some r => Some r
  | None => match s with
            | [] => None
            | _ :: s' => re_search m s'
            end
  end.

(** [re.findall(p, s)] for a pattern with one group: the groups of the
    successive non-overlapping matches.  Every match of the patterns above
    is non-empty, so the scan resumes in a strictly shorter text; [fuel]
    bounds the number of scanned positions. *)
Fixpoint re_findall_go (fuel : nat) (m : matcher) (s : str) : list str :=
  match fuel with
  | O => []
  | S fuel' =>
      match re_search m s with
      | None => []
      | Some (g, rest) =>
          g :: (if (length rest <? length s)%nat
                then re_findall_go fuel' m rest
                else [])
      end
  end.

Definition re_findall (m : matcher) (s : str) : list str :=
  re_findall_go (S (length s)) m s.

(** [int(match.group(1))] of [re.search(p, s)], when there is a match. *)
Definition search_int (m : matcher) (s : str) : option Z :=
  '(ds, _) ← re_search m s; Some (int_of_digits ds).

(** [any(kw in s for kw in kws)] *)
Definition any_kw (kws : list str) (s : str) : bool :=
  existsb (fun kw => contains kw s) kws.

(** A matcher whose groups are runs of digits. *)
Definition captures_digits (m : matcher) : Prop :=
  forall s ds r, m s = Some (ds, r) -> Forall (fun c => is_digit c = true) ds.

End PyStr.

(** ** [datetime.date]

    A calendar date of the proleptic Gregorian calendar between the years
    [MINYEAR] and [MAXYEAR].  [make] is the constructor [date(y, m, d)],
    which raises [ValueError] on an impossible date; adding a
    [timedelta] of whole days walks the calendar one day at a time and
    raises [OverflowError] when it leaves the supported range. *)

Module PyDate.

Record date : Type := mkdate { year : Z; month : Z; day : Z }.

Definition MINYEAR : Z := 1.
Definition MAXYEAR : Z := 9999.

Definition is_leap (y : Z) : bool :=
  (y mod 4 =? 0) && (negb (y mod 100 =? 0) || (y mod 400 =? 0)).

Definition days_in_month (y m : Z) : Z :=
  if m =? 2 then (if is_leap y then 29 else 28)
  else if (m =? 4) || (m =? 6) || (m =? 9) || (m =? 11) then 30
  else 31.

Definition valid (d : date) : bool :=
  (MINYEAR <=? year d) && (year d <=? MAXYEAR)
  && (1 <=? month d) && (month d <=? 12)
  && (1 <=? day d) && (day d <=? days_in_month (year d) (month d)).

(** [date(y, m, d)] *)
Definition make (y m d : Z) : result date :=
  let r := mkdate y m d in
  if valid r then Ok r else Raise ValueError.

(** [d + timedelta(days=1)] *)
Definition tomorrow (d : date) : result date :=
  if day d <? days_in_month (year d) (month d)
  then Ok (mkdate (year d) (month d) (day d + 1))
  else if month d <? 12
  then Ok (mkdate (year d) (month d + 1) 1)
  else if year d <? MAXYEAR
  then Ok (mkdate (year d + 1) 1 1)
  else Raise OverflowError.

(** [d - timedelta(days=1)] *)
Definition yesterday (d : date) : result date :=
  if 1 <? day d
  then Ok (mkdate (year d) (month d) (day d - 1))
  else if 1 <? month d
  then Ok (mkdate (year d) (month d - 1)
                  (days_in_month (year d) (month d - 1)))
  else if MINYEAR <? year d
  then Ok (mkdate (year d - 1) 12 31)
  else Raise OverflowError.

Fixpoint iter_days (step : date -> result date) (n : nat) (d : date)
  : result date :=
  match n with
  | O => Ok d
  | S k => d' ← step d; iter_days step k d'
  end.

(** [d + timedelta(days=n)] *)
Definition add_days (d : date) (n : Z) : result date :=
  if 0 <=? n then iter_days tomorrow (Z.to_nat n) d
  else iter_days yesterday (Z.to_nat (- n)) d.

End PyDate.

(** ** [utils/payment_terms_calculator.py] *)

Module PaymentTerms.
Import PyStr PyDate.

Inductive PaymentTermCategory : Type :=
| NET_DAYS
| AMS_DAYS
| ADVANCE
| AFTER_EVENT
| SPLIT_PAYMENT
| SPECIAL_DATE
| OTHER.

(** [PaymentTermParser.categorize_payment_term].  A [term_name] for which
    [pd.isna] holds is [None]. *)
Definition categorize_payment_term (term_name : option str) (description : str)
  : PaymentTermCategory :=
  match term_name with
  | None => OTHER
  | Some term_name =>
      let term_upper := upper term_name in
      if contains (L "%") term_name
         || (contains (L ":") term_name && (1 <=? count_char ":" term_name)%nat)
      then SPLIT_PAYMENT
      else if contains (L "NET") term_upper && contains (L "DAYS") term_upper
      then NET_DAYS
      else if contains (L "AMS") term_upper
      then AMS_DAYS
      else if any_kw [L "ADVANCE"; L "COD"; L "CIA"; L "PREPAID"] term_upper
      then ADVANCE
      else if any_kw [L "25TH"; L "EOM"; L "MOA"; L "END OF MONTH"] term_upper
      then SPECIAL_DATE
      else if any_kw [L "AFTER"; L "BEFORE"; L "UPON"] term_upper
      then AFTER_EVENT
      else OTHER
  end.

(** [PaymentTermParser.extract_days_from_net_term] *)
Definition extract_days_from_net_term (term_name : option str) : option Z :=
  match term_name with
  | None => None
  | Some term_name => search_int (re_kw_num_days (L "NET")) (upper term_name)
  end.

(** [PaymentTermParser.extract_days_from_ams_term] *)
Definition extract_days_from_ams_term (term_name : option str) : option Z :=
  match term_name with
  | None => None
  | Some term_name => search_int (re_kw_num_days (L "AMS")) (upper term_name)
  end.

(** The first day of the month after the month of [invoice_date], as
    [calculate_ams_due_date] builds it. *)
Definition first_of_next_month (invoice_date : date) : result date :=
  if month invoice_date =? 12
  then make (year invoice_date + 1) 1 1
  else make (year invoice_date) (month invoice_date + 1) 1.

(** [PaymentTermParser.calculate_ams_due_date] *)
Definition calculate_ams_due_date (invoice_date : date) (days : Z) : result date :=
  first ← first_of_next_month invoice_date;
  add_days first days.

(** [PaymentTermParser.extract_final_payment_days] *)
Definition extract_final_payment_days (term_name description : str) : option Z :=
  let text := upper (term_name ++ L " " ++ description) in
  let matches := re_findall (re_kw_num_days (L "NET")) text in
  match rev matches with
  | [] => None
  | last :: _ => Some (int_of_digits last)
  end.

(** The second component of the result of [calculate_due_date]; each
    constructor stands for one of its explanation texts and carries the
    values the text interpolates. *)
Inductive explanation : Type :=
| ExplNotSpecified             (* Payment term not specified *)
| ExplInvoicePlus (days : Z)   (* Invoice date + {days} days *)
| ExplNoNetDays (term : str)   (* Could not parse NET days from: {term} *)
| ExplNextMonthPlus (days : Z) (* First day of next month + {days} days *)
| ExplNoAmsDays (term : str)   (* Could not parse AMS days from: {term} *)
| ExplAdvance                  (* Payment in advance (due immediately) *)
| ExplSplitFinal (days : Z)    (* Split payment term - Final payment: ... *)
| ExplSplitReview              (* Split payment term - Please review ... *)
| Expl25th                     (* Payment due on 25th of month *)
| ExplEomPlus (days : Z)       (* End of month + {days} days *)
| ExplMoaPlus (days : Z)       (* MOA: Invoice date + {days} days *)
| ExplSpecialDate              (* Special date term - Please specify ... *)
| ExplEvent (term : str)       (* Event-based payment ({term}) - ... *)
| ExplCustom.                  (* Custom payment term - Please review ... *)

Definition due_result : Type := option date * explanation * bool.

(** The [SPECIAL_DATE] branch of [calculate_due_date]. *)
Definition special_date_due (term_name : str) (invoice_date : date)
  : result due_result :=
  let y := year invoice_date in
  let m := month invoice_date in
  let unspecified : result due_result := Ok (None, ExplSpecialDate, true) in
  if contains (L "25TH") (upper term_name) then
    due_date ← (if day invoice_date <=? 25 then make y m 25
                else if m =? 12 then make (y + 1) 1 25
                else make y (m + 1) 25);
    Ok (Some due_date, Expl25th, true)
  else if contains (L "EOM") (upper term_name) then
    match search_int (re_kw_opt_num (L "EOM")) (upper term_name) with
    | Some days =>
        last_day ← (if m =? 12 then make y 12 31
                    else next_month ← make y (m + 1) 1;
                         add_days next_month (-1));
        due_date ← add_days last_day days;
        Ok (Some due_date, ExplEomPlus days, true)
    | None => unspecified
    end
  else if contains (L "MOA") (upper term_name) then
    match search_int re_num term_name with
    | Some days =>
        due_date ← add_days invoice_date days;
        Ok (Some due_date, ExplMoaPlus days, true)
    | None => unspecified
    end
  else unspecified.

(** [PaymentTermParser.calculate_due_date] *)
Definition calculate_due_date (term_name : option str) (invoice_date : date)
  (description : str) : result due_result :=
  match term_name with
  | None => Ok (None, ExplNotSpecified, true)
  | Some name =>
      match categorize_payment_term term_name description with
      | NET_DAYS =>
          match extract_days_from_net_term term_name with
          | Some days =>
              due_date ← add_days invoice_date days;
              Ok (Some due_date, ExplInvoicePlus days, false)
          | None => Ok (None, ExplNoNetDays name, true)
          end
      | AMS_DAYS =>
          match extract_days_from_ams_term term_name with
          | Some days =>
              due_date ← calculate_ams_due_date invoice_date days;
              Ok (Some due_date, ExplNextMonthPlus days, false)
          | None => Ok (None, ExplNoAmsDays name, true)
          end
      | ADVANCE => Ok (Some invoice_date, ExplAdvance, false)
      | SPLIT_PAYMENT =>
          match extract_final_payment_days name description with
          | Some final_days =>
              due_date ← add_days invoice_date final_days;
              Ok (Some due_date, ExplSplitFinal final_days, true)
          | None =>
              due_date ← add_days invoice_date 30;
              Ok (Some due_date, ExplSplitReview, true)
          end
      | SPECIAL_DATE => special_date_due name invoice_date
      | AFTER_EVENT =>
          due_date ← add_days invoice_date 30;
          Ok (Some due_date, ExplEvent name, true)
      | OTHER =>
          due_date ← add_days invoice_date 30;
          Ok (Some due_date, ExplCustom, true)
      end
  end.

(** The module-level [calculate_days_from_term_name], kept "for backward
    compatibility". *)
Definition calculate_days_from_term_name (term_name : option str) : Z :=
  match term_name with
  | None => 30
  | Some name =>
      match categorize_payment_term term_name [] with
      | NET_DAYS =>
          match extract_days_from_net_term term_name with
          | Some days => days
          | None => 30
          end
      | AMS_DAYS =>
          match extract_days_from_ams_term term_name with
          | Some days => days + 15
          | None => 30
          end
      | ADVANCE => 0
      | SPLIT_PAYMENT =>
          match extract_final_payment_days name [] with
          | Some final_days => final_days
          | None => 30
          end
      | _ => 30
      end
  end.

End PaymentTerms.
(** ** Python numbers

    The amounts, quantities and rates are Python [float]s.  The sources
    are embedded over an interface of the operations they use, so that
    what is proved holds for every implementation of them.  [Arith] is
    the arithmetic and the comparisons; [Num] adds the rounding to two
    decimals, the reading of a decimal string and the only law, that
    [x > x] is false.  [Binary64] implements [Arith] with the IEEE
    binary64 numbers of the kernel, which are the [float]s of Python;
    [QNum] implements [Num] with exact rationals and runs the examples
    on values away from a rounding boundary.  Where the rounding of
    binary64 decides, at the ceiling of 110 percent, the example is run
    in [Binary64]. *)

Module PyNum.
Import PyStr.

Class Arith : Type := {
  num : Type;
  zero : num;                        (* 0 *)
  one : num;                         (* 1.0 *)
  hundred : num;                     (* 100 *)
  c1_1 : num;                        (* 1.1 *)
  c0_9 : num;                        (* 0.9 *)
  add : num -> num -> num;           (* x + y *)
  mul : num -> num -> num;           (* x * y *)
  div : num -> num -> num;           (* x / y, for a non-zero constant y *)
  gtb : num -> num -> bool;          (* x > y *)
  eqb : num -> num -> bool           (* x == y *)
}.

Class Num : Type := {
  Num_Arith :: Arith;
  round2 : num -> num;               (* round(x, 2) *)
  parse_float : str -> option num;   (* float(s); None is ValueError *)
  gtb_irrefl : forall x : num, gtb x x = false
}.

(** [float(s)] as a [result]. *)
Definition float_of_str `{Num} (s : str) : result num :=
  match parse_float s with
  | Some x => Ok x
  | None => Raise ValueError
  end.

(** [sum(xs)], from the left and from [0]. *)
Definition sum `{Arith} (xs : list num) : num := fold_left add xs zero.

(** *** Exact rationals *)

(** Nearest integer, ties to the even one. *)
Definition round_half_even (x : Q) : Z :=
  let f := Qfloor x in
  let r := (x - inject_Z f)%Q in
  match (r ?= 1 # 2)%Q with
  | Lt => f
  | Gt => f + 1
  | Eq => if Z.even f then f else f + 1
  end.

Definition Qround2 (x : Q) : Q := Qred (round_half_even (x * 100) # 100).

(** Decimal literals [digits] and [digits.digits], with an optional sign;
    the fragment of [float(s)] the cost strings need. *)
Definition parse_unsigned (s : str) : option Q :=
  match span is_digit s with
  | ([], _) => None
  | (ip, []) => Some (inject_Z (int_of_digits ip))
  | (ip, c :: r) =>
      if eqc c "." then
        match span is_digit r with
        | (fp, []) =>
            Some (Qred (int_of_digits (ip ++ fp)
                        # Pos.of_nat (Nat.pow 10 (length fp))))
        | _ => None
        end
      else None
  end.

Definition Qparse (s : str) : option Q :=
  match strip s with
  | c :: r => if eqc c "-" then Qopp <$> parse_unsigned r
              else parse_unsigned (c :: r)
  | [] => None
  end.

Definition Qgtb (x y : Q) : bool :=
  match (x ?= y)%Q with Gt => true | _ => false end.

Definition Qarith : Arith := {|
  num := Q;
  zero := 0%Q;
  one := 1%Q;
  hundred := 100%Q;
  c1_1 := (11 # 10)%Q;
  c0_9 := (9 # 10)%Q;
  add := Qplus;
  mul := Qmult;
  div := Qdiv;
  gtb := Qgtb;
  eqb := Qeq_bool
|}.

#[export] Instance QNum : Num := {|
  Num_Arith := Qarith;
  round2 := Qround2;
  parse_float := Qparse;
  gtb_irrefl := fun x : Q =>
    @eq_ind_r comparison Eq
      (fun c => match c with Gt => true | _ => false end = false)
      eq_refl _ (Z.compare_refl (Qnum x * QDen x))
|}.

End PyNum.

(** ** IEEE binary64

    The arithmetic of Python's [float]: the binary64 numbers of the
    kernel, with the operations rounded to nearest, ties to even.  A
    decimal literal stands for the nearest binary64 number, as it does
    in Python. *)

Module PyFloat.
Import PrimFloat.

#[local] Set Warnings "-inexact-float".

Definition Binary64 : PyNum.Arith := {|
  PyNum.num := float;
  PyNum.zero := 0%float;
  PyNum.one := 1%float;
  PyNum.hundred := 100%float;
  PyNum.c1_1 := 1.1%float;
  PyNum.c0_9 := 0.9%float;
  PyNum.add := PrimFloat.add;
  PyNum.mul := PrimFloat.mul;
  PyNum.div := PrimFloat.div;
  PyNum.gtb := fun x y => PrimFloat.ltb y x;
  PyNum.eqb := PrimFloat.eqb
|}.

End PyFloat.

(** ** Data frames

    The frames the engine passes around: a set of column names and the
    rows.  A row has a cell for every column the sources read; a cell of
    a column that the frame does not have is never looked at, because
    every read goes through [has_col]. *)

Module Frame.
Import PyStr PyNum.

Section WithArith.
Context `{Arith}.

Record Row : Type := {
  vendor_code : str;
  legal_entity_code : str;
  vendor_type : str;
  po_number : str;
  arrival_note_number : str;
  payment_term : option str;            (* [None] is a missing value *)
  product_purchase_order_id : Z;
  buying_unit_cost : str;               (* such as "123.45 USD" *)
  uninvoiced_quantity : num;
  true_remaining_qty : num;
  vat_percent : num;
  po_line_is_over_delivered : str;
  po_line_is_over_invoiced : str;
  has_legacy_invoices : str
}.

Record DataFrame : Type := {
  columns : gset str;
  rows : list Row
}.

(** [c in df.columns] *)
Definition has_col (df : DataFrame) (c : string) : bool :=
  bool_decide (L c ∈ columns df).

(** [df.empty] *)
Definition empty (df : DataFrame) : bool :=
  match rows df with [] => true | _ => false end.

(** [row[c]]: [KeyError] when the frame has no column [c]. *)
Definition cell {A} (df : DataFrame) (c : string) (v : A) : result A :=
  if has_col df c then Ok v else Raise KeyError.

(** [row.get(c, default)] *)
Definition cell_get {A} (df : DataFrame) (c : string) (v default : A) : A :=
  if has_col df c then v else default.

End WithArith.

(** [for x in xs: s = f(s, x)], stopping at the first exception. *)
Fixpoint foldM {A S} (f : S -> A -> result S) (xs : list A) (s : S)
  : result S :=
  match xs with
  | [] => Ok s
  | x :: xs' => s' ← f s x; foldM f xs' s'
  end.

(** [[f(x) for x in xs]], stopping at the first exception. *)
Fixpoint mapM_result {A B} (f : A -> result B) (xs : list A)
  : result (list B) :=
  match xs with
  | [] => Ok []
  | x :: xs' => y ← f x; ys ← mapM_result f xs'; Ok (y :: ys)
  end.

(** [Series.unique()]: the distinct values in order of first appearance. *)
Definition unique {A} (eqb : A -> A -> bool) (xs : list A) : list A :=
  fold_left (fun seen x => if existsb (eqb x) seen then seen else seen ++ [x])
            xs [].

End Frame.

(** ** [utils/currency_utils.py] *)

Module Currency.
Import PyStr PyNum Frame.

Section WithNum.
Context `{Num}.

(** What the rate API answers to one conversion request. *)
Inductive api_response : Type :=
| ApiRaises                                   (* transport or HTTP error *)
| ApiAnswer (success : bool) (answer : option num).
                                              (* the JSON body *)

(** The collaborators of the resolver.  [db_latest_rate f t] is the
    outcome of the query for the most recent non-deleted rate of the
    pair: an exception, no usable row ([None]), or the stored value. *)
Record RateSources : Type := {
  api_key : option str;
  api_convert : str -> str -> api_response;
  db_latest_rate : str -> str -> result (option num)
}.

(** The module-level dictionaries [_rate_cache] and [_cache_expiry]. *)
Record RateCache : Type := {
  rate_cache : gmap str num;
  cache_expiry : gmap str Z
}.

(** [get_rate_from_database] *)
Definition get_rate_from_database (src : RateSources)
  (from_currency to_currency : str) : option num :=
  match db_latest_rate src from_currency to_currency with
  | Raise _ => None
  | Ok (Some rate) => Some rate
  | Ok None =>
      match db_latest_rate src to_currency from_currency with
      | Ok (Some inverse) =>
          if gtb inverse zero then Some (div one inverse) else None
      | _ => None
      end
  end.

Definition cache_key (from_currency to_currency : str) : str :=
  from_currency ++ L "-" ++ to_currency.

(** The fresh cache entry of a key, if there is one. *)
Definition cached (cache : RateCache) (key : str) (now : Z) : option num :=
  match rate_cache cache !! key, cache_expiry cache !! key with
  | Some rate, Some expiry => if now <? expiry then Some rate else None
  | _, _ => None
  end.

(** [get_latest_exchange_rate]; [now] is the clock in seconds.  The
    second component is the cache after the call. *)
Definition get_latest_exchange_rate (src : RateSources) (now : Z)
  (cache : RateCache) (from_currency to_currency : str)
  : option num * RateCache :=
  if bool_decide (from_currency = to_currency) then (Some one, cache)
  else
    let key := cache_key from_currency to_currency in
    match cached cache key now with
    | Some rate => (Some rate, cache)
    | None =>
        let from_db := get_rate_from_database src from_currency to_currency in
        match api_key src with
        | None | Some [] => (from_db, cache)
        | Some _ =>
            match api_convert src from_currency to_currency with
            | ApiAnswer true (Some rate) =>
                (Some rate,
                 {| rate_cache := <[key := rate]> (rate_cache cache);
                    cache_expiry := <[key := now + 3600]> (cache_expiry cache) |})
            | _ => (from_db, cache)
            end
        end
    end.

(** [calculate_exchange_rates]: the dictionary with the keys
    [usd_exchange_rate] and [po_to_invoice_rate], and the cache after
    the two look-ups. *)
Definition calculate_exchange_rates (src : RateSources) (now : Z)
  (cache : RateCache) (po_currency_code invoice_currency_code : str)
  : gmap str (option num) * RateCache :=
  let '(usd, cache1) :=
    if bool_decide (invoice_currency_code = L "USD") then (Some one, cache)
    else get_latest_exchange_rate src now cache (L "USD") invoice_currency_code in
  let '(po, cache2) :=
    if bool_decide (po_currency_code = invoice_currency_code)
    then (Some one, cache1)
    else get_latest_exchange_rate src now cache1
                                  po_currency_code invoice_currency_code in
  (<[L "po_to_invoice_rate" := po]> (<[L "usd_exchange_rate" := usd]> ∅),
   cache2).

(** [rates.get(key) is None] *)
Definition rate_is_none (rates : gmap str (option num)) (key : string) : bool :=
  match rates !! L key with
  | Some (Some _) => false
  | _ => true
  end.

(** [validate_exchange_rates]: [(is_valid, warnings)]. *)
Definition validate_exchange_rates (rates : gmap str (option num))
  (po_currency invoice_currency : str) : bool * list str :=
  let '(is_valid, warnings) :=
    if negb (bool_decide (po_currency = invoice_currency))
       && rate_is_none rates "po_to_invoice_rate"
    then (false, [L "Cannot convert " ++ po_currency ++ L " to "
                    ++ invoice_currency])
    else (true, []) in
  if negb (bool_decide (invoice_currency = L "USD"))
     && rate_is_none rates "usd_exchange_rate"
  then (is_valid,
        warnings ++ [L "USD to " ++ invoice_currency
                       ++ L " rate not available (needed for reporting)"])
  else (is_valid, warnings).

(** The dictionary [get_invoice_amounts_in_currency] returns. *)
Record ConvertedAmounts : Type := {
  exchange_rate : num;
  subtotal : num;
  total_vat : num;
  total_with_vat : num;
  currency : str
}.

(** The unit cost of a row, as the loop of
    [get_invoice_amounts_in_currency] reads it. *)
Definition converted_unit_cost (df : DataFrame) (row : Row) : result num :=
  let cost_str := cell_get df "buying_unit_cost" (buying_unit_cost row) (L "0") in
  if contains (L " ") cost_str
  then match split cost_str with
       | first :: _ => float_of_str first
       | [] => Raise IndexError
       end
  else float_of_str cost_str.

(** One turn of the loop: the new [(total_amount, total_vat)]. *)
Definition convert_line (df : DataFrame) (exchange_rate : num)
  (acc : num * num) (row : Row) : result (num * num) :=
  let '(total_amount, total_vat) := acc in
  unit_cost ← converted_unit_cost df row;
  let quantity := cell_get df "uninvoiced_quantity" (uninvoiced_quantity row) zero in
  let vat_percent := cell_get df "vat_percent" (vat_percent row) zero in
  let line_amount := mul unit_cost quantity in
  let line_amount_converted := mul line_amount exchange_rate in
  let vat_amount := div (mul line_amount_converted vat_percent) hundred in
  Ok (add total_amount line_amount_converted, add total_vat vat_amount).

(** [get_invoice_amounts_in_currency]: [Ok None] is the return value
    [None]. *)
Definition get_invoice_amounts_in_currency (src : RateSources) (now : Z)
  (cache : RateCache) (selected_df : DataFrame)
  (po_currency invoice_currency : str)
  : result (option ConvertedAmounts) * RateCache :=
  let '(rate, cache') :=
    if bool_decide (po_currency = invoice_currency) then (Some one, cache)
    else get_latest_exchange_rate src now cache po_currency invoice_currency in
  match rate with
  | None => (Ok None, cache')
  | Some exchange_rate =>
      ('(total_amount, total_vat) ←
         foldM (convert_line selected_df exchange_rate) (rows selected_df)
               (zero, zero);
       Ok (Some {| exchange_rate := exchange_rate;
                   subtotal := round2 total_amount;
                   total_vat := round2 total_vat;
                   total_with_vat := round2 (add total_amount total_vat);
                   currency := invoice_currency |}),
       cache')
  end.

End WithNum.
End Currency.

(** ** [utils/invoice_service.py] *)

Module Service.
Import PyStr PyNum Frame.

Section WithNum.
Context `{Num}.

(** The dictionary [calculate_invoice_totals_with_vat] returns. *)
Record Totals : Type := {
  total_quantity : num;
  total_lines : nat;
  po_count : nat;
  an_count : nat;
  subtotal : num;
  total_vat : num;
  total_with_vat : num;
  currency : str
}.

(** [Series.nunique()] of a column of strings. *)
Definition nunique (xs : list str) : nat := length (unique str_eqb xs).

(** The quantity of a line: [row.get('true_remaining_qty',
    row['uninvoiced_quantity'])]; the default is evaluated first. *)
Definition line_quantity (df : DataFrame) (row : Row) : result num :=
  uninvoiced ← cell df "uninvoiced_quantity" (uninvoiced_quantity row);
  Ok (cell_get df "true_remaining_qty" (true_remaining_qty row) uninvoiced).

(** One turn of the loop of [calculate_invoice_totals_with_vat]: the new
    [(subtotal, total_vat, currency)]. *)
Definition totals_line (df : DataFrame) (acc : num * num * option str)
  (row : Row) : result (num * num * option str) :=
  let '(subtotal, total_vat, currency) := acc in
  cost ← cell df "buying_unit_cost" (buying_unit_cost row);
  match split cost with
  | first :: second :: _ =>
      unit_cost ← float_of_str first;
      let currency := match currency with
                      | None | Some [] => Some second
                      | Some _ => currency
                      end in
      qty ← line_quantity df row;
      let line_amount := mul unit_cost qty in
      let vat_percent := cell_get df "vat_percent" (vat_percent row) zero in
      let vat_amount := div (mul line_amount vat_percent) hundred in
      Ok (add subtotal line_amount, add total_vat vat_amount, currency)
  | _ => Ok acc
  end.

(** [InvoiceService.calculate_invoice_totals_with_vat] *)
Definition calculate_invoice_totals_with_vat (df : DataFrame) : result Totals :=
  quantities ← cell df "uninvoiced_quantity" (map uninvoiced_quantity (rows df));
  po_numbers ← cell df "po_number" (map po_number (rows df));
  an_numbers ← cell df "arrival_note_number" (map arrival_note_number (rows df));
  '(subtotal, total_vat, currency) ←
    foldM (totals_line df) (rows df) (zero, zero, None);
  Ok {| total_quantity := sum quantities;
        total_lines := length (rows df);
        po_count := nunique po_numbers;
        an_count := nunique an_numbers;
        subtotal := round2 subtotal;
        total_vat := round2 total_vat;
        total_with_vat := round2 (add subtotal total_vat);
        currency := match currency with
                    | None | Some [] => L "USD"
                    | Some c => c
                    end |}.

(** [InvoiceService.calculate_due_date]:
    [invoice_date + timedelta(days=payment_term_days)] *)
Definition calculate_due_date (invoice_date : PyDate.date)
  (payment_term_days : Z) : result PyDate.date :=
  PyDate.add_days invoice_date payment_term_days.

(** The dictionary [calculate_invoice_totals] returns. *)
Record PlainTotals : Type := {
  plain_total_quantity : num;
  plain_total_lines : nat;
  plain_po_count : nat;
  plain_an_count : nat;
  total_value : num;
  plain_currency : str
}.

(** One turn of the loop of [calculate_invoice_totals]: the new
    [(total_value, currency)]. *)
Definition value_line (df : DataFrame) (acc : num * option str)
  (row : Row) : result (num * option str) :=
  let '(total_value, currency) := acc in
  cost ← cell df "buying_unit_cost" (buying_unit_cost row);
  match split cost with
  | first :: second :: _ =>
      unit_cost ← float_of_str first;
      let currency := match currency with
                      | None | Some [] => Some second
                      | Some _ => currency
                      end in
      qty ← line_quantity df row;
      Ok (add total_value (mul unit_cost qty), currency)
  | _ => Ok acc
  end.

(** [InvoiceService.calculate_invoice_totals] *)
Definition calculate_invoice_totals (df : DataFrame) : result PlainTotals :=
  quantities ← cell df "uninvoiced_quantity" (map uninvoiced_quantity (rows df));
  po_numbers ← cell df "po_number" (map po_number (rows df));
  an_numbers ← cell df "arrival_note_number" (map arrival_note_number (rows df));
  '(total_value, currency) ← foldM (value_line df) (rows df) (zero, None);
  Ok {| plain_total_quantity := sum quantities;
        plain_total_lines := length (rows df);
        plain_po_count := nunique po_numbers;
        plain_an_count := nunique an_numbers;
        total_value := round2 total_value;
        plain_currency := match currency with
                          | None | Some [] => L "USD"
                          | Some c => c
                          end |}.

End WithNum.

Section WithArith.
Context `{Arith}.

(** A row of the frame [get_po_line_summary] returns. *)
Record PoRow : Type := {
  po_id : Z;                            (* product_purchase_order_id *)
  po_po_number : str;
  po_pt_code : str;
  legacy_invoice_qty : num;
  po_remaining_qty : num
}.

(** The texts of [messages]; each constructor stands for one of them and
    carries the interpolated values. *)
Inductive message : Type :=
| NoItems                                (* No items selected *)
| MultipleVendors (vendors : list str)   (* Multiple vendors selected: ... *)
| MultipleEntities (entities : list str) (* Multiple legal entities selected: ... *)
| MixedVendorTypes                       (* Cannot mix Internal and External vendors *)
| ExceedsPO (po_number pt_code : str)    (* Selection exceeds PO remaining quantity for ... *)
| LegacyUnits (po_number pt_code : str) (qty : num)
                                         (* PO ... has ... units from legacy invoices *)
| Over90 (po_number pt_code : str)       (* PO ... will be >90% invoiced *)
| CouldNotValidate                       (* Could not validate PO level constraints *)
| MultipleTerms (terms : list str)       (* Multiple payment terms: ... *)
| MultipleVat (rates : list num)         (* Multiple VAT rates: ... *)
| OverDelivery (n : nat)                 (* n PO line(s) have over-delivery *)
| OverInvoicing (n : nat)                (* n PO line(s) have over-invoicing *)
| LegacyLines (n : nat).                 (* n PO line(s) have legacy invoices *)

Record ValidationResults : Type := {
  can_invoice : bool;
  has_warnings : bool;
  has_risks : bool
}.

Record Messages : Type := {
  error : option message;
  warnings : list message;
  risks : list message
}.

Definition verdict : Type := ValidationResults * Messages.

(** [validation_results['can_invoice'] = False; messages['error'] = m] *)
Definition block (v : verdict) (m : message) : verdict :=
  ({| can_invoice := false;
      has_warnings := has_warnings (fst v);
      has_risks := has_risks (fst v) |},
   {| error := Some m;
      warnings := warnings (snd v);
      risks := risks (snd v) |}).

(** [validation_results['has_warnings'] = True;
    messages['warnings'].append(m)] *)
Definition warn (v : verdict) (m : message) : verdict :=
  ({| can_invoice := can_invoice (fst v);
      has_warnings := true;
      has_risks := has_risks (fst v) |},
   {| error := error (snd v);
      warnings := warnings (snd v) ++ [m];
      risks := risks (snd v) |}).

Definition warn_if (b : bool) (v : verdict) (m : message) : verdict :=
  if b then warn v m else v.

(** How a turn of the loop over the PO lines ends. *)
Inductive flow : Type :=
| Next                 (* on to the next PO line *)
| Return               (* [return validation_results, messages] *)
| Raised (e : exn).    (* an exception, for the enclosing [except] *)

(** [selected_for_po['uninvoiced_quantity'].sum()] *)
Definition total_selected_for (df : DataFrame) (po : Z) : num :=
  sum (map uninvoiced_quantity
           (List.filter (fun r => product_purchase_order_id r =? po) (rows df))).

(** The body of [for po_id in po_line_ids]. *)
Definition po_step (df : DataFrame) (po_summary : list PoRow)
  (v : verdict) (po : Z) : verdict * flow :=
  match List.find (fun p => po_id p =? po) po_summary with
  | None => (v, Next)
  | Some po_row =>
      if negb (has_col df "uninvoiced_quantity") then (v, Raised KeyError)
      else
        let total_selected := total_selected_for df po in
        let remaining_qty := po_remaining_qty po_row in
        if gtb total_selected (mul remaining_qty c1_1)
        then (block v (ExceedsPO (po_po_number po_row) (po_pt_code po_row)),
              Return)
        else
          let v1 := warn_if (gtb (legacy_invoice_qty po_row) zero) v
                      (LegacyUnits (po_po_number po_row) (po_pt_code po_row)
                                   (legacy_invoice_qty po_row)) in
          let v2 := warn_if (gtb total_selected (mul remaining_qty c0_9)) v1
                      (Over90 (po_po_number po_row) (po_pt_code po_row)) in
          (v2, Next)
  end.

Fixpoint po_loop (df : DataFrame) (po_summary : list PoRow)
  (po_line_ids : list Z) (v : verdict) : verdict * flow :=
  match po_line_ids with
  | [] => (v, Next)
  | po :: rest =>
      match po_step df po_summary v po with
      | (v', Next) => po_loop df po_summary rest v'
      | stop => stop
      end
  end.

(** The block under [# PO Level Validation]: [inl] is an early return. *)
Definition po_level_validation (get_po_line_summary : list Z -> list PoRow)
  (df : DataFrame) (v : verdict) : verdict + verdict :=
  if has_col df "product_purchase_order_id" then
    let po_line_ids := unique Z.eqb (map product_purchase_order_id (rows df)) in
    let po_summary := get_po_line_summary po_line_ids in
    match po_summary with
    | [] => inr v
    | _ =>
        match po_loop df po_summary po_line_ids v with
        | (v', Return) => inl v'
        | (v', Raised _) => inr (warn v' CouldNotValidate)
        | (v', Next) => inr v'
        end
    end
  else inr v.

(** [len(df[df[c] == 'Y'])] *)
Definition count_flag (f : Row -> str) (df : DataFrame) : nat :=
  length (List.filter (fun r => str_eqb (f r) (L "Y")) (rows df)).

(** The checks after the PO level: they only add warnings. *)
Definition informational_checks (df : DataFrame) (v : verdict) : result verdict :=
  terms ← cell df "payment_term" (omap payment_term (rows df));
  let payment_terms := unique str_eqb terms in
  let v1 := warn_if (1 <? length payment_terms)%nat v
              (MultipleTerms payment_terms) in
  let vat_rates := unique eqb (map vat_percent (rows df)) in
  let v2 := warn_if (has_col df "vat_percent" && (1 <? length vat_rates)%nat) v1
              (MultipleVat vat_rates) in
  let over_delivered := count_flag po_line_is_over_delivered df in
  let v3 := warn_if (has_col df "po_line_is_over_delivered"
                     && (0 <? over_delivered)%nat) v2
              (OverDelivery over_delivered) in
  let over_invoiced := count_flag po_line_is_over_invoiced df in
  let v4 := warn_if (has_col df "po_line_is_over_invoiced"
                     && (0 <? over_invoiced)%nat) v3
              (OverInvoicing over_invoiced) in
  let has_legacy := count_flag has_legacy_invoices df in
  let v5 := warn_if (has_col df "has_legacy_invoices"
                     && (0 <? has_legacy)%nat) v4
              (LegacyLines has_legacy) in
  Ok v5.

Definition initial_verdict : verdict :=
  ({| can_invoice := true; has_warnings := false; has_risks := false |},
   {| error := None; warnings := []; risks := [] |}).

(** [InvoiceService.validate_invoice_with_po_level];
    [get_po_line_summary] is the query of [utils/invoice_data.py], which
    answers the empty frame when it fails. *)
Definition validate_invoice_with_po_level
  (get_po_line_summary : list Z -> list PoRow) (df : DataFrame)
  : result verdict :=
  let v := initial_verdict in
  if empty df then Ok (block v NoItems)
  else
    vendor_codes ← cell df "vendor_code" (map vendor_code (rows df));
    let vendors := unique str_eqb vendor_codes in
    if (1 <? length vendors)%nat then Ok (block v (MultipleVendors vendors))
    else
      entity_codes ← cell df "legal_entity_code" (map legal_entity_code (rows df));
      let entities := unique str_eqb entity_codes in
      if (1 <? length entities)%nat then Ok (block v (MultipleEntities entities))
      else
        types ← cell df "vendor_type" (map vendor_type (rows df));
        let vendor_types := unique str_eqb types in
        if (1 <? length vendor_types)%nat then Ok (block v MixedVendorTypes)
        else
          match po_level_validation get_po_line_summary df v with
          | inl blocked => Ok blocked
          | inr v' => informational_checks df v'
          end.

End WithArith.
End Service.

(** ** [utils/invoice_data.py]: the day count of a term label, the
    [true_remaining_qty] column, the basic validation of a selection and
    the invoice numbers *)

Module InvoiceData.
Import PyStr.

(** [calculate_days_from_term_name] of [utils/invoice_data.py], the one
    the invoice page imports. *)
Definition calculate_days_from_term_name (term_name : option str) : Z :=
  match term_name with
  | None => 30
  | Some raw =>
      let term_name := strip raw in
      let term_upper := upper term_name in
      let immediate_terms :=
        [L "COD"; L "CIA"; L "TT IN ADVANCE"; L "ADVANCE"; L "PREPAID"] in
      if any_kw immediate_terms term_upper then 0
      else
        match search_int (re_kw_num (L "NET")) term_upper with
        | Some days => days
        | None =>
            match search_int (re_kw_num (L "AMS")) term_upper with
            | Some days => days + 15
            | None =>
                match search_int re_num_days term_upper with
                | Some days => days
                | None =>
                    match search_int re_num term_name with
                    | Some days => days
                    | None => 30
                    end
                end
            end
        end
  end.

(** *** The query of [get_uninvoiced_ans]

    Quantities are SQL decimals, exact rationals here; a [NULL] is
    [None]. *)

(** [GREATEST] and [LEAST] answer [NULL] as soon as an argument is
    [NULL]. *)
Definition sql_least (a b : option Q) : option Q :=
  match a, b with
  | Some x, Some y => Some (Qmin x y)
  | _, _ => None
  end.

Definition sql_greatest (a b : option Q) : option Q :=
  match a, b with
  | Some x, Some y => Some (Qmax x y)
  | _, _ => None
  end.

(** [a > 0] in a [WHERE] clause: a [NULL] does not pass. *)
Definition sql_positive (a : option Q) : bool :=
  match a with
  | Some x => match (x ?= 0)%Q with Gt => true | _ => false end
  | None => false
  end.

(** [COALESCE(a, 0)] *)
Definition coalesce0 (a : option Q) : Q := default 0%Q a.

(** A row of [can_tracking_full_view]. *)
Record CanRow : Type := {
  can_line_id : Z;
  can_product_purchase_order_id : Z;
  can_uninvoiced_quantity : option Q;
  can_po_line_pending_invoiced_qty : option Q
}.

(** A row of [purchase_invoice_details] joined with its invoice. *)
Record InvoiceDetail : Type := {
  pid_product_purchase_order_id : Z;
  pid_arrival_detail_id : option Z;
  pid_purchased_invoice_quantity : Q;
  pid_delete_flag : bool;
  pi_delete_flag : bool
}.

(** The rows of the result that the reconciliation reads. *)
Record AnRow : Type := {
  an_can_line_id : Z;
  an_product_purchase_order_id : Z;
  an_uninvoiced_quantity : option Q;
  an_po_line_pending_invoiced_qty : option Q;
  an_vat_percent : Q;
  an_legacy_invoice_qty : Q;
  an_true_remaining_qty : option Q;
  an_has_legacy_invoices : bool            (* 'Y' or 'N' *)
}.

(** The [legacy_invoices] sub-query for one PO line: the summed quantity
    of the live detail rows without arrival, [NULL] without such a row. *)
Definition legacy_invoice_qty_of (details : list InvoiceDetail) (ppo : Z)
  : option Q :=
  let legacy :=
    List.filter (fun d => (pid_product_purchase_order_id d =? ppo)
                          && negb (bool_decide (is_Some (pid_arrival_detail_id d)))
                          && negb (pid_delete_flag d)
                          && negb (pi_delete_flag d)) details in
  match legacy with
  | [] => None
  | _ => Some (fold_left Qplus (map pid_purchased_invoice_quantity legacy) 0%Q)
  end.

(** The [SELECT] list for a row of the view that joins the PO line whose
    [vat_gst] is [vat]. *)
Definition select_row (details : list InvoiceDetail) (vat : option Q)
  (can : CanRow) : AnRow :=
  let legacy := legacy_invoice_qty_of details (can_product_purchase_order_id can) in
  {| an_can_line_id := can_line_id can;
     an_product_purchase_order_id := can_product_purchase_order_id can;
     an_uninvoiced_quantity := can_uninvoiced_quantity can;
     an_po_line_pending_invoiced_qty := can_po_line_pending_invoiced_qty can;
     an_vat_percent := coalesce0 vat;
     an_legacy_invoice_qty := coalesce0 legacy;
     an_true_remaining_qty :=
       sql_greatest (Some 0%Q)
         (sql_least (can_uninvoiced_quantity can)
                    (can_po_line_pending_invoiced_qty can));
     an_has_legacy_invoices := sql_positive (Some (coalesce0 legacy)) |}.

(** [get_uninvoiced_ans]: the rows of the view that join a PO line of
    [product_purchase_orders] (a map from the line's id to its [vat_gst]),
    have [uninvoiced_quantity > 0] and pass the [conditions] built from
    the filters; a failing query ([Raise]) answers the empty frame.  The
    rows come in the order of the view: the [ORDER BY] clause only
    permutes them. *)
Definition get_uninvoiced_ans (view : result (list CanRow))
  (product_purchase_orders : gmap Z (option Q))
  (details : list InvoiceDetail) (conditions : CanRow -> bool)
  : list AnRow :=
  match view with
  | Raise _ => []
  | Ok cans =>
      omap (fun can =>
              vat ← product_purchase_orders !! can_product_purchase_order_id can;
              if sql_positive (can_uninvoiced_quantity can) && conditions can
              then Some (select_row details vat can)
              else None)
           cans
  end.

(** The messages of [validate_invoice_selection]. *)
Inductive selection_error : Type :=
| NoItemsSelected                          (* No items selected *)
| MultipleVendorsSelected (vendors : list str)
                                           (* Multiple vendors selected: ... *)
| MixedVendorTypesSelected                 (* Cannot mix Internal and External ... *)
| MultipleEntitiesSelected (entities : list str).
                                           (* Multiple legal entities selected: ... *)

Section WithArith.
Context `{PyNum.Arith}.

(** [validate_invoice_selection]: [(is_valid, error_message)]; [None] is
    the empty message. *)
Definition validate_invoice_selection (selected_df : Frame.DataFrame)
  : result (bool * option selection_error) :=
  if Frame.empty selected_df then Ok (false, Some NoItemsSelected)
  else
    vendor_codes ← Frame.cell selected_df "vendor_code"
                     (map Frame.vendor_code (Frame.rows selected_df));
    let vendors := Frame.unique str_eqb vendor_codes in
    if (1 <? length vendors)%nat
    then Ok (false, Some (MultipleVendorsSelected vendors))
    else
      types ← Frame.cell selected_df "vendor_type"
                (map Frame.vendor_type (Frame.rows selected_df));
      let vendor_types := Frame.unique str_eqb types in
      if (1 <? length vendor_types)%nat
      then Ok (false, Some MixedVendorTypesSelected)
      else
        entity_codes ← Frame.cell selected_df "legal_entity_code"
                         (map Frame.legal_entity_code (Frame.rows selected_df));
        let entities := Frame.unique str_eqb entity_codes in
        if (1 <? length entities)%nat
        then Ok (false, Some (MultipleEntitiesSelected entities))
        else Ok (true, None).

End WithArith.

(** [generate_invoice_number].  [date_str] and [time_str] are the clock
    read as [%Y%m%d] and [%H%M%S]; [max_id] is the outcome of the query
    for [MAX(id)] of the invoices: an exception, [NULL], or the id. *)
Definition generate_invoice_number (date_str time_str : str)
  (max_id : result (option Z)) (vendor_id buyer_id : option Z)
  (is_advance_payment : bool) : str :=
  let vendor_id := default 0 vendor_id in
  let buyer_id := default 0 buyer_id in
  let suffix := if is_advance_payment then L "A" else L "P" in
  match max_id with
  | Ok result =>
      let last_id := default 0 result in
      let seq := last_id + 1 in
      L "V-INV" ++ date_str ++ L "-" ++ str_of_int vendor_id
        ++ str_of_int buyer_id ++ str_of_int seq ++ L "-" ++ suffix
  | Raise _ =>
      L "V-INV" ++ date_str ++ L "-" ++ str_of_int vendor_id
        ++ str_of_int buyer_id ++ time_str ++ L "-" ++ suffix
  end.

End InvoiceData.

(** ** [utils/invoice_attachments.py] *)

Module Attachments.
Import PyStr.

Abbreviation bytes := (list ascii) (only parsing).

Definition S3_FOLDER_PREFIX : str := L "purchase-invoice-file/".

(** A Streamlit [UploadedFile]. *)
Record UploadedFile : Type := {
  name : str;
  content : bytes;
  size : Z
}.

Definition ALLOWED_FILE_TYPES : list str := [L "pdf"; L "png"; L "jpg"; L "jpeg"].
Definition MAX_FILE_SIZE_MB : Z := 10.
Definition MAX_FILE_SIZE_BYTES : Z := MAX_FILE_SIZE_MB * 1024 * 1024.
Definition MAX_FILES_COUNT : nat := 10.

(** [is_valid_filename]: the whole name matches [[a-zA-Z0-9\s_\-\.]+]. *)
Definition is_name_char (c : ascii) : bool :=
  is_lower c || is_upper c || is_digit c || is_space c
  || eqc c "_" || eqc c "-" || eqc c ".".

Definition is_valid_filename (filename : str) : bool :=
  match filename with
  | [] => false
  | _ => forallb is_name_char filename
  end.

(** [filename.split('.')[-1].lower() if '.' in filename else ''] *)
Definition file_type_of (filename : str) : str :=
  match rsplit1 "." filename with
  | Some (_, ext) => lower ext
  | None => []
  end.

(** What is wrong with one file. *)
Inductive file_error : Type :=
| InvalidType (file_type : str)     (* Invalid type '.{file_type}' ... *)
| FileTooLarge                      (* File too large (... MB > 10 MB limit) *)
| DuplicateName                     (* Duplicate filename in upload *)
| InvalidName.                      (* Invalid filename (contains special ...) *)

(** The entries of the list of error messages. *)
Inductive upload_error : Type :=
| TooManyFiles (n : nat)            (* Too many files. Maximum 10 files ... *)
| FileErrors (idx : nat) (filename : str) (errors : list file_error)
                                    (* File #{idx} ({filename}): ... *)
| TotalTooLarge.                    (* Total size too large (... MB) *)

(** An entry of the validated metadata; the rounded size in MB, which
    only the display reads, is left out. *)
Record FileMetadata : Type := {
  meta_index : nat;
  meta_filename : str;
  meta_size : Z;
  meta_type : str;
  meta_file_object : UploadedFile
}.

(** The errors of one file, given the names seen before it. *)
Definition file_errors_of (seen_names : gset (list ascii)) (file : UploadedFile)
  : list file_error :=
  let filename := name file in
  let file_type := file_type_of filename in
  (if existsb (str_eqb file_type) ALLOWED_FILE_TYPES then []
   else [InvalidType file_type])
  ++ (if MAX_FILE_SIZE_BYTES <? size file then [FileTooLarge] else [])
  ++ (if bool_decide (filename ∈ seen_names) then [DuplicateName] else [])
  ++ (if is_valid_filename filename then [] else [InvalidName]).

(** The state of the loop of [validate_uploaded_files]. *)
Record ValidationState : Type := {
  vs_errors : list upload_error;
  vs_metadata : list FileMetadata;
  vs_total_size : Z;
  vs_seen_names : gset (list ascii)
}.

(** The body of the loop, for the file number [idx]. *)
Definition validate_file (st : ValidationState) (idx : nat) (file : UploadedFile)
  : ValidationState :=
  let file_errors := file_errors_of (vs_seen_names st) file in
  let seen := {[ name file ]} ∪ vs_seen_names st in
  match file_errors with
  | [] =>
      {| vs_errors := vs_errors st;
         vs_metadata :=
           vs_metadata st
           ++ [{| meta_index := idx;
                  meta_filename := name file;
                  meta_size := size file;
                  meta_type := upper (file_type_of (name file));
                  meta_file_object := file |}];
         vs_total_size := vs_total_size st + size file;
         vs_seen_names := seen |}
  | _ =>
      {| vs_errors := vs_errors st ++ [FileErrors idx (name file) file_errors];
         vs_metadata := vs_metadata st;
         vs_total_size := vs_total_size st;
         vs_seen_names := seen |}
  end.

(** [for idx, file in enumerate(files, idx)] *)
Fixpoint validate_files_from (st : ValidationState) (idx : nat)
  (files : list UploadedFile) : ValidationState :=
  match files with
  | [] => st
  | file :: rest => validate_files_from (validate_file st idx file) (S idx) rest
  end.

(** [validate_uploaded_files]: [(is_valid, error_messages,
    validated_metadata)].  The total size in MB is compared with 100 on
    the bytes, which is exact for the division by a power of two. *)
Definition validate_uploaded_files (files : list UploadedFile)
  : bool * list upload_error * list FileMetadata :=
  match files with
  | [] => (true, [], [])
  | _ =>
      if (MAX_FILES_COUNT <? length files)%nat
      then (false, [TooManyFiles (length files)], [])
      else
        let st := validate_files_from
                    {| vs_errors := []; vs_metadata := [];
                       vs_total_size := 0; vs_seen_names := ∅ |} 1 files in
        let errors :=
          if MAX_FILE_SIZE_MB * Z.of_nat MAX_FILES_COUNT * 1024 * 1024
             <? vs_total_size st
          then vs_errors st ++ [TotalTooLarge]
          else vs_errors st in
        (match errors with [] => true | _ => false end, errors, vs_metadata st)
  end.

(** The class [[a-zA-Z0-9._\-]]. *)
Definition is_safe_char (c : ascii) : bool :=
  is_lower c || is_upper c || is_digit c
  || eqc c "." || eqc c "_" || eqc c "-".

(** [re.sub(r'[^a-zA-Z0-9._\-]', '', s)] *)
Definition remove_unsafe (s : str) : str := List.filter is_safe_char s.

(** [sanitize_filename] *)
Definition sanitize_filename (filename : str) : str :=
  let sanitized := replace_char " " "_" filename in
  let sanitized := remove_unsafe sanitized in
  let sanitized := lower sanitized in
  match rsplit1 "." sanitized with
  | Some (name, ext) =>
      let name := if (100 <? length name)%nat then take_prefix 100 name
                  else name in
      name ++ L "." ++ ext
  | None => sanitized
  end.

(** [generate_s3_key]; [now_ms] is [int(time.time() * 1000)], read when
    no [timestamp] is given. *)
Definition generate_s3_key (now_ms : Z) (filename : str) (timestamp : option Z)
  : str :=
  let timestamp := default now_ms timestamp in
  S3_FOLDER_PREFIX ++ str_of_int timestamp ++ L "_" ++ filename.

(** [get_content_type] *)
Definition get_content_type (filename : str) : str :=
  let extension := match rsplit1 "." filename with
                   | Some (_, ext) => lower ext
                   | None => []
                   end in
  if bool_decide (extension = L "pdf") then L "application/pdf"
  else if bool_decide (extension = L "png") then L "image/png"
  else if bool_decide (extension = L "jpg") then L "image/jpeg"
  else if bool_decide (extension = L "jpeg") then L "image/jpeg"
  else L "application/octet-stream".

(** An entry of the list [prepare_files_for_upload] returns. *)
Record PreparedFile : Type := {
  original_name : str;
  sanitized_name : str;
  s3_key : str;
  prepared_content : bytes;
  prepared_size : Z;
  content_type : str
}.

Fixpoint prepare_from (timestamp_base : Z) (idx : Z) (files : list UploadedFile)
  : list PreparedFile :=
  match files with
  | [] => []
  | file :: rest =>
      let timestamp := timestamp_base + idx in
      let sanitized := sanitize_filename (name file) in
      {| original_name := name file;
         sanitized_name := sanitized;
         s3_key := generate_s3_key timestamp sanitized (Some timestamp);
         prepared_content := content file;
         prepared_size := size file;
         content_type := get_content_type (name file) |}
      :: prepare_from timestamp_base (idx + 1) rest
  end.

(** [prepare_files_for_upload] *)
Definition prepare_files_for_upload (now_ms : Z) (files : list UploadedFile)
  : list PreparedFile :=
  prepare_from now_ms 0 files.

End Attachments.

(** ** [utils/s3_utils.py]: the invoice uploads and the deletions of
    [S3Manager] *)

Module S3.
Import PyStr Attachments.

(** The object store as [S3Manager] meets it: the reading of the clock in
    milliseconds at the [n]-th request, and whether that request fails
    and how. *)
Record S3Env : Type := {
  clock_ms : nat -> Z;
  put_fault : nat -> option exn;
  delete_fault : nat -> bool
}.

(** The bucket and the number of requests made so far.  The bucket is
    kept as the list of the puts that no deletion has removed, oldest
    first: a put under a key that is already there comes after the
    older one and hides it, so that the object stored under a key is the
    last put under that key ([get_object]); a deletion removes every put
    under its key. *)
Record S3State : Type := {
  objects : list (str * bytes);
  requests : nat
}.

(** The object stored under a key, if there is one. *)
Definition get_object (st : S3State) (key : str) : option bytes :=
  snd <$> List.find (fun o => str_eqb (fst o) key) (rev (objects st)).

(** [str(e)] *)
Definition exn_text (e : exn) : str :=
  match e with
  | ClientError => L "ClientError"
  | _ => L "error"
  end.

(** [S3Manager.upload_invoice_file]: [(success, s3_key or error_message)]
    and the store after the request. *)
Definition upload_invoice_file (env : S3Env) (st : S3State)
  (file_content : bytes) (filename : str) : (bool * str) * S3State :=
  let timestamp := clock_ms env (requests st) in
  let safe_filename := replace_char " " "_" filename in
  let s3_key := L "purchase-invoice-file/" ++ str_of_int timestamp
                  ++ L "_" ++ safe_filename in
  match put_fault env (requests st) with
  | None =>
      ((true, s3_key),
       {| objects := objects st ++ [(s3_key, file_content)];
          requests := S (requests st) |})
  | Some ClientError =>
      ((false, L "Failed to upload invoice file " ++ filename ++ L ": "
                 ++ exn_text ClientError),
       {| objects := objects st; requests := S (requests st) |})
  | Some e =>
      ((false, L "Unexpected error uploading " ++ filename ++ L ": "
                 ++ exn_text e),
       {| objects := objects st; requests := S (requests st) |})
  end.

(** The dictionary [batch_upload_invoice_files] returns. *)
Record BatchResult : Type := {
  success : bool;
  uploaded : list str;
  failed : list (str * str);       (* filename and error *)
  total : nat;
  success_count : nat;
  error_count : nat
}.

(** The two lists of a result are as long as its counters say. *)
Definition counted (r : BatchResult) : Prop :=
  length (uploaded r) = success_count r /\ length (failed r) = error_count r.

(** The body of the loop over the files. *)
Definition batch_step (env : S3Env) (acc : BatchResult * S3State)
  (file : bytes * str) : BatchResult * S3State :=
  let '(results, st) := acc in
  let '(file_content, filename) := file in
  match upload_invoice_file env st file_content filename with
  | ((true, result), st') =>
      ({| success := success results;
          uploaded := uploaded results ++ [result];
          failed := failed results;
          total := total results;
          success_count := S (success_count results);
          error_count := error_count results |}, st')
  | ((false, result), st') =>
      ({| success := success results;
          uploaded := uploaded results;
          failed := failed results ++ [(filename, result)];
          total := total results;
          success_count := success_count results;
          error_count := S (error_count results) |}, st')
  end.

(** [S3Manager.batch_upload_invoice_files] *)
Definition batch_upload_invoice_files (env : S3Env) (st : S3State)
  (files : list (bytes * str)) : BatchResult * S3State :=
  let results := {| success := false; uploaded := []; failed := [];
                    total := length files;
                    success_count := 0; error_count := 0 |} in
  match files with
  | [] =>
      ({| success := true;
          uploaded := uploaded results;
          failed := failed results;
          total := total results;
          success_count := success_count results;
          error_count := error_count results |}, st)
  | _ =>
      let '(results, st') := fold_left (batch_step env) files (results, st) in
      ({| success := (error_count results =? 0)%nat;
          uploaded := uploaded results;
          failed := failed results;
          total := total results;
          success_count := success_count results;
          error_count := error_count results |}, st')
  end.

(** [S3Manager.delete_file]: the object is gone unless the request
    fails. *)
Definition delete_file (env : S3Env) (st : S3State) (key : str)
  : bool * S3State :=
  if delete_fault env (requests st)
  then (false, {| objects := objects st; requests := S (requests st) |})
  else (true,
        {| objects := List.filter (fun o => negb (str_eqb (fst o) key))
                                  (objects st);
           requests := S (requests st) |}).

(** [S3Manager.delete_invoice_file]: a key outside the invoice folder is
    refused without any request. *)
Definition delete_invoice_file (env : S3Env) (st : S3State) (s3_key : str)
  : bool * S3State :=
  match strip_prefix (L "purchase-invoice-file/") s3_key with
  | None => (false, st)
  | Some _ => delete_file env st s3_key
  end.

(** [cleanup_failed_uploads] of [utils/invoice_attachments.py] *)
Definition cleanup_failed_uploads (env : S3Env) (st : S3State)
  (s3_keys : list str) : S3State :=
  fold_left (fun st key => snd (delete_file env st key)) s3_keys st.

End S3.

(** ** The relational store

    The tables the creation of an invoice writes, and the two writers:
    [save_media_records] of [utils/invoice_attachments.py] and
    [create_purchase_invoice] of [utils/invoice_data.py]. *)

Module Store.
Import PyStr PyNum Frame.

Section WithNum.
Context `{Num}.

Record MediaRow : Type := {
  media_id : Z;
  media_created_by : str;
  media_name : str;
  media_path : str
}.

Record InvoiceHeader : Type := {
  invoice_id : Z;
  header_invoice_number : str;
  header_total_invoiced_amount : num;
  header_total_exclude_vat : num;
  header_created_by : str
}.

Record InvoiceLine : Type := {
  line_invoice_id : Z;
  line_arrival_detail_id : Z;
  line_product_purchase_order_id : Z;
  line_quantity : num;
  line_amount : num;
  line_amount_exclude_vat : num;
  line_vat_gst : num;
  line_exchange_rate : num
}.

Record MediaLink : Type := {
  link_invoice_id : Z;
  link_media_id : Z;
  link_created_by : str
}.

Record Db : Type := {
  medias : list MediaRow;
  purchase_invoices : list InvoiceHeader;
  purchase_invoice_details : list InvoiceLine;
  purchase_invoice_medias : list MediaLink
}.

(** The database as a writer meets it: whether [get_db_engine] raises,
    whether the [n]-th step of the transaction raises, and the [vat_gst]
    of a PO line ([None] without a live row or with a [NULL]). *)
Record DbEnv : Type := {
  engine_fault : bool;
  statement_fault : nat -> bool;
  vat_gst_of : Z -> option num
}.

(** [s3_key.split('/')[-1]] *)
Definition last_segment (s3_key : str) : str :=
  match rsplit1 "/" s3_key with
  | Some (_, file) => file
  | None => s3_key
  end.

(** The inserts of [save_media_records]; the row ids are given in
    sequence from [next_id]. *)
Fixpoint insert_medias (env : DbEnv) (n : nat) (next_id : Z)
  (keycloak_id : str) (s3_keys : list str) : result (list MediaRow) :=
  match s3_keys with
  | [] => Ok []
  | s3_key :: rest =>
      if statement_fault env n then Raise OtherError
      else
        rows ← insert_medias env (S n) (next_id + 1) keycloak_id rest;
        Ok ({| media_id := next_id;
               media_created_by := keycloak_id;
               media_name := last_segment s3_key;
               media_path := s3_key |} :: rows)
  end.

(** [save_media_records]: [(success, media_ids, error_message)] and the
    tables after the call.  The inserts are one transaction. *)
Definition save_media_records (env : DbEnv) (db : Db) (s3_keys : list str)
  (keycloak_id : str) : result (bool * list Z * str) * Db :=
  match s3_keys with
  | [] => (Ok (true, [], []), db)
  | _ =>
      if engine_fault env then (Raise OtherError, db)
      else
        match insert_medias env 0 (1 + Z.of_nat (length (medias db)))
                            keycloak_id s3_keys with
        | Ok rows =>
            (Ok (true, map media_id rows, []),
             {| medias := medias db ++ rows;
                purchase_invoices := purchase_invoices db;
                purchase_invoice_details := purchase_invoice_details db;
                purchase_invoice_medias := purchase_invoice_medias db |})
        | Raise e =>
            (Ok (false, [], L "Failed to save media records: "), db)
        end
  end.

(** The header data [create_purchase_invoice] reads.  The rate is
    [invoice_data.get('po_to_invoice_rate', 1.0)]: [None] is a missing
    key, [Some None] the value [None]. *)
Record InvoiceData : Type := {
  invoice_number : str;
  total_invoiced_amount : num;
  po_to_invoice_rate : option (option num)
}.

(** A row of [details_df]. *)
Record DetailsRow : Type := {
  d_buying_unit_cost : str;
  d_uninvoiced_quantity : num;
  d_product_purchase_order_id : Z;
  d_arrival_detail_id : Z
}.

(** [float(row['buying_unit_cost'].split()[0])] *)
Definition details_unit_cost (row : DetailsRow) : result num :=
  match split (d_buying_unit_cost row) with
  | first :: _ => float_of_str first
  | [] => Raise IndexError
  end.

(** [unit_cost * quantity * po_to_invoice_rate] *)
Definition base_amount (rate : option num) (row : DetailsRow) : result num :=
  unit_cost ← details_unit_cost row;
  match rate with
  | Some r => Ok (mul (mul unit_cost (d_uninvoiced_quantity row)) r)
  | None => Raise TypeError
  end.

(** The detail row of one line. *)
Definition detail_of (env : DbEnv) (rate : option num) (new_id : Z)
  (row : DetailsRow) : result InvoiceLine :=
  base ← base_amount rate row;
  let vat_percent :=
    if d_product_purchase_order_id row =? 0 then zero
    else default zero (vat_gst_of env (d_product_purchase_order_id row)) in
  let amount_exclude_vat := round2 base in
  let vat_multiplier := add one (div vat_percent hundred) in
  let amount_include_vat := round2 (mul amount_exclude_vat vat_multiplier) in
  Ok {| line_invoice_id := new_id;
        line_arrival_detail_id := d_arrival_detail_id row;
        line_product_purchase_order_id := d_product_purchase_order_id row;
        line_quantity := d_uninvoiced_quantity row;
        line_amount := amount_include_vat;
        line_amount_exclude_vat := amount_exclude_vat;
        line_vat_gst := vat_percent;
        line_exchange_rate := default zero rate |}.

(** The steps of a transaction, each failing when the database says so. *)
Fixpoint steps {A B} (env : DbEnv) (n : nat) (f : A -> result B)
  (xs : list A) : result (list B) :=
  match xs with
  | [] => Ok []
  | x :: rest =>
      if statement_fault env n then Raise OtherError
      else y ← f x; ys ← steps env (S n) f rest; Ok (y :: ys)
  end.

(** The body of the transaction of [create_purchase_invoice]. *)
Definition invoice_transaction (env : DbEnv) (db : Db)
  (invoice_data : InvoiceData) (details_df : list DetailsRow)
  (keycloak_id : str) (media_ids : list Z) : result (Z * Db) :=
  let rate := default (Some one) (po_to_invoice_rate invoice_data) in
  amounts ← mapM_result (base_amount rate) details_df;
  let total_amount_exclude_vat := sum amounts in
  let new_id := 1 + Z.of_nat (length (purchase_invoices db)) in
  header ← (if statement_fault env 0 then Raise OtherError
            else Ok {| invoice_id := new_id;
                       header_invoice_number := invoice_number invoice_data;
                       header_total_invoiced_amount :=
                         total_invoiced_amount invoice_data;
                       header_total_exclude_vat :=
                         round2 total_amount_exclude_vat;
                       header_created_by := keycloak_id |});
  lines ← steps env 1 (detail_of env rate new_id) details_df;
  links ← steps env (1 + length details_df)
            (fun m => Ok {| link_invoice_id := new_id;
                            link_media_id := m;
                            link_created_by := keycloak_id |})
            media_ids;
  Ok (new_id,
      {| medias := medias db;
         purchase_invoices := purchase_invoices db ++ [header];
         purchase_invoice_details := purchase_invoice_details db ++ lines;
         purchase_invoice_medias := purchase_invoice_medias db ++ links |}).

(** [create_purchase_invoice]: [(success, invoice_id)] and the tables
    after the call; a failing transaction is rolled back. *)
Definition create_purchase_invoice (env : DbEnv) (db : Db)
  (invoice_data : InvoiceData) (details_df : list DetailsRow)
  (keycloak_id : str) (media_ids : list Z)
  : result (bool * option Z) * Db :=
  if engine_fault env then (Raise OtherError, db)
  else
    match invoice_transaction env db invoice_data details_df
                              keycloak_id media_ids with
    | Ok (new_id, db') => (Ok (true, Some new_id), db')
    | Raise _ => (Ok (false, None), db)
    end.

End WithNum.
End Store.

(** ** [create_invoice_final] of the invoice creation page *)

Module CreatePage.
Import PyStr PyNum Attachments S3 Store.

Section WithNum.
Context `{Num}.

(** What the page shows; each constructor stands for one message. *)
Inductive notice : Type :=
| WarnBeingCreated                         (* Invoice is being created ... *)
| ErrNoUser                                (* Could not retrieve user ... *)
| ErrSomeUploadsFailed (failed : list (str * str))
                                           (* Failed to upload some files *)
| OkUploaded (n : nat)                     (* Uploaded n file(s) *)
| ErrUpload                                (* Failed to upload files *)
| ErrMediaRecords                          (* Failed to create media records *)
| OkMediaRecords (n : nat)                 (* Created n media record(s) *)
| OkInvoice (invoice_id : option Z)        (* Invoice ... created *)
| OkLinked (n : nat)                       (* Linked n attachment(s) *)
| ErrInvoice                               (* the failure message *)
| WarnCleaningUp.                          (* Cleaning up uploaded files *)

(** The session state the function touches, the two stores, and what
    was shown. *)
Record World : Type := {
  invoice_creating : bool;
  uploaded_files : list UploadedFile;
  last_created_invoice : option (option Z * str);
  s3 : S3State;
  db : Db;
  shown : list notice
}.

(** The collaborators: the identity of the user, whether [S3Manager()]
    can be built, the clock, and the object store and the database as
    the writers meet them. *)
Record PageEnv : Type := {
  keycloak_id : option str;
  s3_manager_fault : bool;
  now_ms : Z;
  s3_env : S3Env;
  media_env : DbEnv;
  invoice_env : DbEnv
}.

Definition show (w : World) (n : notice) : World :=
  {| invoice_creating := invoice_creating w;
     uploaded_files := uploaded_files w;
     last_created_invoice := last_created_invoice w;
     s3 := s3 w;
     db := db w;
     shown := shown w ++ [n] |}.

Definition with_s3 (w : World) (st : S3State) : World :=
  {| invoice_creating := invoice_creating w;
     uploaded_files := uploaded_files w;
     last_created_invoice := last_created_invoice w;
     s3 := st;
     db := db w;
     shown := shown w |}.

Definition with_db (w : World) (d : Db) : World :=
  {| invoice_creating := invoice_creating w;
     uploaded_files := uploaded_files w;
     last_created_invoice := last_created_invoice w;
     s3 := s3 w;
     db := d;
     shown := shown w |}.

Definition with_creating (w : World) (b : bool) : World :=
  {| invoice_creating := b;
     uploaded_files := uploaded_files w;
     last_created_invoice := last_created_invoice w;
     s3 := s3 w;
     db := db w;
     shown := shown w |}.

(** [state.last_created_invoice = ...; StateManager.reset_wizard()] *)
Definition succeed (w : World) (id : option Z) (number : str) : World :=
  {| invoice_creating := false;
     uploaded_files := [];
     last_created_invoice := Some (id, number);
     s3 := s3 w;
     db := db w;
     shown := shown w |}.

(** [cleanup_failed_uploads(s3_keys_uploaded, ...)] after its warning. *)
Definition clean_up (env : PageEnv) (w : World) (keys : list str) : World :=
  match keys with
  | [] => w
  | _ => with_s3 w (cleanup_failed_uploads (s3_env env) (s3 w) keys)
  end.

(** [files_for_s3], the contents and sanitized names of the prepared
    files. *)
Definition files_for_s3 (env : PageEnv) (w : World) : list (bytes * str) :=
  map (fun f => (prepared_content f, sanitized_name f))
      (prepare_files_for_upload (now_ms env) (uploaded_files w)).

(** Step 1, the uploads: [inl] is a [return], [inr] carries
    [s3_keys_uploaded]. *)
Definition upload_step (env : PageEnv) (w : World) : World + World * list str :=
  match uploaded_files w with
  | [] => inr (w, [])
  | _ =>
      if s3_manager_fault env then inl (show w ErrUpload)
      else
        let '(upload_results, st) :=
          batch_upload_invoice_files (s3_env env) (s3 w) (files_for_s3 env w) in
        let w1 := with_s3 w st in
        if negb (success upload_results)
        then inl (show w1 (ErrSomeUploadsFailed (failed upload_results)))
        else inr (show w1 (OkUploaded (length (uploaded upload_results))),
                  uploaded upload_results)
  end.

(** Step 2, the media records: [inr] carries [media_ids_created]. *)
Definition media_step (env : PageEnv) (w : World) (user : str)
  (s3_keys_uploaded : list str) : World + World * list Z :=
  match s3_keys_uploaded with
  | [] => inr (w, [])
  | _ =>
      match save_media_records (media_env env) (db w) s3_keys_uploaded user with
      | (Ok (true, media_ids, _), db') =>
          inr (show (with_db w db') (OkMediaRecords (length media_ids)),
               media_ids)
      | (_, db') =>
          inl (clean_up env (show (with_db w db') ErrMediaRecords)
                        s3_keys_uploaded)
      end
  end.

(** Step 3, the invoice. *)
Definition invoice_step (env : PageEnv) (w : World) (user : str)
  (invoice_data : InvoiceData) (details_df : list DetailsRow)
  (s3_keys_uploaded : list str) (media_ids_created : list Z) : World :=
  match create_purchase_invoice (invoice_env env) (db w) invoice_data
                                details_df user media_ids_created with
  | (Ok (true, invoice_id), db') =>
      let w1 := show (with_db w db') (OkInvoice invoice_id) in
      let w2 := match media_ids_created with
                | [] => w1
                | _ => show w1 (OkLinked (length media_ids_created))
                end in
      succeed w2 invoice_id (invoice_number invoice_data)
  | (_, db') =>
      let w1 := show (with_db w db') ErrInvoice in
      match s3_keys_uploaded with
      | [] => w1
      | _ => clean_up env (show w1 WarnCleaningUp) s3_keys_uploaded
      end
  end.

(** [create_invoice_final] *)
Definition create_invoice_final (env : PageEnv) (invoice_data : InvoiceData)
  (details_df : list DetailsRow) (w : World) : World :=
  if invoice_creating w then show w WarnBeingCreated
  else
    let w0 := with_creating w true in
    let after :=
      match keycloak_id env with
      | None | Some [] => show w0 ErrNoUser
      | Some user =>
          match upload_step env w0 with
          | inl stop => stop
          | inr (w1, s3_keys_uploaded) =>
              match media_step env w1 user s3_keys_uploaded with
              | inl stop => stop
              | inr (w2, media_ids_created) =>
                  invoice_step env w2 user invoice_data details_df
                               s3_keys_uploaded media_ids_created
              end
          end
      end in
    with_creating after false.

End WithNum.
End CreatePage.

(** ** The wording of the specification

    The notions the specification uses to describe the engine, written
    from its words; the theorems compare the code with them.  The
    orderings and predicates the further properties are stated with are
    here as well. *)

Module Spec.
Import PyStr PyDate PyNum PaymentTerms Frame.

(** The classifier as an ordered list of (predicate, category) pairs,
    read top to bottom: markers of a split first, then NET with DAYS,
    AMS, the advance keywords, the special dates, the events. *)
Definition category_rules : list ((str -> bool) * PaymentTermCategory) :=
  [ (fun t => existsb (fun c => eqc c "%" || eqc c ":") t, SPLIT_PAYMENT);
    (fun t => contains (L "NET") (upper t) && contains (L "DAYS") (upper t),
     NET_DAYS);
    (fun t => contains (L "AMS") (upper t), AMS_DAYS);
    (fun t => any_kw [L "ADVANCE"; L "COD"; L "CIA"; L "PREPAID"] (upper t),
     ADVANCE);
    (fun t => any_kw [L "25TH"; L "EOM"; L "MOA"; L "END OF MONTH"] (upper t),
     SPECIAL_DATE);
    (fun t => any_kw [L "AFTER"; L "BEFORE"; L "UPON"] (upper t),
     AFTER_EVENT) ].

Fixpoint first_match (rules : list ((str -> bool) * PaymentTermCategory))
  (t : str) : PaymentTermCategory :=
  match rules with
  | [] => OTHER
  | (applies, category) :: rest =>
      if applies t then category else first_match rest t
  end.

Definition categorize_by_priority (t : str) : PaymentTermCategory :=
  first_match category_rules t.

(** The last day of the month of a date. *)
Definition last_day_of_month (d : date) : date :=
  mkdate (year d) (month d) (days_in_month (year d) (month d)).

(** The due date of an AMS term: [n] days after the first calendar day
    of the month that follows the month of the invoice, that is, after
    the day that follows the last day of the invoice's month. *)
Definition ams_due_date (invoice_date : date) (n : Z) : result date :=
  first ← tomorrow (last_day_of_month invoice_date);
  add_days first n.

(** A date is on or before another one. *)
Definition on_or_before (a b : date) : Prop :=
  year a < year b
  \/ (year a = year b
      /\ (month a < month b \/ (month a = month b /\ day a <= day b))).


(** The alphabet of a sanitized name, [[a-z0-9._-]]. *)
Definition is_clean_char (c : ascii) : bool :=
  is_lower c || is_digit c || eqc c "." || eqc c "_" || eqc c "-".

(** A file name before the cut of its base: the spaces replaced, the
    characters outside the safe class dropped, in lower case. *)
Definition cleaned (filename : str) : str :=
  lower (Attachments.remove_unsafe (replace_char " " "_" filename)).

(** What sanitization does to one character: a space becomes an
    underscore, a capital letter its small letter; a small letter, a
    digit, a dot, an underscore and a hyphen stay; every other character
    is dropped. *)
Definition sanitized_char (c : ascii) : option ascii :=
  if eqc c " " then Some "_"%char
  else if is_upper c then Some (lower_char c)
  else if is_lower c || is_digit c || eqc c "." || eqc c "_" || eqc c "-"
       then Some c
  else None.

(** A name at its last dot: what is before the dot and what is after
    it, read from the end of the name; [None] for a name without a
    dot. *)
Definition at_last_dot (s : str) : option (str * str) :=
  let '(after, rest) := span (fun c => negb (eqc c ".")) (rev s) in
  match rest with
  | [] => None
  | _ :: before => Some (rev before, rev after)
  end.

(** The sanitized form of a file name: its characters sanitized one by
    one; then, when the name has a dot, what is before the last dot cut
    to its first 100 characters; a name without a dot as it is. *)
Definition sanitized (filename : str) : str :=
  let kept := omap sanitized_char filename in
  match at_last_dot kept with
  | Some (base, extension) => firstn 100 base ++ "."%char :: extension
  | None => kept
  end.

(** A file the upload form accepts on its own: an allowed type, at most
    the size limit, a name in the permitted alphabet. *)
Definition acceptable_file (file : Attachments.UploadedFile) : bool :=
  existsb (str_eqb (Attachments.file_type_of (Attachments.name file)))
          Attachments.ALLOWED_FILE_TYPES
  && (Attachments.size file <=? Attachments.MAX_FILE_SIZE_BYTES)
  && Attachments.is_valid_filename (Attachments.name file).

(** A key of the invoice folder. *)
Definition in_invoice_folder (key : str) : bool :=
  match strip_prefix Attachments.S3_FOLDER_PREFIX key with
  | Some _ => true
  | None => false
  end.

Section WithNum.
Context `{Num}.

(** A selection the validator of the basic rules lets through: not
    empty, one vendor code, one legal entity, one vendor type. *)
Definition consistent_selection (df : DataFrame) : bool :=
  negb (empty df)
  && has_col df "vendor_code"
  && (length (unique str_eqb (map vendor_code (rows df))) <=? 1)%nat
  && has_col df "legal_entity_code"
  && (length (unique str_eqb (map legal_entity_code (rows df))) <=? 1)%nat
  && has_col df "vendor_type"
  && (length (unique str_eqb (map vendor_type (rows df))) <=? 1)%nat.

(** The selected quantity of the PO line [po]: the uninvoiced
    quantities of the lines of the selection that belong to this PO
    line, added one after the other in the order of the selection; the
    lines of the other PO lines count for nothing. *)
Definition selected_quantity (df : DataFrame) (po : Z) : num :=
  fold_left (fun acc row =>
               if product_purchase_order_id row =? po
               then add acc (uninvoiced_quantity row)
               else acc)
            (rows df) zero.

(** The selection goes over the ceiling of the PO line [po]: the line
    has a row in the summary and the summed selected quantity is
    strictly more than 1.1 times its remaining quantity. *)
Definition exceeds_ceiling (df : DataFrame) (po_summary : list Service.PoRow)
  (po : Z) : bool :=
  match List.find (fun p => Service.po_id p =? po) po_summary with
  | Some po_row =>
      gtb (selected_quantity df po)
          (mul (Service.po_remaining_qty po_row) c1_1)
  | None => false
  end.

(** The cost string of a line reads as the unit cost [unit_cost]
    followed by a currency tag. *)
Definition priced (row : Row) (unit_cost : num) : Prop :=
  exists first second rest,
    split (buying_unit_cost row) = first :: second :: rest
    /\ parse_float first = Some unit_cost.

(** The quantity of a line: its true remaining quantity when the frame
    has one, else its raw uninvoiced quantity. *)
Definition preferred_quantity (df : DataFrame) (row : Row) : num :=
  if has_col df "true_remaining_qty" then true_remaining_qty row
  else uninvoiced_quantity row.

(** The VAT percent of a line, 0 without the column. *)
Definition vat_percent_of (df : DataFrame) (row : Row) : num :=
  if has_col df "vat_percent" then vat_percent row else zero.

(** The sum over the lines, from the left. *)
Definition sigma {A} (f : A -> num) (xs : list A) : num := sum (map f xs).

(** The look-up of the pair asks the API and the API answers [rate]:
    the currencies differ, the cache has no fresh entry for the pair,
    there is an API key, and the answer is a success with a rate. *)
Definition api_answers (src : Currency.RateSources) (now : Z)
  (cache : Currency.RateCache) (from_currency to_currency : str) (rate : num)
  : Prop :=
  from_currency <> to_currency
  /\ Currency.cached cache (Currency.cache_key from_currency to_currency) now
     = None
  /\ (exists c k, Currency.api_key src = Some (c :: k))
  /\ Currency.api_convert src from_currency to_currency
     = Currency.ApiAnswer true (Some rate).

(** A verdict whose flags and messages tell the same story: blocked
    exactly with an error message, warned exactly with a warning, and
    no risk. *)
Definition coherent_verdict (v : Service.verdict) : Prop :=
  (Service.can_invoice (fst v) = true <-> Service.error (snd v) = None)
  /\ (Service.has_warnings (fst v) = true <-> Service.warnings (snd v) <> [])
  /\ Service.has_risks (fst v) = false
  /\ Service.risks (snd v) = [].

(** From [w] to [w'] no invoice was written: the invoice tables, the
    record of the last created invoice and the list of the files to
    upload are the same. *)
Definition no_invoice_written (w w' : CreatePage.World) : Prop :=
  CreatePage.last_created_invoice w' = CreatePage.last_created_invoice w
  /\ Store.purchase_invoices (CreatePage.db w')
     = Store.purchase_invoices (CreatePage.db w)
  /\ Store.purchase_invoice_details (CreatePage.db w')
     = Store.purchase_invoice_details (CreatePage.db w)
  /\ Store.purchase_invoice_medias (CreatePage.db w')
     = Store.purchase_invoice_medias (CreatePage.db w)
  /\ CreatePage.uploaded_files w' = CreatePage.uploaded_files w.

(** From [w] to [w'] the invoice was written in full: one header, one
    detail row per line, and one media record and one link per file;
    the invoice is recorded as the last one created and the wizard is
    reset. *)
Definition invoice_written (invoice_data : Store.InvoiceData)
  (details_df : list Store.DetailsRow) (w w' : CreatePage.World) : Prop :=
  exists new_id header,
    CreatePage.last_created_invoice w'
    = Some (Some new_id, Store.invoice_number invoice_data)
    /\ Store.purchase_invoices (CreatePage.db w')
       = Store.purchase_invoices (CreatePage.db w) ++ [header]
    /\ Store.invoice_id header = new_id
    /\ length (Store.purchase_invoice_details (CreatePage.db w'))
       = (length (Store.purchase_invoice_details (CreatePage.db w))
          + length details_df)%nat
    /\ length (Store.medias (CreatePage.db w'))
       = (length (Store.medias (CreatePage.db w))
          + length (CreatePage.uploaded_files w))%nat
    /\ length (Store.purchase_invoice_medias (CreatePage.db w'))
       = (length (Store.purchase_invoice_medias (CreatePage.db w))
          + length (CreatePage.uploaded_files w))%nat
    /\ CreatePage.uploaded_files w' = []
    /\ CreatePage.invoice_creating w' = false.

End WithNum.
End Spec.

(** ** Concrete inputs for the examples *)

Module Examples.
Import PyStr PyDate PyNum Frame Currency Service InvoiceData Attachments S3
  Store CreatePage.

(** Three attachments; the upload of the second one fails. *)
Definition three_files : list UploadedFile :=
  [ {| name := L "Invoice 1.pdf"; content := L "a"; size := 1 |};
    {| name := L "Invoice 2.pdf"; content := L "b"; size := 1 |};
    {| name := L "Packing List.PNG"; content := L "c"; size := 1 |} ].

Definition second_put_fails : S3Env :=
  {| clock_ms := fun n => 1736035200000 + Z.of_nat n;
     put_fault := fun n => if (n =? 1)%nat then Some ClientError else None;
     delete_fault := fun _ => false |}.

Definition healthy_db : DbEnv :=
  {| engine_fault := false;
     statement_fault := fun _ => false;
     vat_gst_of := fun _ => Some (10 # 1)%Q |}.

Definition page_env : PageEnv :=
  {| keycloak_id := Some (L "user-1");
     s3_manager_fault := false;
     now_ms := 1736035200000;
     s3_env := second_put_fails;
     media_env := healthy_db;
     invoice_env := healthy_db |}.

(** A database in which the first statement of a transaction fails. *)
Definition first_statement_fails : DbEnv :=
  {| engine_fault := false;
     statement_fault := fun n => (n =? 0)%nat;
     vat_gst_of := fun _ => Some (10 # 1)%Q |}.

(** A healthy object store and a healthy database for the media
    records; the header of the invoice cannot be inserted. *)
Definition header_insert_fails : PageEnv :=
  {| keycloak_id := Some (L "user-1");
     s3_manager_fault := false;
     now_ms := 1736035200000;
     s3_env := {| clock_ms := fun n => 1736035200000 + Z.of_nat n;
                  put_fault := fun _ => None;
                  delete_fault := fun _ => false |};
     media_env := healthy_db;
     invoice_env := first_statement_fails |}.

Definition empty_db : Db :=
  {| medias := []; purchase_invoices := [];
     purchase_invoice_details := []; purchase_invoice_medias := [] |}.

Definition fresh_world : World :=
  {| invoice_creating := false;
     uploaded_files := three_files;
     last_created_invoice := None;
     s3 := {| objects := []; requests := 0 |};
     db := empty_db;
     shown := [] |}.

Definition one_line_invoice : InvoiceData :=
  {| invoice_number := L "V-INV20250105-121-P";
     total_invoiced_amount := (110 # 1)%Q;
     po_to_invoice_rate := Some (Some 1%Q) |}.

Definition one_line : list DetailsRow :=
  [ {| d_buying_unit_cost := L "10 USD";
       d_uninvoiced_quantity := (10 # 1)%Q;
       d_product_purchase_order_id := 7;
       d_arrival_detail_id := 1 |} ].

(** The same invoice when the rate of the pair was looked up and not
    found. *)
Definition unresolved_invoice : InvoiceData :=
  {| invoice_number := L "V-INV20250105-121-P";
     total_invoiced_amount := (110 # 1)%Q;
     po_to_invoice_rate := Some None |}.

Definition ten_units : DetailsRow :=
  {| d_buying_unit_cost := L "10 USD";
     d_uninvoiced_quantity := (10 # 1)%Q;
     d_product_purchase_order_id := 7;
     d_arrival_detail_id := 1 |}.



(** No API key and no stored rate: nothing resolves a pair. *)
Definition no_rates : RateSources :=
  {| api_key := None;
     api_convert := fun _ _ => ApiRaises;
     db_latest_rate := fun _ _ => Ok None |}.

(** No API key, and the database holds 2 as the rate from USD. *)
Definition usd_rate_is_two : RateSources :=
  {| api_key := None;
     api_convert := fun _ _ => ApiRaises;
     db_latest_rate := fun f _ =>
       Ok (if bool_decide (f = L "USD") then Some (2 # 1)%Q else None) |}.

(** A key for the API, which answers 3 for every pair; the database
    knows nothing. *)
Definition api_rate_is_three : RateSources :=
  {| api_key := Some (L "key");
     api_convert := fun _ _ => ApiAnswer true (Some (3 # 1)%Q);
     db_latest_rate := fun _ _ => Ok None |}.

Definition empty_cache : RateCache :=
  {| rate_cache := ∅; cache_expiry := ∅ |}.

(** A selected line of a vendor for the PO line [po]. *)
Definition vendor_line (vendor : string) (po : Z) (cost : string)
  (uninvoiced remaining vat : Q) : Row :=
  {| vendor_code := L vendor;
     legal_entity_code := L "E1";
     vendor_type := L "External";
     po_number := L "PO-1";
     arrival_note_number := L "AN-1";
     payment_term := Some (L "NET 30 DAYS");
     product_purchase_order_id := po;
     buying_unit_cost := L cost;
     uninvoiced_quantity := uninvoiced;
     true_remaining_qty := remaining;
     vat_percent := vat;
     po_line_is_over_delivered := L "N";
     po_line_is_over_invoiced := L "N";
     has_legacy_invoices := L "N" |}.

Definition line : Z -> string -> Q -> Q -> Q -> Row := vendor_line "V1".

(** The columns of the frame of [get_uninvoiced_ans] that the engine
    reads. *)
Definition selection_columns : gset (list ascii) :=
  list_to_set
    (map L ["vendor_code"; "legal_entity_code"; "vendor_type"; "po_number";
            "arrival_note_number"; "payment_term";
            "product_purchase_order_id"; "buying_unit_cost";
            "uninvoiced_quantity"; "true_remaining_qty"; "vat_percent";
            "po_line_is_over_delivered"; "po_line_is_over_invoiced";
            "has_legacy_invoices"]%string).

Definition selection (lines : list Row) : DataFrame :=
  {| columns := selection_columns; rows := lines |}.

(** One line at 10 USD a unit with 10 percent VAT: 5 units not yet
    invoiced, of which 3 remain on the PO line. *)
Definition capped_selection : DataFrame :=
  selection [line 7 "10 USD" (5 # 1) (3 # 1) (10 # 1)].

(** Two lines of one vendor and one entity. *)
Definition two_lines : DataFrame :=
  selection [line 7 "10 USD" (5 # 1) (3 # 1) (10 # 1);
             line 8 "2.5 USD" (4 # 1) (4 # 1) (8 # 1)].

(** The summary of PO line 7 with 100 units remaining. *)
Definition po_line_7 : PoRow :=
  {| po_id := 7; po_po_number := L "PO-1"; po_pt_code := L "PT-1";
     legacy_invoice_qty := 0%Q; po_remaining_qty := (100 # 1)%Q |}.

Definition hundred_remaining (ids : list Z) : list PoRow := [po_line_7].

(** Two PO lines with 10 units remaining each, and a selection of 8
    units on each of them: 16 units in all. *)
Definition ten_on_line_7 : PoRow :=
  {| po_id := 7; po_po_number := L "PO-1"; po_pt_code := L "PT-1";
     legacy_invoice_qty := 0%Q; po_remaining_qty := (10 # 1)%Q |}.

Definition ten_on_line_8 : PoRow :=
  {| po_id := 8; po_po_number := L "PO-1"; po_pt_code := L "PT-2";
     legacy_invoice_qty := 0%Q; po_remaining_qty := (10 # 1)%Q |}.

Definition ten_remaining (ids : list Z) : list PoRow :=
  [ten_on_line_7; ten_on_line_8].


(** The same with 12 units on the second PO line. *)
Definition twelve_on_the_second : DataFrame :=
  selection [line 7 "10 USD" (8 # 1) (8 # 1) (10 # 1);
             line 8 "10 USD" (12 # 1) (12 # 1) (10 # 1)].

End Examples.

(** ** Concrete inputs in binary64 *)

Module FloatExamples.
Import PrimFloat.
Import PyStr Frame Service PyFloat.

#[local] Set Warnings "-inexact-float".
#[local] Existing Instance Binary64.

(** A selected line of [quantity] units on the PO line 7. *)
Definition float_line (quantity : PrimFloat.float) : @Row Binary64 :=
  {| vendor_code := L "V1";
     legal_entity_code := L "E1";
     vendor_type := L "External";
     po_number := L "PO-1";
     arrival_note_number := L "AN-1";
     payment_term := Some (L "NET 30 DAYS");
     product_purchase_order_id := 7;
     buying_unit_cost := L "10 USD";
     uninvoiced_quantity := quantity;
     true_remaining_qty := quantity;
     vat_percent := 10%float;
     po_line_is_over_delivered := L "N";
     po_line_is_over_invoiced := L "N";
     has_legacy_invoices := L "N" |}.

Definition float_selection (lines : list (@Row Binary64)) : @DataFrame Binary64 :=
  {| columns := Examples.selection_columns; rows := lines |}.

(** The summary of the PO line 7 with [remaining] units remaining. *)
Definition float_summary (remaining : PrimFloat.float) (ids : list Z)
  : list (@PoRow Binary64) :=
  [ {| po_id := 7; po_po_number := L "PO-1"; po_pt_code := L "PT-1";
       legacy_invoice_qty := 0%float; po_remaining_qty := remaining |} ].



(** 110 units selected with 100 units remaining. *)
Definition selected_110 : @DataFrame Binary64 :=
  float_selection [float_line 110%float].

Definition remaining_100 : list Z -> list (@PoRow Binary64) :=
  float_summary 100%float.

End FloatExamples.

(** * Theorems *)

(** ** Strings and patterns *)

Section StringFacts.
Import PyStr.

Lemma contains_char_existsb (c : ascii) (s : str) :
  contains [c] s = existsb (eqc c) s.
Proof.
  induction s as [|x s IH]; [reflexivity|].
  simpl. destruct (eqc c x); [reflexivity | exact IH].
Qed.

Lemma count_char_existsb (c : ascii) (s : str) :
  (1 <=? count_char c s)%nat = existsb (eqc c) s.
Proof.
  unfold count_char.
  induction s as [|x s IH]; [reflexivity|].
  simpl. destruct (eqc c x); [reflexivity | exact IH].
Qed.

Lemma span_fst_all (P : ascii -> bool) (s : str) :
  Forall (fun c => P c = true) (fst (span P s)).
Proof.
  induction s as [|x s IH]; simpl; [constructor|].
  destruct (P x) eqn:HP; [|constructor].
  destruct (span P s) as [a b]. simpl in *. constructor; assumption.
Qed.

Lemma span_app (P : ascii -> bool) (s : str) :
  fst (span P s) ++ snd (span P s) = s.
Proof.
  induction s as [|x s IH]; simpl; [reflexivity|].
  destruct (P x); [|reflexivity].
  destruct (span P s) as [a b]. simpl in *. now rewrite IH.
Qed.

Lemma digit_val_nonneg (c : ascii) : is_digit c = true -> 0 <= digit_val c.
Proof.
  unfold is_digit, digit_val. intros Hc.
  apply andb_true_iff in Hc as [Hlo _].
  apply N.leb_le in Hlo. lia.
Qed.

Lemma int_of_digits_nonneg (ds : str) :
  Forall (fun c => is_digit c = true) ds -> 0 <= int_of_digits ds.
Proof.
  unfold int_of_digits.
  assert (Hgen : forall acc, 0 <= acc ->
            Forall (fun c => is_digit c = true) ds ->
            0 <= fold_left (fun a c => 10 * a + digit_val c) ds acc).
  { induction ds as [|c ds IH]; intros acc Hacc Hall; simpl; [assumption|].
    inversion Hall as [|? ? Hc Hrest]; subst.
    apply IH; [|assumption].
    pose proof (digit_val_nonneg c Hc). lia. }
  intros Hall. apply Hgen; [lia | assumption].
Qed.

Lemma digits1_all (s ds r : str) :
  digits1 s = Some (ds, r) -> Forall (fun c => is_digit c = true) ds.
Proof.
  unfold digits1. intros Hd.
  pose proof (span_fst_all is_digit s) as Hall.
  destruct (span is_digit s) as [a b]. simpl in Hall.
  destruct a; [discriminate|]. now inversion Hd; subst.
Qed.

Lemma re_kw_num_days_all (kw s ds r : str) :
  re_kw_num_days kw s = Some (ds, r) -> Forall (fun c => is_digit c = true) ds.
Proof.
  unfold re_kw_num_days. intros Hm.
  destruct (strip_prefix kw s) as [r1|]; simpl in Hm; [|discriminate].
  destruct (spaces1 r1) as [r2|]; simpl in Hm; [|discriminate].
  destruct (digits1 r2) as [[ds' r3]|] eqn:Hd; simpl in Hm; [|discriminate].
  destruct (days_opt_s (spaces0 r3)); simpl in Hm; [|discriminate].
  inversion Hm; subst. eapply digits1_all; eassumption.
Qed.

Lemma re_search_found (m : matcher) (s : str) (g r : str) :
  re_search m s = Some (g, r) -> exists s', m s' = Some (g, r).
Proof.
  induction s as [|x s IH]; simpl.
  - destruct (m []) eqn:Hm; [|discriminate].
    intros [= ->]. eauto.
  - destruct (m (x :: s)) eqn:Hm.
    + intros [= ->]. eauto.
    + exact IH.
Qed.

Lemma search_int_kw_num_days_nonneg (kw s : str) (n : Z) :
  search_int (re_kw_num_days kw) s = Some n -> 0 <= n.
Proof.
  unfold search_int. intros Hs.
  destruct (re_search (re_kw_num_days kw) s) as [[ds r]|] eqn:Hre;
    simpl in Hs; [|discriminate].
  inversion Hs; subst.
  apply re_search_found in Hre as [s' Hm].
  apply int_of_digits_nonneg. eapply re_kw_num_days_all; eassumption.
Qed.

End StringFacts.

(** ** Payment terms *)

Section PaymentTermFacts.
Import PyStr PyDate PaymentTerms Spec.

Lemma split_marker_existsb (t : str) :
  contains (L "%") t || (contains (L ":") t && (1 <=? count_char ":" t)%nat)
  = existsb (fun c => eqc c "%" || eqc c ":") t.
Proof.
  change (L "%") with ["%"%char]. change (L ":") with [":"%char].
  rewrite !contains_char_existsb, count_char_existsb, andb_diag.
  induction t as [|x t IH]; [reflexivity|].
  cbn [existsb]. rewrite <- IH. unfold eqc.
  rewrite (Ascii.eqb_sym x "%"), (Ascii.eqb_sym x ":").
  destruct (Ascii.eqb "%" x), (Ascii.eqb ":" x); cbn [orb];
    rewrite ?orb_true_r; reflexivity.
Qed.

(** C7. For every term label the categorization of the code is the
    first-match reading of the priority list: a percentage sign or a
    colon gives [SPLIT_PAYMENT] whatever keywords the label holds, then
    NET with DAYS gives [NET_DAYS], then AMS gives [AMS_DAYS], then the
    advance keywords [ADVANCE], the special-date keywords [SPECIAL_DATE],
    the event keywords [AFTER_EVENT], and [OTHER] is left. *)
Theorem categorize_follows_priority (term_name description : str) :
  categorize_payment_term (Some term_name) description
  = categorize_by_priority term_name.
Proof.
  unfold categorize_payment_term, categorize_by_priority, category_rules,
    first_match.
  rewrite split_marker_existsb.
  destruct (existsb _ term_name); [reflexivity|].
  destruct (contains (L "NET") (upper term_name)
            && contains (L "DAYS") (upper term_name)); [reflexivity|].
  destruct (contains (L "AMS") (upper term_name)); [reflexivity|].
  destruct (any_kw [L "ADVANCE"; L "COD"; L "CIA"; L "PREPAID"]
                   (upper term_name)); [reflexivity|].
  destruct (any_kw [L "25TH"; L "EOM"; L "MOA"; L "END OF MONTH"]
                   (upper term_name)); [reflexivity|].
  destruct (any_kw [L "AFTER"; L "BEFORE"; L "UPON"] (upper term_name));
    reflexivity.
Qed.

(** A split marker wins over every keyword. *)
Lemma split_marker_overrides (term_name description : str) :
  existsb (fun c => eqc c "%" || eqc c ":") term_name = true ->
  categorize_payment_term (Some term_name) description = SPLIT_PAYMENT.
Proof.
  intros Hm. unfold categorize_payment_term.
  now rewrite split_marker_existsb, Hm.
Qed.

Example split_overrides_net :
  categorize_payment_term (Some (L "50% IN ADVANCE, 50% NET 30 DAYS")) []
  = SPLIT_PAYMENT.
Proof. reflexivity. Qed.

Example net_before_ams :
  categorize_payment_term (Some (L "NET 30 DAYS AMS")) [] = NET_DAYS.
Proof. reflexivity. Qed.

End PaymentTermFacts.

(** ** Due dates *)

Section DueDateFacts.
Import PyStr PyDate PaymentTerms Spec.

Lemma days_in_month_bounds (y m : Z) : 28 <= days_in_month y m <= 31.
Proof.
  unfold days_in_month.
  destruct (m =? 2); [destruct (is_leap y); lia|].
  destruct ((m =? 4) || (m =? 6) || (m =? 9) || (m =? 11)); lia.
Qed.

Lemma valid_inv (d : date) :
  valid d = true ->
  MINYEAR <= year d <= MAXYEAR /\ 1 <= month d <= 12
  /\ 1 <= day d <= days_in_month (year d) (month d).
Proof.
  unfold valid. rewrite !andb_true_iff, !Z.leb_le. tauto.
Qed.

Lemma make_ok (y m d : Z) :
  MINYEAR <= y <= MAXYEAR -> 1 <= m <= 12 -> 1 <= d <= days_in_month y m ->
  make y m d = Ok (mkdate y m d).
Proof.
  intros Hy Hm Hd. unfold make.
  assert (Hv : valid (mkdate y m d) = true).
  { unfold valid; simpl. rewrite !andb_true_iff, !Z.leb_le. tauto. }
  now rewrite Hv.
Qed.

Lemma make_raises (y m d : Z) : MAXYEAR < y -> make y m d = Raise ValueError.
Proof.
  intros Hy. unfold make.
  assert (Hv : valid (mkdate y m d) = false).
  { unfold valid; simpl.
    destruct (y <=? MAXYEAR) eqn:Hle; [apply Z.leb_le in Hle; lia|].
    now rewrite andb_false_r. }
  now rewrite Hv.
Qed.

(** The date the code builds as the first of the next month is the day
    after the last day of the invoice's month, and it exists exactly
    when that day does. *)
Lemma first_of_next_month_is_next_day (d first : date) :
  valid d = true ->
  first_of_next_month d = Ok first
  <-> tomorrow (last_day_of_month d) = Ok first.
Proof.
  intros Hv. apply valid_inv in Hv as (Hy & Hm & _).
  pose proof (days_in_month_bounds (year d) (month d)) as Hb.
  unfold first_of_next_month, tomorrow, last_day_of_month; simpl.
  rewrite Z.ltb_irrefl.
  destruct (Z.eqb_spec (month d) 12) as [H12|H12].
  - rewrite H12. change (12 <? 12) with false. cbv iota.
    destruct (Z.ltb_spec (year d) MAXYEAR) as [Hlt|Hge].
    + rewrite make_ok; [reflexivity | lia | lia |].
      pose proof (days_in_month_bounds (year d + 1) 1). lia.
    + rewrite make_raises by lia. split; discriminate.
  - destruct (Z.ltb_spec (month d) 12) as [Hlt|Hge]; [|lia].
    rewrite make_ok; [reflexivity | lia | lia |].
    pose proof (days_in_month_bounds (year d) (month d + 1)). lia.
Qed.

Lemma first_of_next_month_year (d first : date) :
  first_of_next_month d = Ok first -> year first <= year d + 1.
Proof.
  unfold first_of_next_month, make.
  destruct (month d =? 12);
    match goal with |- context [valid ?x] => destruct (valid x) end;
    intros [= <-]; simpl; lia.
Qed.

Lemma first_of_next_month_ok (d : date) :
  valid d = true -> year d < MAXYEAR ->
  exists first, first_of_next_month d = Ok first.
Proof.
  intros Hv Hy. apply valid_inv in Hv as (Hy' & Hm & _).
  unfold first_of_next_month.
  destruct (Z.eqb_spec (month d) 12).
  - rewrite make_ok; [eauto | lia | lia |].
    pose proof (days_in_month_bounds (year d + 1) 1). lia.
  - rewrite make_ok; [eauto | lia | lia |].
    pose proof (days_in_month_bounds (year d) (month d + 1)). lia.
Qed.

Lemma tomorrow_ok (d : date) :
  year d < MAXYEAR -> exists d', tomorrow d = Ok d' /\ year d' <= year d + 1.
Proof.
  intros Hy. unfold tomorrow.
  destruct (day d <? days_in_month (year d) (month d));
    [eexists; split; [reflexivity | simpl; lia]|].
  destruct (month d <? 12); [eexists; split; [reflexivity | simpl; lia]|].
  destruct (Z.ltb_spec (year d) MAXYEAR); [|lia].
  eexists; split; [reflexivity | simpl; lia].
Qed.

(** Walking [n] days forward stays inside the calendar as long as there
    are [n] years left. *)
Lemma iter_tomorrow_ok (n : nat) (d : date) :
  year d + Z.of_nat n <= MAXYEAR ->
  exists d', iter_days tomorrow n d = Ok d'.
Proof.
  revert d. induction n as [|n IH]; intros d Hy; simpl; [eauto|].
  destruct (tomorrow_ok d) as (d1 & Ht & Hy1); [lia|].
  rewrite Ht. simpl. apply IH. lia.
Qed.

Lemma add_days_ok (d : date) (n : Z) :
  0 <= n -> year d + n <= MAXYEAR -> exists d', add_days d n = Ok d'.
Proof.
  intros Hn Hy. unfold add_days.
  destruct (Z.leb_spec 0 n); [|lia].
  apply iter_tomorrow_ok. lia.
Qed.

Lemma extract_days_from_ams_term_nonneg (term_name : str) (n : Z) :
  extract_days_from_ams_term (Some term_name) = Some n -> 0 <= n.
Proof. apply search_int_kw_num_days_nonneg. Qed.

(** C6. For a valid invoice date and a term of the AMS category whose
    day count N can be extracted, the due date the code computes is the
    first calendar day of the month after the invoice's month plus N days
    (December rolls over to January of the next year), and the code does
    compute one whenever N more years fit in the calendar. *)
Theorem ams_due_date_correct (term_name description : str)
  (invoice_date : date) (n : Z) :
  valid invoice_date = true ->
  categorize_payment_term (Some term_name) description = AMS_DAYS ->
  extract_days_from_ams_term (Some term_name) = Some n ->
  (forall due,
     calculate_due_date (Some term_name) invoice_date description
     = Ok (Some due, ExplNextMonthPlus n, false)
     <-> ams_due_date invoice_date n = Ok due)
  /\ (year invoice_date + n < MAXYEAR ->
      exists due,
        calculate_due_date (Some term_name) invoice_date description
        = Ok (Some due, ExplNextMonthPlus n, false)).
Proof.
  intros Hv Hcat Hn.
  assert (Hdue : forall due,
    calculate_due_date (Some term_name) invoice_date description
    = Ok (Some due, ExplNextMonthPlus n, false)
    <-> ams_due_date invoice_date n = Ok due).
  { intros due. unfold calculate_due_date. rewrite Hcat, Hn.
    unfold calculate_ams_due_date, ams_due_date.
    destruct (first_of_next_month invoice_date) as [first|e] eqn:Hf.
    - apply (first_of_next_month_is_next_day _ _ Hv) in Hf. rewrite Hf.
      simpl. destruct (add_days first n); simpl; split; congruence.
    - destruct (tomorrow (last_day_of_month invoice_date)) as [first|e'] eqn:Ht.
      + apply (first_of_next_month_is_next_day _ _ Hv) in Ht. congruence.
      + simpl. split; discriminate. }
  split; [exact Hdue|].
  intros Hy.
  pose proof (extract_days_from_ams_term_nonneg _ _ Hn) as Hpos.
  destruct (first_of_next_month_ok invoice_date Hv) as [first Hf]; [lia|].
  pose proof (first_of_next_month_year _ _ Hf) as Hyf.
  destruct (add_days_ok first n Hpos) as [due Hadd]; [lia|].
  exists due. unfold calculate_due_date. rewrite Hcat, Hn.
  unfold calculate_ams_due_date. rewrite Hf. simpl. now rewrite Hadd.
Qed.

(** The term AMS 60 DAYS on the invoice date 2025-01-17 is due on
    2025-04-02. *)
Lemma ams_due_date_correct_witness :
  calculate_due_date (Some (L "AMS 60 DAYS")) (mkdate 2025 1 17) []
  = Ok (Some (mkdate 2025 4 2), ExplNextMonthPlus 60, false).
Proof.
  apply (proj1 (ams_due_date_correct (L "AMS 60 DAYS") [] (mkdate 2025 1 17) 60
                  eq_refl eq_refl eq_refl)).
  reflexivity.
Defined.

Example ams_december_rolls_over :
  calculate_due_date (Some (L "AMS 90 DAYS")) (mkdate 2024 12 31) []
  = Ok (Some (mkdate 2025 4 1), ExplNextMonthPlus 90, false).
Proof. reflexivity. Qed.

Example net_30_days :
  calculate_due_date (Some (L "NET 30 DAYS")) (mkdate 2025 1 17) []
  = Ok (Some (mkdate 2025 2 16), ExplInvoicePlus 30, false).
Proof. reflexivity. Qed.

Example cod_is_due_at_once :
  calculate_due_date (Some (L "COD")) (mkdate 2025 1 17) []
  = Ok (Some (mkdate 2025 1 17), ExplAdvance, false).
Proof. reflexivity. Qed.

End DueDateFacts.

(** ** The day count of a term label *)

Section DayCountFacts.
Import PyStr PyDate PaymentTerms.

(** The accessor of the parser module dispatches on the category as the
    full parser does: the extracted N for NET, N + 15 for AMS, 0 for an
    advance, the final NET days of a split, and 30 otherwise or when
    nothing can be extracted. *)
Lemma parser_day_count_dispatch (term_name : str) :
  PaymentTerms.calculate_days_from_term_name (Some term_name)
  = match categorize_payment_term (Some term_name) [] with
    | NET_DAYS => default 30 (extract_days_from_net_term (Some term_name))
    | AMS_DAYS =>
        default 30 ((fun n => n + 15) <$> extract_days_from_ams_term (Some term_name))
    | ADVANCE => 0
    | SPLIT_PAYMENT => default 30 (extract_final_payment_days term_name [])
    | _ => 30
    end.
Proof.
  unfold PaymentTerms.calculate_days_from_term_name.
  destruct (categorize_payment_term (Some term_name) []); try reflexivity.
  now destruct (extract_days_from_ams_term (Some term_name)).
Qed.

(** Outside the AMS and special-date categories, the due date of the
    full parser is the invoice date plus the day count of the accessor
    of the parser module. *)
Lemma parser_day_count_matches_due_date (term_name : str) (d due : date)
  (e : explanation) (review : bool) :
  categorize_payment_term (Some term_name) [] <> AMS_DAYS ->
  categorize_payment_term (Some term_name) [] <> SPECIAL_DATE ->
  calculate_due_date (Some term_name) d [] = Ok (Some due, e, review) ->
  add_days d (PaymentTerms.calculate_days_from_term_name (Some term_name))
  = Ok due.
Proof.
  intros Hams Hspecial.
  unfold calculate_due_date, PaymentTerms.calculate_days_from_term_name.
  destruct (categorize_payment_term (Some term_name) []); try congruence.
  - destruct (extract_days_from_net_term (Some term_name)); [|discriminate].
    destruct (add_days d z); simpl; congruence.
  - intros [= <- _ _]. reflexivity.
  - destruct (add_days d 30); simpl; congruence.
  - destruct (extract_final_payment_days term_name []).
    + destruct (add_days d z); simpl; congruence.
    + destruct (add_days d 30); simpl; congruence.
  - destruct (add_days d 30); simpl; congruence.
Qed.

(** C8. The two accessors of the day count disagree: on the labels
    EOM 90 and 50% IN ADVANCE, 50% NET 30 DAYS of the parser's own test
    list, the accessor of the parser module follows the category
    dispatch (30 days for both), and the accessor of the data module,
    the one the invoice page imports, answers 90 and 0. *)
Theorem day_count_accessors_disagree :
  PaymentTerms.calculate_days_from_term_name (Some (L "EOM 90")) = 30
  /\ InvoiceData.calculate_days_from_term_name (Some (L "EOM 90")) = 90
  /\ PaymentTerms.calculate_days_from_term_name
       (Some (L "50% IN ADVANCE, 50% NET 30 DAYS")) = 30
  /\ InvoiceData.calculate_days_from_term_name
       (Some (L "50% IN ADVANCE, 50% NET 30 DAYS")) = 0.
Proof. repeat split; reflexivity. Qed.

(** On the plain NET and AMS labels the two accessors agree. *)
Example day_count_accessors_agree_on_plain_terms :
  PaymentTerms.calculate_days_from_term_name (Some (L "NET 60 DAYS BY TT")) = 60
  /\ InvoiceData.calculate_days_from_term_name (Some (L "NET 60 DAYS BY TT")) = 60
  /\ PaymentTerms.calculate_days_from_term_name (Some (L "AMS 60 DAYS BY TT")) = 75
  /\ InvoiceData.calculate_days_from_term_name (Some (L "AMS 60 DAYS BY TT")) = 75.
Proof. repeat split; reflexivity. Qed.

End DayCountFacts.

(** ** File names and object keys *)

Section FileNameFacts.
Import PyStr Attachments Spec.

Lemma eqc_eq (a b : ascii) : eqc a b = true -> a = b.
Proof. apply Ascii.eqb_eq. Qed.

Lemma rsplit1_inv (c : ascii) (s a b : str) :
  rsplit1 c s = Some (a, b) -> s = a ++ c :: b /\ rsplit1 c b = None.
Proof.
  revert a b. induction s as [|x s IH]; intros a b; simpl; [discriminate|].
  destruct (rsplit1 c s) as [[a' b']|] eqn:Hr.
  - intros [= <- <-]. destruct (IH a' b' eq_refl) as [-> Hb].
    split; [reflexivity | assumption].
  - destruct (eqc x c) eqn:Hx; [|discriminate].
    intros [= <- <-]. apply eqc_eq in Hx. subst. split; [reflexivity | assumption].
Qed.

Lemma rsplit1_app (c : ascii) (a b : str) :
  rsplit1 c b = None -> rsplit1 c (a ++ c :: b) = Some (a, b).
Proof.
  intros Hb. induction a as [|x a IH]; simpl.
  - rewrite Hb. unfold eqc. now rewrite Ascii.eqb_refl.
  - now rewrite IH.
Qed.

Lemma lower_safe_is_clean (c : ascii) :
  is_safe_char c = true -> is_clean_char (lower_char c) = true.
Proof.
  destruct c as [[] [] [] [] [] [] [] []]; vm_compute; congruence.
Qed.

Lemma cleaned_is_clean (filename : str) :
  Forall (fun c => is_clean_char c = true) (cleaned filename).
Proof.
  unfold cleaned, lower, remove_unsafe.
  apply List.Forall_forall. intros c Hc.
  apply in_map_iff in Hc as (x & <- & Hx).
  apply filter_In in Hx as [_ Hsafe].
  now apply lower_safe_is_clean.
Qed.

Lemma sanitize_filename_cases (filename : str) :
  match rsplit1 "." (cleaned filename) with
  | Some (name, ext) =>
      sanitize_filename filename = firstn 100 name ++ "."%char :: ext
  | None => sanitize_filename filename = cleaned filename
  end.
Proof.
  unfold sanitize_filename. fold (cleaned filename).
  destruct (rsplit1 "." (cleaned filename)) as [[name ext]|]; [|reflexivity].
  unfold take_prefix.
  destruct (Nat.ltb_spec 100 (length name)); [reflexivity|].
  now rewrite firstn_all2 by lia.
Qed.

Lemma underscores_of_char (c : ascii) :
  count_char "_" (cleaned [c])
  = (count_char "_" [c] + count_char " " [c])%nat.
Proof. destruct c as [[] [] [] [] [] [] [] []]; reflexivity. Qed.

Lemma count_char_app (c : ascii) (a b : str) :
  count_char c (a ++ b) = (count_char c a + count_char c b)%nat.
Proof. unfold count_char. now rewrite List.filter_app, length_app. Qed.

Lemma cleaned_app (a b : str) : cleaned (a ++ b) = cleaned a ++ cleaned b.
Proof.
  unfold cleaned, lower, remove_unsafe, replace_char.
  now rewrite map_app, List.filter_app, map_app.
Qed.

(** Every space of the name becomes an underscore of the cleaned name,
    and no other underscore appears. *)
Lemma spaces_become_underscores (filename : str) :
  count_char "_" (cleaned filename)
  = (count_char "_" filename + count_char " " filename)%nat.
Proof.
  induction filename as [|c f IH]; [reflexivity|].
  change (c :: f) with ([c] ++ f).
  rewrite cleaned_app, !count_char_app, underscores_of_char, IH. lia.
Qed.









Example sanitize_report :
  sanitize_filename (L "My Invoice (Final) #3.PDF") = L "my_invoice_final_3.pdf".
Proof. reflexivity. Qed.

Example key_of_report :
  generate_s3_key 0 (sanitize_filename (L "My Invoice.PDF")) (Some 1736035200123)
  = L "purchase-invoice-file/1736035200123_my_invoice.pdf".
Proof. reflexivity. Qed.

End FileNameFacts.

(** ** Batch uploads *)

Section UploadFacts.
Import PyStr Attachments S3.

Lemma upload_invoice_file_requests (env : S3Env) (st : S3State)
  (file_content filename : str) :
  requests (snd (upload_invoice_file env st file_content filename))
  = S (requests st).
Proof.
  unfold upload_invoice_file.
  destruct (put_fault env (requests st)) as [[]|]; reflexivity.
Qed.

Lemma upload_invoice_file_success (env : S3Env) (st : S3State)
  (file_content filename : str) :
  fst (fst (upload_invoice_file env st file_content filename))
  = bool_decide (put_fault env (requests st) = None).
Proof.
  unfold upload_invoice_file.
  destruct (put_fault env (requests st)) as [[]|]; reflexivity.
Qed.

Lemma batch_step_spec (env : S3Env) (r : BatchResult) (st : S3State)
  (file : str * str) :
  let r' := fst (batch_step env (r, st) file) in
  let st' := snd (batch_step env (r, st) file) in
  total r' = total r
  /\ success r' = success r
  /\ (success_count r' + error_count r' = S (success_count r + error_count r))%nat
  /\ (counted r -> counted r')
  /\ requests st' = S (requests st)
  /\ (error_count r <= error_count r')%nat
  /\ (put_fault env (requests st) <> None -> error_count r' = S (error_count r)).
Proof.
  destruct file as [file_content filename]. unfold batch_step, counted.
  pose proof (upload_invoice_file_requests env st file_content filename) as Hreq.
  pose proof (upload_invoice_file_success env st file_content filename) as Hok.
  destruct (upload_invoice_file env st file_content filename) as [[ok msg] st'].
  simpl in Hreq, Hok. subst ok.
  destruct (put_fault env (requests st)) as [e|]; simpl;
    rewrite ?length_app; simpl;
    intuition (try lia; try congruence).
Qed.

Lemma batch_fold_spec (env : S3Env) (files : list (str * str))
  (r : BatchResult) (st : S3State) :
  let r' := fst (fold_left (batch_step env) files (r, st)) in
  let st' := snd (fold_left (batch_step env) files (r, st)) in
  total r' = total r
  /\ success r' = success r
  /\ (success_count r' + error_count r'
      = success_count r + error_count r + length files)%nat
  /\ (counted r -> counted r')
  /\ requests st' = (requests st + length files)%nat
  /\ (error_count r <= error_count r')%nat
  /\ ((exists i, (i < length files)%nat
                 /\ put_fault env (requests st + i) <> None) ->
      (error_count r < error_count r')%nat).
Proof.
  revert r st. induction files as [|file files IH]; intros r st;
    cbn [fold_left length fst snd].
  - split; [reflexivity|]. split; [reflexivity|]. split; [lia|].
    split; [tauto|]. split; [lia|]. split; [lia|].
    intros (i & Hi & _). lia.
  - pose proof (batch_step_spec env r st file) as Hstep.
    destruct (batch_step env (r, st) file) as [r1 st1]. simpl in Hstep.
    destruct Hstep as (Ht & Hs & Hc & Hinv & Hreq & Hmono & Hfault).
    specialize (IH r1 st1). simpl in IH.
    destruct IH as (Ht' & Hs' & Hc' & Hinv' & Hreq' & Hmono' & Hfault').
    split; [congruence|]. split; [congruence|]. split; [lia|].
    split; [tauto|]. split; [lia|]. split; [lia|].
    intros (i & Hi & Hput). destruct i as [|i].
    + rewrite Nat.add_0_r in Hput. specialize (Hfault Hput). lia.
    + enough (error_count r1 < error_count
                (fst (fold_left (batch_step env) files (r1, st1))))%nat by lia.
      apply Hfault'. exists i. split; [lia|].
      rewrite Hreq. now replace (S (requests st) + i)%nat
                          with (requests st + S i)%nat by lia.
Qed.

(** C10. For every list of input files the result of the batch upload
    has [success_count + error_count = total], [total] the number of
    input files, as many uploaded keys as [success_count], as many failed
    entries as [error_count], and the success flag set exactly when
    [error_count] is zero; an empty batch succeeds with zero counts. *)
Theorem batch_upload_counts (env : S3Env) (st : S3State)
  (files : list (str * str)) :
  let r := fst (batch_upload_invoice_files env st files) in
  (success_count r + error_count r = total r)%nat
  /\ total r = length files
  /\ length (uploaded r) = success_count r
  /\ length (failed r) = error_count r
  /\ (success r = true <-> error_count r = 0%nat)
  /\ (files = [] ->
      success r = true /\ success_count r = 0%nat /\ error_count r = 0%nat).
Proof.
  unfold batch_upload_invoice_files.
  destruct files as [|file files].
  - simpl. repeat split; reflexivity.
  - set (r0 := {| success := false; uploaded := []; failed := [];
                  total := length (file :: files);
                  success_count := 0; error_count := 0 |}).
    pose proof (batch_fold_spec env (file :: files) r0 st) as Hfold.
    destruct (fold_left (batch_step env) (file :: files) (r0, st)) as [r1 st1].
    cbn [fst snd] in Hfold.
    destruct Hfold as (Ht & _ & Hc & Hinv & _).
    destruct Hinv as [Hu Hf]; [split; reflexivity|].
    cbn [fst success uploaded failed total success_count error_count].
    subst r0. cbn [total success_count error_count] in *.
    repeat split; try lia; try assumption; try discriminate.
    + apply Nat.eqb_eq.
    + intros ->. reflexivity.
Qed.

Lemma prepare_from_length (base idx : Z) (files : list UploadedFile) :
  length (prepare_from base idx files) = length files.
Proof.
  revert idx. induction files as [|f files IH]; intros idx; simpl;
    [reflexivity | now rewrite IH].
Qed.

(** A batch with a failing file fails as a whole. *)
Lemma batch_with_failure_fails (env : S3Env) (st : S3State)
  (files : list (str * str)) :
  (exists i, (i < length files)%nat /\ put_fault env (requests st + i) <> None) ->
  let r := fst (batch_upload_invoice_files env st files) in
  success r = false /\ (0 < error_count r)%nat.
Proof.
  intros Hfail. unfold batch_upload_invoice_files.
  destruct files as [|file files].
  - destruct Hfail as (i & Hi & _). simpl in Hi. lia.
  - set (r0 := {| success := false; uploaded := []; failed := [];
                  total := length (file :: files);
                  success_count := 0; error_count := 0 |}).
    pose proof (batch_fold_spec env (file :: files) r0 st) as Hfold.
    destruct (fold_left (batch_step env) (file :: files) (r0, st)) as [r1 st1].
    cbn [fst snd] in Hfold.
    destruct Hfold as (_ & _ & _ & _ & _ & _ & Hlt).
    specialize (Hlt Hfail). subst r0. cbn [error_count] in Hlt.
    cbn [fst success error_count].
    split; [|lia]. apply Nat.eqb_neq. lia.
Qed.

End UploadFacts.

(** ** The creation of an invoice with attachments *)

Section CreationFacts.
Import PyStr PyNum Attachments S3 Store CreatePage.
Context `{Num}.

Lemma files_for_s3_length (env : PageEnv) (w : World) :
  length (files_for_s3 env w) = length (uploaded_files w).
Proof.
  unfold files_for_s3, prepare_files_for_upload.
  now rewrite length_map, prepare_from_length.
Qed.

(** C3. When at least one file of the batch fails to upload, the batch
    upload reports failure (a non-zero failure count, so no success), and
    the creation stops before any write to the database: no media record
    is created, no invoice header, detail row or attachment link is
    inserted, and no invoice is recorded as created. *)
Theorem failed_upload_aborts_creation (env : PageEnv)
  (invoice_data : InvoiceData) (details_df : list DetailsRow) (w : World) :
  (exists i, (i < length (uploaded_files w))%nat
             /\ put_fault (s3_env env) (requests (s3 w) + i) <> None) ->
  let r := fst (batch_upload_invoice_files (s3_env env) (s3 w)
                                           (files_for_s3 env w)) in
  let w' := create_invoice_final env invoice_data details_df w in
  success r = false
  /\ (0 < error_count r)%nat
  /\ medias (db w') = medias (db w)
  /\ purchase_invoices (db w') = purchase_invoices (db w)
  /\ purchase_invoice_details (db w') = purchase_invoice_details (db w)
  /\ purchase_invoice_medias (db w') = purchase_invoice_medias (db w)
  /\ last_created_invoice w' = last_created_invoice w.
Proof.
  intros Hfail.
  assert (Hbatch :
    let r := fst (batch_upload_invoice_files (s3_env env) (s3 w)
                                             (files_for_s3 env w)) in
    success r = false /\ (0 < error_count r)%nat).
  { apply batch_with_failure_fails. now rewrite files_for_s3_length. }
  cbv zeta in *. destruct Hbatch as [Hsuccess Hcount].
  split; [assumption|]. split; [assumption|].
  unfold create_invoice_final.
  destruct (invoice_creating w); [repeat split; reflexivity|].
  destruct (keycloak_id env) as [[|c user]|]; try (repeat split; reflexivity).
  unfold upload_step. cbn [uploaded_files with_creating s3].
  destruct (uploaded_files w) as [|f files] eqn:Hfiles.
  { destruct Hfail as (i & Hi & _). simpl in Hi. lia. }
  destruct (s3_manager_fault env); [repeat split; reflexivity|].
  change (files_for_s3 env (with_creating w true)) with (files_for_s3 env w).
  destruct (batch_upload_invoice_files (s3_env env) (s3 w) _) as [res st].
  cbn [fst] in Hsuccess. rewrite Hsuccess.
  repeat split; reflexivity.
Qed.

(** With an unresolved rate in the header data ([None] under the key
    [po_to_invoice_rate]) and at least one line, the transaction fails
    and nothing is written: no invoice is created at an implicit rate. *)
Lemma unresolved_rate_creates_no_invoice (env : DbEnv) (d : Db)
  (invoice_data : InvoiceData) (row : DetailsRow) (rest : list DetailsRow)
  (user : str) (media_ids : list Z) :
  po_to_invoice_rate invoice_data = Some None ->
  engine_fault env = false ->
  create_purchase_invoice env d invoice_data (row :: rest) user media_ids
  = (Ok (false, None), d).
Proof.
  intros Hrate Hengine.
  assert (Hraise : exists e, base_amount None row = Raise e).
  { unfold base_amount.
    destruct (details_unit_cost row) as [unit_cost|e];
      cbn [mbind result_bind]; eexists; reflexivity. }
  destruct Hraise as [e Hraise].
  assert (Hamounts : Frame.mapM_result (base_amount None) (row :: rest)
                     = Raise e).
  { cbn [Frame.mapM_result]. rewrite Hraise. reflexivity. }
  assert (Htx : invoice_transaction env d invoice_data (row :: rest)
                                    user media_ids = Raise e).
  { unfold invoice_transaction. rewrite Hrate.
    change (default (Some one) (Some None)) with (@None num).
    rewrite Hamounts. reflexivity. }
  unfold create_purchase_invoice. rewrite Hengine, Htx. reflexivity.
Qed.

End CreationFacts.

Section CreationExample.
Import PyStr PyNum Attachments S3 Store CreatePage Examples.

(** The upload of file 2 of 3 fails: nothing is written to the
    database. *)
Lemma failed_upload_aborts_creation_witness :
  let w' := create_invoice_final page_env one_line_invoice one_line fresh_world in
  medias (db w') = [] /\ purchase_invoices (db w') = []
  /\ purchase_invoice_details (db w') = [].
Proof.
  destruct (failed_upload_aborts_creation page_env one_line_invoice one_line
              fresh_world) as (_ & _ & Hm & Hi & Hd & _).
  - exists 1%nat. split; [vm_compute; lia | vm_compute; discriminate].
  - cbv zeta. rewrite Hm, Hi, Hd. repeat split; reflexivity.
Defined.

(** The same world with a healthy object store: the invoice and its
    three media records are written. *)
Example healthy_upload_creates_invoice :
  let env := {| keycloak_id := Some (L "user-1");
                s3_manager_fault := false;
                now_ms := 1736035200000;
                s3_env := {| clock_ms := fun n => Z.of_nat n;
                             put_fault := fun _ => None;
                             delete_fault := fun _ => false |};
                media_env := healthy_db;
                invoice_env := healthy_db |} in
  let w' := create_invoice_final env one_line_invoice one_line fresh_world in
  length (medias (db w')) = 3%nat
  /\ map header_total_exclude_vat (purchase_invoices (db w')) = [(100 # 1)%Q]
  /\ map line_amount (purchase_invoice_details (db w')) = [(110 # 1)%Q]
  /\ length (purchase_invoice_medias (db w')) = 3%nat.
Proof. vm_compute. repeat split; reflexivity. Qed.

(** With the failure, the two files that did upload stay in the bucket,
    without any record pointing at them. *)
Example failed_upload_leaves_objects :
  let w' := create_invoice_final page_env one_line_invoice one_line fresh_world in
  map fst (objects (s3 w'))
  = [L "purchase-invoice-file/1736035200000_invoice_1.pdf";
     L "purchase-invoice-file/1736035200002_packing_list.png"]
  /\ invoice_creating w' = false.
Proof. vm_compute. split; reflexivity. Qed.

End CreationExample.

(** ** The true remaining quantity *)

Section ReconciliationFacts.
Import InvoiceData Examples.






(** Rows without a positive uninvoiced quantity never reach the frame. *)
Example nothing_left_is_filtered_out :
  get_uninvoiced_ans
    (Ok [ {| can_line_id := 2; can_product_purchase_order_id := 7;
             can_uninvoiced_quantity := Some 0%Q;
             can_po_line_pending_invoiced_qty := Some (3 # 1)%Q |} ])
    {[ 7 := None ]} [] (fun _ => true) = [].
Proof. reflexivity. Qed.

(** An over-invoiced PO line (negative pending quantity) leaves nothing
    to invoice. *)
Example negative_pending_is_clamped :
  map an_true_remaining_qty
    (get_uninvoiced_ans
       (Ok [ {| can_line_id := 3; can_product_purchase_order_id := 7;
                can_uninvoiced_quantity := Some (5 # 1)%Q;
                can_po_line_pending_invoiced_qty := Some (-2 # 1)%Q |} ])
       {[ 7 := None ]} [] (fun _ => true)) = [Some 0%Q].
Proof. reflexivity. Qed.

End ReconciliationFacts.

(** ** Exchange rates *)

Section RateFacts.
Import PyStr PyNum Frame Currency.
Context `{Num}.

Lemma cache_key_inj (a b c : str) : cache_key a c = cache_key b c -> a = b.
Proof.
  unfold cache_key. rewrite !app_assoc. intros Heq.
  apply app_inv_tail in Heq. now apply app_inv_tail in Heq.
Qed.

(** A look-up that resolves nothing leaves the cache as it was. *)
Lemma unresolved_keeps_cache (src : RateSources) (now : Z) (cache : RateCache)
  (from_currency to_currency : str) :
  fst (get_latest_exchange_rate src now cache from_currency to_currency) = None ->
  snd (get_latest_exchange_rate src now cache from_currency to_currency) = cache.
Proof.
  unfold get_latest_exchange_rate.
  destruct (bool_decide (from_currency = to_currency)); [discriminate|].
  destruct (cached cache _ now); [discriminate|].
  destruct (api_key src) as [[|c k]|]; try reflexivity.
  destruct (api_convert src from_currency to_currency) as [|[] [rate|]];
    try reflexivity.
  discriminate.
Qed.

(** The look-up of another pair does not depend on the entry of a
    pair. *)
Lemma lookup_after_other_entry (src : RateSources) (now : Z)
  (cache : RateCache) (key : str) (rate : num) (expiry : Z)
  (from_currency to_currency : str) :
  cache_key from_currency to_currency <> key ->
  fst (get_latest_exchange_rate src now
         {| rate_cache := <[key := rate]> (rate_cache cache);
            cache_expiry := <[key := expiry]> (cache_expiry cache) |}
         from_currency to_currency)
  = fst (get_latest_exchange_rate src now cache from_currency to_currency).
Proof.
  intros Hne. unfold get_latest_exchange_rate, cached. cbn [rate_cache cache_expiry].
  rewrite !lookup_insert_ne by congruence.
  destruct (bool_decide (from_currency = to_currency)); [reflexivity|].
  destruct (rate_cache cache !! cache_key from_currency to_currency),
    (cache_expiry cache !! cache_key from_currency to_currency);
    try destruct (now <? _); try reflexivity;
    destruct (api_key src) as [[|c k]|]; try reflexivity;
    destruct (api_convert src from_currency to_currency) as [|[] [r|]];
    reflexivity.
Qed.

(** A pair that cannot be resolved cannot be resolved either after the
    look-up of the USD rate that [calculate_exchange_rates] makes
    first. *)
Lemma unresolved_after_usd_lookup (src : RateSources) (now : Z)
  (cache : RateCache) (po_currency invoice_currency : str) :
  fst (get_latest_exchange_rate src now cache po_currency invoice_currency) = None ->
  fst (get_latest_exchange_rate src now
         (snd (get_latest_exchange_rate src now cache (L "USD") invoice_currency))
         po_currency invoice_currency) = None.
Proof.
  intros Hnone.
  destruct (decide (po_currency = L "USD")) as [->|Hpo].
  - now rewrite (unresolved_keeps_cache _ _ _ _ _ Hnone).
  - assert (Hkey : cache_key po_currency invoice_currency
                   <> cache_key (L "USD") invoice_currency).
    { intros Heq. now apply cache_key_inj in Heq. }
    unfold get_latest_exchange_rate at 2.
    destruct (bool_decide (L "USD" = invoice_currency)); [exact Hnone|].
    destruct (cached cache _ now); [exact Hnone|].
    destruct (api_key src) as [[|c k]|]; try exact Hnone.
    destruct (api_convert src (L "USD") invoice_currency) as [|[] [r|]];
      try exact Hnone.
    cbn [snd]. now rewrite lookup_after_other_entry.
Qed.

Lemma po_to_invoice_rate_of_rates (src : RateSources) (now : Z)
  (cache : RateCache) (po_currency invoice_currency : str) :
  po_currency <> invoice_currency ->
  fst (get_latest_exchange_rate src now cache po_currency invoice_currency) = None ->
  fst (calculate_exchange_rates src now cache po_currency invoice_currency)
    !! L "po_to_invoice_rate" = Some None.
Proof.
  intros Hne Hnone. unfold calculate_exchange_rates.
  rewrite (bool_decide_eq_false_2 _ Hne).
  destruct (bool_decide (invoice_currency = L "USD")).
  - destruct (get_latest_exchange_rate src now cache po_currency
                                       invoice_currency) as [po cache2].
    cbn [fst] in *. subst po. apply lookup_insert_eq.
  - pose proof (unresolved_after_usd_lookup src now cache po_currency
                  invoice_currency Hnone) as Hafter.
    destruct (get_latest_exchange_rate src now cache (L "USD")
                                       invoice_currency) as [usd cache1].
    cbn [snd] in Hafter.
    destruct (get_latest_exchange_rate src now cache1 po_currency
                                       invoice_currency) as [po cache2].
    cbn [fst] in *. subst po. apply lookup_insert_eq.
Qed.

Lemma missing_rate_is_invalid (rates : gmap (list ascii) (option num))
  (po_currency invoice_currency : str) :
  po_currency <> invoice_currency ->
  rate_is_none rates "po_to_invoice_rate" = true ->
  fst (validate_exchange_rates rates po_currency invoice_currency) = false.
Proof.
  intros Hne Hnone. unfold validate_exchange_rates.
  rewrite (bool_decide_eq_false_2 _ Hne), Hnone. cbn [negb andb].
  now destruct (negb (bool_decide (invoice_currency = L "USD"))
                && rate_is_none rates "usd_exchange_rate").
Qed.

(** C4. When the PO currency differs from the invoice currency: if the
    pair resolves to no rate, the conversion of the amounts answers
    [None], the dictionary of rates holds [None] for the pair and the
    validation of the rates is negative; and whenever the conversion
    does answer amounts, their rate is the one the resolver gave, never a
    default. *)
Theorem unavailable_rate_is_not_defaulted (src : RateSources) (now : Z)
  (cache : RateCache) (selected_df : DataFrame)
  (po_currency invoice_currency : str) :
  po_currency <> invoice_currency ->
  (fst (get_latest_exchange_rate src now cache po_currency invoice_currency)
   = None ->
   fst (get_invoice_amounts_in_currency src now cache selected_df
          po_currency invoice_currency) = Ok None
   /\ fst (calculate_exchange_rates src now cache po_currency invoice_currency)
        !! L "po_to_invoice_rate" = Some None
   /\ fst (validate_exchange_rates
             (fst (calculate_exchange_rates src now cache
                     po_currency invoice_currency))
             po_currency invoice_currency) = false)
  /\ (forall amounts,
        fst (get_invoice_amounts_in_currency src now cache selected_df
               po_currency invoice_currency) = Ok (Some amounts) ->
        fst (get_latest_exchange_rate src now cache po_currency invoice_currency)
        = Some (exchange_rate amounts)).
Proof.
  intros Hne. split.
  - intros Hnone.
    pose proof (po_to_invoice_rate_of_rates src now cache _ _ Hne Hnone) as Hrate.
    split; [|split; [exact Hrate|]].
    + unfold get_invoice_amounts_in_currency.
      rewrite (bool_decide_eq_false_2 _ Hne).
      destruct (get_latest_exchange_rate src now cache po_currency
                                         invoice_currency) as [rate cache'].
      cbn [fst] in Hnone. now subst rate.
    + apply missing_rate_is_invalid; [assumption|].
      unfold rate_is_none. now rewrite Hrate.
  - intros amounts. unfold get_invoice_amounts_in_currency.
    rewrite (bool_decide_eq_false_2 _ Hne).
    destruct (get_latest_exchange_rate src now cache po_currency
                                       invoice_currency) as [[rate|] cache'];
      cbn [fst]; [|discriminate].
    destruct (foldM _ _ _) as [[total_amount total_vat]|e]; cbn; [|discriminate].
    intros [= <-]. reflexivity.
Qed.

End RateFacts.

Section RateExamples.
Import PyStr PyNum Frame Currency Examples.

(** No source knows a rate from VND to EUR: no amounts, and the rates
    are not valid. *)
Lemma unavailable_rate_is_not_defaulted_witness :
  fst (get_invoice_amounts_in_currency no_rates 0 empty_cache capped_selection
         (L "VND") (L "EUR")) = Ok None
  /\ fst (validate_exchange_rates
            (fst (calculate_exchange_rates no_rates 0 empty_cache
                    (L "VND") (L "EUR")))
            (L "VND") (L "EUR")) = false.
Proof.
  destruct (unavailable_rate_is_not_defaulted no_rates 0 empty_cache
              capped_selection (L "VND") (L "EUR")) as [Hnone _].
  - discriminate.
  - destruct Hnone as (Hamounts & _ & Hvalid); [reflexivity|].
    split; assumption.
Defined.

(** The same currency on both sides is the rate 1.0, whatever the
    sources. *)
Example same_currency_is_one :
  fst (get_latest_exchange_rate no_rates 0 empty_cache (L "EUR") (L "EUR"))
  = Some 1%Q.
Proof. reflexivity. Qed.

(** A missing USD rate for reporting only warns. *)
Example missing_usd_rate_only_warns :
  validate_exchange_rates
    (fst (calculate_exchange_rates no_rates 0 empty_cache (L "EUR") (L "EUR")))
    (L "EUR") (L "EUR")
  = (true, [L "USD to EUR rate not available (needed for reporting)"]).
Proof. vm_compute. reflexivity. Qed.

End RateExamples.

(** ** The validation against the PO level *)

Section ValidationFacts.
Import PyStr PyNum Frame Service Spec.
Context `{Num}.









(** A PO line whose summed selected quantity is exactly 1.1 times its
    remaining quantity is within the ceiling, for every implementation of
    the numbers: [x > x] is false. *)
Lemma selection_at_ceiling_is_within (df : DataFrame)
  (po_summary : list PoRow) (po : Z) (po_row : PoRow) :
  List.find (fun p => po_id p =? po) po_summary = Some po_row ->
  selected_quantity df po = mul (po_remaining_qty po_row) c1_1 ->
  exceeds_ceiling df po_summary po = false.
Proof.
  intros Hfind Hsum. unfold exceeds_ceiling.
  rewrite Hfind, Hsum. apply gtb_irrefl.
Qed.





End ValidationFacts.

(** ** Invoice totals *)

Section TotalsFacts.
Import PyStr PyNum Frame Currency Service Spec.
Context `{Num}.

Lemma sigma_from {A} (f : A -> num) (xs : list A) (start : num) :
  fold_left add (map f xs) start
  = fold_left (fun acc x => add acc (f x)) xs start.
Proof.
  revert start. induction xs as [|x xs IH]; intros start; simpl;
    [reflexivity | apply IH].
Qed.

Lemma totals_line_priced (df : DataFrame) (row : Row) (unit_cost : num)
  (subtotal total_vat : num) (currency : option (list ascii)) :
  has_col df "buying_unit_cost" = true ->
  has_col df "uninvoiced_quantity" = true ->
  priced row unit_cost ->
  let amount := mul unit_cost (preferred_quantity df row) in
  exists currency',
    totals_line df (subtotal, total_vat, currency) row
    = Ok (add subtotal amount,
          add total_vat (div (mul amount (vat_percent_of df row)) hundred),
          currency').
Proof.
  intros Hcost Hqty (first & second & rest & Hsplit & Hparse) amount.
  unfold totals_line, line_quantity, cell, cell_get, float_of_str.
  rewrite Hcost, Hqty. cbn [mbind result_bind].
  rewrite Hsplit, Hparse. cbn [mbind result_bind].
  eexists. reflexivity.
Qed.

(** The loop of [calculate_invoice_totals_with_vat] adds up the line
    amounts and the line VAT amounts, unrounded. *)
Lemma totals_loop (df : DataFrame) (costs : Row -> num) (lines : list Row)
  (subtotal total_vat : num) (currency : option (list ascii)) :
  has_col df "buying_unit_cost" = true ->
  has_col df "uninvoiced_quantity" = true ->
  (forall row, In row lines -> priced row (costs row)) ->
  let amount row := mul (costs row) (preferred_quantity df row) in
  let vat row := div (mul (amount row) (vat_percent_of df row)) hundred in
  exists currency',
    foldM (totals_line df) lines (subtotal, total_vat, currency)
    = Ok (fold_left add (map amount lines) subtotal,
          fold_left add (map vat lines) total_vat,
          currency').
Proof.
  intros Hcost Hqty Hpriced amount vat.
  revert subtotal total_vat currency.
  induction lines as [|row lines IH]; intros subtotal total_vat currency.
  - simpl. eauto.
  - cbn [foldM map fold_left].
    destruct (totals_line_priced df row (costs row) subtotal total_vat currency
                Hcost Hqty) as [currency1 ->]; [apply Hpriced; now left|].
    cbn [mbind result_bind].
    apply IH. intros r Hr. apply Hpriced. now right.
Qed.

(** What [calculate_invoice_totals_with_vat] returns for priced lines:
    the sums over the lines, each rounded once; the quantity of a line is
    its true remaining quantity when the frame has the column. *)
Lemma totals_with_vat_formula (df : DataFrame) (costs : Row -> num) :
  has_col df "buying_unit_cost" = true ->
  has_col df "uninvoiced_quantity" = true ->
  has_col df "po_number" = true ->
  has_col df "arrival_note_number" = true ->
  (forall row, In row (rows df) -> priced row (costs row)) ->
  let amount row := mul (costs row) (preferred_quantity df row) in
  let vat row := div (mul (amount row) (vat_percent_of df row)) hundred in
  exists totals,
    calculate_invoice_totals_with_vat df = Ok totals
    /\ Service.subtotal totals = round2 (sigma amount (rows df))
    /\ Service.total_vat totals = round2 (sigma vat (rows df))
    /\ Service.total_with_vat totals
       = round2 (add (sigma amount (rows df)) (sigma vat (rows df))).
Proof.
  intros Hcost Hqty Hpo Han Hpriced amount vat.
  destruct (totals_loop df costs (rows df) zero zero None Hcost Hqty Hpriced)
    as [currency Hloop].
  unfold calculate_invoice_totals_with_vat, cell.
  rewrite Hqty, Hpo, Han. cbn [mbind result_bind].
  rewrite Hloop. cbn [mbind result_bind].
  eexists. split; [reflexivity|]. repeat split.
Qed.

(** The loop of [get_invoice_amounts_in_currency] multiplies the unit
    cost by the raw uninvoiced quantity of the line and by the rate. *)
Lemma conversion_loop (df : DataFrame) (costs : Row -> num) (rate : num)
  (lines : list Row) (total_amount total_vat : num) :
  has_col df "uninvoiced_quantity" = true ->
  (forall row, In row lines -> converted_unit_cost df row = Ok (costs row)) ->
  let amount row := mul (mul (costs row) (uninvoiced_quantity row)) rate in
  let vat row := div (mul (amount row) (vat_percent_of df row)) hundred in
  foldM (convert_line df rate) lines (total_amount, total_vat)
  = Ok (fold_left add (map amount lines) total_amount,
        fold_left add (map vat lines) total_vat).
Proof.
  intros Hqty Hcosts amount vat. revert total_amount total_vat.
  induction lines as [|row lines IH]; intros total_amount total_vat;
    [reflexivity|].
  cbn [foldM map fold_left].
  assert (Hstep : convert_line df rate (total_amount, total_vat) row
                  = Ok (add total_amount (amount row), add total_vat (vat row))).
  { unfold convert_line, cell_get.
    rewrite (Hcosts row) by now left. now rewrite Hqty. }
  rewrite Hstep. cbn [mbind result_bind].
  apply IH. intros r Hr. apply Hcosts. now right.
Qed.

End TotalsFacts.

Section TotalsExamples.
Import PyStr PyNum Frame Currency Service Spec Examples.

(** Run a call on a concrete input and take what it returns as the
    witness of the goal. *)
Ltac take_result call :=
  let v := eval vm_compute in call in
  lazymatch v with
  | Ok (Some ?x) => exists x
  | Ok ?x => exists x
  end.

(** C1. On one line of 5 uninvoiced units of which 3 truly remain, at
    10 USD a unit and 10 percent VAT: the totals in the PO currency are
    computed on the 3 units (30, 3 and 33), and the totals converted to
    EUR at the rate 2 are computed on the 5 units (100, 10 and 110
    instead of 60, 6 and 66): the conversion reads the raw uninvoiced
    quantity although the true remaining quantity is present. *)
Theorem conversion_ignores_true_remaining :
  (exists totals,
     calculate_invoice_totals_with_vat capped_selection = Ok totals
     /\ Service.subtotal totals = (30 # 1)%Q
     /\ Service.total_vat totals = (3 # 1)%Q
     /\ Service.total_with_vat totals = (33 # 1)%Q)
  /\ (exists amounts,
        fst (get_invoice_amounts_in_currency usd_rate_is_two 0 empty_cache
               capped_selection (L "USD") (L "EUR")) = Ok (Some amounts)
        /\ exchange_rate amounts = (2 # 1)%Q
        /\ Currency.subtotal amounts = (100 # 1)%Q
        /\ Currency.total_vat amounts = (10 # 1)%Q
        /\ Currency.total_with_vat amounts = (110 # 1)%Q).
Proof.
  split.
  - take_result (calculate_invoice_totals_with_vat capped_selection).
    split; [reflexivity | repeat split].
  - take_result (fst (get_invoice_amounts_in_currency usd_rate_is_two 0
                        empty_cache capped_selection (L "USD") (L "EUR"))).
    split; [reflexivity | repeat split].
Qed.

(** Rounding happens on the sums, not on the lines: three lines of
    0.004 add up to 0.012 and round to 0.01; rounded one by one they
    would add up to 0. *)
Example rounding_is_on_the_sums :
  exists totals,
    calculate_invoice_totals_with_vat
      (selection [line 7 "0.004 USD" 1 1 0; line 7 "0.004 USD" 1 1 0;
                  line 7 "0.004 USD" 1 1 0]) = Ok totals
    /\ Service.subtotal totals = (1 # 100)%Q.
Proof.
  take_result (calculate_invoice_totals_with_vat
                 (selection [line 7 "0.004 USD" 1 1 0; line 7 "0.004 USD" 1 1 0;
                             line 7 "0.004 USD" 1 1 0])).
  split; [reflexivity | reflexivity].
Qed.

(** Computing the totals twice gives the same totals. *)
Example totals_are_idempotent :
  calculate_invoice_totals_with_vat capped_selection
  = calculate_invoice_totals_with_vat capped_selection.
Proof. reflexivity. Qed.


(** The block names the PO line that is over its ceiling. *)
Example the_second_line_is_named :
  exists v,
    validate_invoice_with_po_level ten_remaining twelve_on_the_second = Ok v
    /\ error (snd v) = Some (ExceedsPO (L "PO-1") (L "PT-2")).
Proof.
  take_result (validate_invoice_with_po_level ten_remaining
                 twelve_on_the_second).
  split; reflexivity.
Qed.

(** Two vendors in one selection: blocked by the basic rule, whatever
    the quantities. *)
Example two_vendors_are_blocked :
  exists v vendors,
    validate_invoice_with_po_level hundred_remaining
      (selection [line 7 "10 USD" 1 1 10; vendor_line "V2" 7 "10 USD" 1 1 10])
    = Ok v
    /\ can_invoice (fst v) = false
    /\ error (snd v) = Some (MultipleVendors vendors).
Proof.
  take_result (validate_invoice_with_po_level hundred_remaining
                 (selection [line 7 "10 USD" 1 1 10;
                             vendor_line "V2" 7 "10 USD" 1 1 10])).
  exists [L "V1"; L "V2"].
  split; [reflexivity | split; reflexivity].
Qed.

End TotalsExamples.

(** ** The ceiling in binary64 *)

Section CeilingInBinary64.
Import PyStr PyNum Frame Service PyFloat FloatExamples.


(** The product of 100 by 1.1 is 110.00000000000001, above 110: the
    selection of 110 units passes. *)
Example decimal_110_percent_of_100_passes_in_binary64 :
  exists v,
    @validate_invoice_with_po_level Binary64 remaining_100 selected_110 = Ok v
    /\ can_invoice (fst v) = true
    /\ error (snd v) = None.
Proof.
  eexists. split; [vm_compute; reflexivity|]. split; reflexivity.
Qed.

End CeilingInBinary64.

(** ** More on payment terms *)

Section MoreTermFacts.
Import PyStr PyDate PaymentTerms Spec.

Lemma upper_char_idem (c : ascii) : upper_char (upper_char c) = upper_char c.
Proof. destruct c as [[] [] [] [] [] [] [] []]; reflexivity. Qed.

Lemma upper_idem (s : str) : upper (upper s) = upper s.
Proof.
  unfold upper. rewrite map_map. apply map_ext. apply upper_char_idem.
Qed.

Lemma upper_char_marker (c : ascii) :
  eqc (upper_char c) "%" || eqc (upper_char c) ":" = eqc c "%" || eqc c ":".
Proof. destruct c as [[] [] [] [] [] [] [] []]; reflexivity. Qed.

Lemma upper_keeps_markers (s : str) :
  existsb (fun c => eqc c "%" || eqc c ":") (upper s)
  = existsb (fun c => eqc c "%" || eqc c ":") s.
Proof.
  induction s as [|c s IH]; [reflexivity|].
  cbn [upper map existsb]. fold (upper s). now rewrite IH, upper_char_marker.
Qed.

Lemma upper_app (a b : str) : upper (a ++ b) = upper a ++ upper b.
Proof. apply map_app. Qed.

(** The parser does not look at the case of the letters of a label:
    the category, the extracted NET and AMS days, the final days of a
    split and the day count are those of the label in upper case. *)
Theorem parser_ignores_case (term_name description : str) :
  categorize_payment_term (Some (upper term_name)) description
  = categorize_payment_term (Some term_name) description
  /\ extract_days_from_net_term (Some (upper term_name))
     = extract_days_from_net_term (Some term_name)
  /\ extract_days_from_ams_term (Some (upper term_name))
     = extract_days_from_ams_term (Some term_name)
  /\ extract_final_payment_days (upper term_name) (upper description)
     = extract_final_payment_days term_name description
  /\ PaymentTerms.calculate_days_from_term_name (Some (upper term_name))
     = PaymentTerms.calculate_days_from_term_name (Some term_name).
Proof.
  assert (Hcat : forall d,
    categorize_payment_term (Some (upper term_name)) d
    = categorize_payment_term (Some term_name) d).
  { intros d. unfold categorize_payment_term.
    rewrite !split_marker_existsb, upper_keeps_markers, upper_idem.
    reflexivity. }
  assert (Hnet : extract_days_from_net_term (Some (upper term_name))
                 = extract_days_from_net_term (Some term_name)).
  { unfold extract_days_from_net_term. now rewrite upper_idem. }
  assert (Hams : extract_days_from_ams_term (Some (upper term_name))
                 = extract_days_from_ams_term (Some term_name)).
  { unfold extract_days_from_ams_term. now rewrite upper_idem. }
  assert (Hfinal : forall d,
    extract_final_payment_days (upper term_name) (upper d)
    = extract_final_payment_days term_name d).
  { intros d. unfold extract_final_payment_days.
    rewrite !upper_app, !upper_idem. reflexivity. }
  split; [apply Hcat|]. split; [exact Hnet|]. split; [exact Hams|].
  split; [apply Hfinal|].
  unfold PaymentTerms.calculate_days_from_term_name.
  pose proof (Hfinal []) as Hsplit. change (upper []) with (@nil ascii) in Hsplit.
  rewrite Hcat, Hnet, Hams, Hsplit. reflexivity.
Qed.

Example net_5_days_in_lower_case :
  calculate_due_date (Some (L "Net 5 days by TT")) (mkdate 2025 1 17) []
  = Ok (Some (mkdate 2025 1 22), ExplInvoicePlus 5, false).
Proof. reflexivity. Qed.

(** *** Day counts are natural numbers *)

Lemma re_kw_num_all (kw s ds r : str) :
  re_kw_num kw s = Some (ds, r) -> Forall (fun c => is_digit c = true) ds.
Proof.
  unfold re_kw_num. intros Hm.
  destruct (strip_prefix kw s) as [r1|]; simpl in Hm; [|discriminate].
  destruct (spaces1 r1) as [r2|]; simpl in Hm; [|discriminate].
  eapply digits1_all; eassumption.
Qed.

Lemma re_kw_opt_num_all (kw s ds r : str) :
  re_kw_opt_num kw s = Some (ds, r) -> Forall (fun c => is_digit c = true) ds.
Proof.
  unfold re_kw_opt_num. intros Hm.
  destruct (strip_prefix kw s) as [r1|]; simpl in Hm; [|discriminate].
  eapply digits1_all; eassumption.
Qed.

Lemma re_num_days_all (s ds r : str) :
  re_num_days s = Some (ds, r) -> Forall (fun c => is_digit c = true) ds.
Proof.
  unfold re_num_days. intros Hm.
  destruct (digits1 s) as [[ds' r1]|] eqn:Hd; simpl in Hm; [|discriminate].
  destruct (days_opt_s (spaces0 r1)); simpl in Hm; [|discriminate].
  inversion Hm; subst. eapply digits1_all; eassumption.
Qed.

Lemma search_int_nonneg (m : matcher) (s : str) (n : Z) :
  captures_digits m -> search_int m s = Some n -> 0 <= n.
Proof.
  intros Hm. unfold search_int. intros Hs.
  destruct (re_search m s) as [[ds r]|] eqn:Hre; simpl in Hs; [|discriminate].
  inversion Hs; subst.
  apply re_search_found in Hre as [s' Hfound].
  apply int_of_digits_nonneg. eapply Hm; eassumption.
Qed.

Lemma re_findall_all (m : matcher) (s : str) :
  captures_digits m ->
  Forall (fun ds => Forall (fun c => is_digit c = true) ds) (re_findall m s).
Proof.
  intros Hm. unfold re_findall. generalize (S (length s)) as fuel.
  intros fuel. revert s. induction fuel as [|fuel IH]; intros s; simpl;
    [constructor|].
  destruct (re_search m s) as [[g rest]|] eqn:Hre; [|constructor].
  constructor.
  - apply re_search_found in Hre as [s' Hfound]. eapply Hm; eassumption.
  - destruct (length rest <? length s)%nat; [apply IH | constructor].
Qed.

Lemma extract_final_payment_days_nonneg (term_name description : str) (n : Z) :
  extract_final_payment_days term_name description = Some n -> 0 <= n.
Proof.
  unfold extract_final_payment_days.
  pose proof (re_findall_all (re_kw_num_days (L "NET"))
                (upper (term_name ++ L " " ++ description))) as Hall.
  specialize (Hall (fun s ds r => re_kw_num_days_all (L "NET") s ds r)).
  apply Forall_rev in Hall.
  destruct (rev (re_findall _ _)) as [|last rest]; [discriminate|].
  intros [= <-]. apply int_of_digits_nonneg. now inversion Hall.
Qed.

(** Neither accessor of the day count ever answers a negative number of
    days. *)
Theorem day_counts_are_not_negative (term_name : option (list ascii)) :
  0 <= PaymentTerms.calculate_days_from_term_name term_name
  /\ 0 <= InvoiceData.calculate_days_from_term_name term_name.
Proof.
  split.
  - unfold PaymentTerms.calculate_days_from_term_name.
    destruct term_name as [name|]; [|lia].
    destruct (categorize_payment_term (Some name) []); try lia.
    + destruct (extract_days_from_net_term (Some name)) as [n|] eqn:Hn; [|lia].
      eapply search_int_kw_num_days_nonneg. exact Hn.
    + destruct (extract_days_from_ams_term (Some name)) as [n|] eqn:Hn; [|lia].
      apply extract_days_from_ams_term_nonneg in Hn. lia.
    + destruct (extract_final_payment_days name []) as [n|] eqn:Hn; [|lia].
      eapply extract_final_payment_days_nonneg. exact Hn.
  - unfold InvoiceData.calculate_days_from_term_name.
    destruct term_name as [name|]; [|lia].
    destruct (any_kw _ _); [lia|].
    destruct (search_int (re_kw_num (L "NET")) _) as [n|] eqn:Hnet.
    { eapply search_int_nonneg; [|exact Hnet].
      intros s ds r. apply re_kw_num_all. }
    destruct (search_int (re_kw_num (L "AMS")) _) as [n|] eqn:Hams.
    { enough (0 <= n) by lia. eapply search_int_nonneg; [|exact Hams].
      intros s ds r. apply re_kw_num_all. }
    destruct (search_int re_num_days _) as [n|] eqn:Hdays.
    { eapply search_int_nonneg; [|exact Hdays].
      intros s ds r. apply re_num_days_all. }
    destruct (search_int re_num _) as [n|] eqn:Hnum; [|lia].
    eapply search_int_nonneg; [|exact Hnum].
    intros s ds r. apply digits1_all.
Qed.

End MoreTermFacts.

(** ** More on due dates *)

Section MoreDueDateFacts.
Import PyStr PyDate PaymentTerms Spec.

Lemma special_date_due_review (term_name : str) (d : date)
  (due : option date) (e : explanation) (review : bool) :
  special_date_due term_name d = Ok (due, e, review) -> review = true.
Proof.
  unfold special_date_due.
  destruct (contains (L "25TH") (upper term_name)).
  { destruct (if day d <=? 25 then _ else _); cbn; congruence. }
  destruct (contains (L "EOM") (upper term_name)).
  { destruct (search_int _ _); [|congruence].
    destruct (if month d =? 12 then _ else _) as [last_day|]; cbn; [|congruence].
    destruct (add_days last_day z); cbn; congruence. }
  destruct (contains (L "MOA") (upper term_name)); [|congruence].
  destruct (search_int _ _); [|congruence].
  destruct (add_days d z); cbn; congruence.
Qed.

(** The parser fails closed: a result without due date always asks for
    a manual review, and only a NET, an AMS or an advance term is ever
    answered without asking for one. *)
Theorem due_date_fails_closed (term_name : option (list ascii)) (d : date)
  (description : str) (due : option date) (e : explanation) (review : bool) :
  calculate_due_date term_name d description = Ok (due, e, review) ->
  (due = None -> review = true)
  /\ (review = false ->
      In (categorize_payment_term term_name description)
         [NET_DAYS; AMS_DAYS; ADVANCE]).
Proof.
  unfold calculate_due_date.
  destruct term_name as [name|]; [|intros [= <- <- <-]; split; congruence].
  destruct (categorize_payment_term (Some name) description) eqn:Hcat.
  - destruct (extract_days_from_net_term (Some name)) as [n|].
    + destruct (add_days d n); cbn; [|discriminate].
      intros [= <- <- <-]. split; [discriminate | simpl; auto].
    + intros [= <- <- <-]. split; [reflexivity | discriminate].
  - destruct (extract_days_from_ams_term (Some name)) as [n|].
    + destruct (calculate_ams_due_date d n); cbn; [|discriminate].
      intros [= <- <- <-]. split; [discriminate | simpl; auto].
    + intros [= <- <- <-]. split; [reflexivity | discriminate].
  - intros [= <- <- <-]. split; [discriminate | simpl; auto].
  - destruct (add_days d 30); cbn; [|discriminate].
    intros [= <- <- <-]. split; [reflexivity | discriminate].
  - destruct (extract_final_payment_days name description) as [n|].
    + destruct (add_days d n); cbn; [|discriminate].
      intros [= <- <- <-]. split; [reflexivity | discriminate].
    + destruct (add_days d 30); cbn; [|discriminate].
      intros [= <- <- <-]. split; [reflexivity | discriminate].
  - intros Hs. apply special_date_due_review in Hs. subst review.
    split; [reflexivity | discriminate].
  - destruct (add_days d 30); cbn; [|discriminate].
    intros [= <- <- <-]. split; [reflexivity | discriminate].
Qed.

(** A NET label without a day count gives no date and asks for a
    review. *)
Lemma due_date_fails_closed_witness :
  (@None date = None -> true = true)
  /\ (true = false ->
      In (categorize_payment_term (Some (L "NET DAYS")) [])
         [NET_DAYS; AMS_DAYS; ADVANCE]).
Proof.
  apply (due_date_fails_closed (Some (L "NET DAYS")) (mkdate 2025 1 17) []
           None (ExplNoNetDays (L "NET DAYS")) true).
  reflexivity.
Defined.

Lemma on_or_before_refl (d : date) : on_or_before d d.
Proof. unfold on_or_before. lia. Qed.

Lemma on_or_before_trans (a b c : date) :
  on_or_before a b -> on_or_before b c -> on_or_before a c.
Proof. unfold on_or_before. lia. Qed.

Lemma tomorrow_after (d d' : date) : tomorrow d = Ok d' -> on_or_before d d'.
Proof.
  unfold tomorrow, on_or_before.
  destruct (day d <? days_in_month (year d) (month d));
    [intros [= <-]; simpl; lia|].
  destruct (month d <? 12); [intros [= <-]; simpl; lia|].
  destruct (year d <? MAXYEAR); [intros [= <-]; simpl; lia | discriminate].
Qed.

Lemma iter_tomorrow_after (n : nat) (d d' : date) :
  iter_days tomorrow n d = Ok d' -> on_or_before d d'.
Proof.
  revert d. induction n as [|n IH]; intros d; simpl.
  - intros [= <-]. apply on_or_before_refl.
  - destruct (tomorrow d) as [d1|] eqn:Ht; cbn; [|discriminate].
    intros Hrest. eapply on_or_before_trans;
      [apply tomorrow_after; exact Ht | apply IH; exact Hrest].
Qed.

Lemma add_days_after (d d' : date) (n : Z) :
  0 <= n -> add_days d n = Ok d' -> on_or_before d d'.
Proof.
  intros Hn. unfold add_days.
  destruct (Z.leb_spec 0 n); [|lia].
  apply iter_tomorrow_after.
Qed.

Lemma make_inv (y m dd : Z) (x : date) : make y m dd = Ok x -> x = mkdate y m dd.
Proof. unfold make. destruct (valid _); [now intros [= <-] | discriminate]. Qed.

Lemma special_date_due_after (term_name : str) (d due : date)
  (e : explanation) (review : bool) :
  valid d = true ->
  special_date_due term_name d = Ok (Some due, e, review) ->
  on_or_before d due.
Proof.
  intros Hv. apply valid_inv in Hv as (Hy & Hm & Hd).
  pose proof (days_in_month_bounds (year d) (month d)) as Hdim.
  unfold special_date_due.
  destruct (contains (L "25TH") (upper term_name)).
  { destruct (Z.leb_spec (day d) 25).
    - destruct (make (year d) (month d) 25) as [x|] eqn:Hx; cbn; [|discriminate].
      apply make_inv in Hx. intros [= <- _ _]. subst x.
      unfold on_or_before; simpl. lia.
    - destruct (Z.eqb_spec (month d) 12).
      + destruct (make (year d + 1) 1 25) as [x|] eqn:Hx; cbn; [|discriminate].
        apply make_inv in Hx. intros [= <- _ _]. subst x.
        unfold on_or_before; simpl. lia.
      + destruct (make (year d) (month d + 1) 25) as [x|] eqn:Hx; cbn;
          [|discriminate].
        apply make_inv in Hx. intros [= <- _ _]. subst x.
        unfold on_or_before; simpl. lia. }
  destruct (contains (L "EOM") (upper term_name)).
  { destruct (search_int _ _) as [days|] eqn:Hdays; [|discriminate].
    assert (Hpos : 0 <= days).
    { eapply search_int_nonneg; [|exact Hdays].
      intros s ds r. apply re_kw_opt_num_all. }
    assert (Hlast : forall last_day,
      (if month d =? 12 then make (year d) 12 31
       else next_month ← make (year d) (month d + 1) 1;
            add_days next_month (-1)) = Ok last_day ->
      on_or_before d last_day).
    { intros last_day. destruct (Z.eqb_spec (month d) 12) as [H12|H12].
      - intros Hx. apply make_inv in Hx. subst last_day.
        unfold on_or_before; simpl. lia.
      - destruct (make (year d) (month d + 1) 1) as [x|] eqn:Hx; cbn;
          [|discriminate].
        apply make_inv in Hx. subst x.
        unfold add_days. change (0 <=? -1) with false.
        change (Z.to_nat (- (-1))) with 1%nat.
        cbn [iter_days]. unfold yesterday. cbn [year month day].
        change (1 <? 1) with false. cbv iota.
        destruct (Z.ltb_spec 1 (month d + 1)); [|lia].
        cbn [mbind result_bind]. intros [= <-]. unfold on_or_before; simpl.
        replace (month d + 1 - 1) with (month d) by lia. lia. }
    destruct (if month d =? 12 then _ else _) as [last_day|]; cbn;
      [|discriminate].
    specialize (Hlast last_day eq_refl).
    destruct (add_days last_day days) as [x|] eqn:Hadd; cbn; [|discriminate].
    intros [= <- _ _].
    eapply on_or_before_trans; [exact Hlast|].
    eapply add_days_after; eassumption. }
  destruct (contains (L "MOA") (upper term_name)); [|discriminate].
  destruct (search_int re_num term_name) as [days|] eqn:Hdays; [|discriminate].
  assert (Hpos : 0 <= days).
  { eapply search_int_nonneg; [|exact Hdays].
    intros s ds r. apply digits1_all. }
  destruct (add_days d days) as [x|] eqn:Hadd; cbn; [|discriminate].
  intros [= <- _ _]. eapply add_days_after; eassumption.
Qed.

(** Whatever the term, a computed due date is never before the invoice
    date. *)
Theorem due_date_not_before_invoice_date (term_name : option (list ascii))
  (d due : date) (description : str) (e : explanation) (review : bool) :
  valid d = true ->
  calculate_due_date term_name d description = Ok (Some due, e, review) ->
  on_or_before d due.
Proof.
  intros Hv. unfold calculate_due_date.
  destruct term_name as [name|]; [|discriminate].
  assert (H30 : forall x, add_days d 30 = Ok x -> on_or_before d x).
  { intros x. apply add_days_after. lia. }
  destruct (categorize_payment_term (Some name) description).
  - destruct (extract_days_from_net_term (Some name)) as [n|] eqn:Hn;
      [|discriminate].
    destruct (add_days d n) as [x|] eqn:Hadd; cbn; [|discriminate].
    intros [= <- _ _]. eapply add_days_after; [|exact Hadd].
    eapply search_int_kw_num_days_nonneg. exact Hn.
  - destruct (extract_days_from_ams_term (Some name)) as [n|] eqn:Hn;
      [|discriminate].
    unfold calculate_ams_due_date.
    destruct (first_of_next_month d) as [first|] eqn:Hf; cbn; [|discriminate].
    destruct (add_days first n) as [x|] eqn:Hadd; cbn; [|discriminate].
    intros [= <- _ _].
    apply on_or_before_trans with first.
    + apply (first_of_next_month_is_next_day _ _ Hv) in Hf.
      apply tomorrow_after in Hf.
      apply valid_inv in Hv as (_ & _ & Hd).
      eapply on_or_before_trans; [|exact Hf].
      unfold on_or_before, last_day_of_month; simpl. lia.
    + eapply add_days_after; [|exact Hadd].
      now apply extract_days_from_ams_term_nonneg in Hn.
  - intros [= <- _ _]. apply on_or_before_refl.
  - destruct (add_days d 30) as [x|] eqn:Hadd; cbn; [|discriminate].
    intros [= <- _ _]. now apply H30.
  - destruct (extract_final_payment_days name description) as [n|] eqn:Hn.
    + destruct (add_days d n) as [x|] eqn:Hadd; cbn; [|discriminate].
      intros [= <- _ _]. eapply add_days_after; [|exact Hadd].
      eapply extract_final_payment_days_nonneg. exact Hn.
    + destruct (add_days d 30) as [x|] eqn:Hadd; cbn; [|discriminate].
      intros [= <- _ _]. now apply H30.
  - apply special_date_due_after. exact Hv.
  - destruct (add_days d 30) as [x|] eqn:Hadd; cbn; [|discriminate].
    intros [= <- _ _]. now apply H30.
Qed.

(** End of month plus 90 days, from 2025-01-17: 2025-05-01. *)
Lemma due_date_not_before_invoice_date_witness :
  on_or_before (mkdate 2025 1 17) (mkdate 2025 5 1).
Proof.
  apply (due_date_not_before_invoice_date (Some (L "EOM 90")) (mkdate 2025 1 17)
           (mkdate 2025 5 1) [] (ExplEomPlus 90) true);
    reflexivity.
Defined.

Example the_25th_of_next_month :
  calculate_due_date (Some (L "TT on the 25th of every month"))
                     (mkdate 2025 12 26) []
  = Ok (Some (mkdate 2026 1 25), Expl25th, true).
Proof. reflexivity. Qed.

End MoreDueDateFacts.

(** ** More on file names *)

Section MoreFileNameFacts.
Import PyStr Attachments Spec.

Lemma cleaned_clean_char (c : ascii) :
  is_clean_char c = true -> cleaned [c] = [c].
Proof. destruct c as [[] [] [] [] [] [] [] []]; vm_compute; congruence. Qed.

Lemma cleaned_of_clean (s : str) :
  Forall (fun c => is_clean_char c = true) s -> cleaned s = s.
Proof.
  induction 1 as [|c s Hc _ IH]; [reflexivity|].
  change (c :: s) with ([c] ++ s).
  now rewrite cleaned_app, cleaned_clean_char, IH.
Qed.

Lemma cleaned_idem (s : str) : cleaned (cleaned s) = cleaned s.
Proof. apply cleaned_of_clean, cleaned_is_clean. Qed.

Lemma sanitize_filename_is_clean (filename : str) :
  Forall (fun c => is_clean_char c = true) (sanitize_filename filename).
Proof.
  pose proof (cleaned_is_clean filename) as Hclean.
  pose proof (sanitize_filename_cases filename) as Hcases.
  destruct (rsplit1 "." (cleaned filename)) as [[base ext]|] eqn:Hsplit.
  - apply rsplit1_inv in Hsplit as [Heq _]. rewrite Heq in Hclean.
    apply Forall_app in Hclean as [Hbase Hext].
    rewrite Hcases. apply Forall_app. split; [|assumption].
    now apply Forall_take.
  - now rewrite Hcases.
Qed.

Lemma firstn_100_twice (s : str) : firstn 100 (firstn 100 s) = firstn 100 s.
Proof. now rewrite firstn_firstn. Qed.

(** Sanitizing a sanitized name changes nothing. *)
Theorem sanitize_filename_idempotent (filename : str) :
  sanitize_filename (sanitize_filename filename) = sanitize_filename filename.
Proof.
  pose proof (sanitize_filename_is_clean filename) as Hclean.
  pose proof (sanitize_filename_cases (sanitize_filename filename)) as Hagain.
  rewrite (cleaned_of_clean _ Hclean) in Hagain.
  pose proof (sanitize_filename_cases filename) as Hcases.
  destruct (rsplit1 "." (cleaned filename)) as [[base ext]|] eqn:Hsplit.
  - apply rsplit1_inv in Hsplit as [_ Hext].
    rewrite Hcases in Hagain |- *.
    rewrite (rsplit1_app "." (firstn 100 base) ext Hext) in Hagain.
    now rewrite Hagain, firstn_100_twice.
  - rewrite Hcases in Hagain |- *. now rewrite Hsplit in Hagain.
Qed.

Lemma dots_of_char (c : ascii) :
  count_char "." (cleaned [c]) = count_char "." [c].
Proof. destruct c as [[] [] [] [] [] [] [] []]; reflexivity. Qed.

Lemma dots_are_kept (s : str) :
  count_char "." (cleaned s) = count_char "." s.
Proof.
  induction s as [|c s IH]; [reflexivity|].
  change (c :: s) with ([c] ++ s).
  now rewrite cleaned_app, !count_char_app, dots_of_char, IH.
Qed.

Lemma rsplit1_none_count (c : ascii) (s : str) :
  rsplit1 c s = None <-> count_char c s = 0%nat.
Proof.
  unfold count_char. induction s as [|x s IH]; simpl; [tauto|].
  destruct (rsplit1 c s) as [[a b]|].
  - split; [discriminate|]. intros Hcount.
    destruct (eqc c x); simpl in Hcount; [discriminate|].
    apply IH in Hcount. discriminate.
  - unfold eqc. rewrite (Ascii.eqb_sym x c).
    destruct (Ascii.eqb c x); simpl.
    + split; discriminate.
    + split; intros _; [now apply IH | reflexivity].
Qed.

(** The sanitized form of a name with an extension: the first hundred
    characters of the cleaned base, a dot, the cleaned extension. *)
Lemma sanitize_filename_with_extension (filename base ext : str) :
  rsplit1 "." filename = Some (base, ext) ->
  sanitize_filename filename
  = firstn 100 (cleaned base) ++ "."%char :: cleaned ext.
Proof.
  intros Hsplit. apply rsplit1_inv in Hsplit as [-> Hext].
  pose proof (sanitize_filename_cases (base ++ "."%char :: ext)) as Hcases.
  change (base ++ "."%char :: ext) with (base ++ ["."%char] ++ ext) in Hcases.
  rewrite !cleaned_app in Hcases.
  change (cleaned ["."%char] ++ cleaned ext)
    with ("."%char :: cleaned ext) in Hcases.
  rewrite rsplit1_app in Hcases; [exact Hcases|].
  apply rsplit1_none_count. rewrite dots_are_kept.
  now apply rsplit1_none_count.
Qed.

Lemma lower_of_letter (c : ascii) :
  is_lower (lower_char c) = true -> cleaned [c] = [lower_char c].
Proof. destruct c as [[] [] [] [] [] [] [] []]; vm_compute; congruence. Qed.

Lemma lower_char_idem (c : ascii) : lower_char (lower_char c) = lower_char c.
Proof. destruct c as [[] [] [] [] [] [] [] []]; reflexivity. Qed.

Lemma lower_idem (s : str) : lower (lower s) = lower s.
Proof.
  unfold lower. rewrite map_map. apply map_ext. intros c. apply lower_char_idem.
Qed.

Lemma cleaned_of_letters (s : str) :
  Forall (fun c => is_lower c = true) (lower s) -> cleaned s = lower s.
Proof.
  induction s as [|c s IH]; [reflexivity|].
  cbn [lower map]. intros Hall. apply Forall_cons in Hall as [Hc Hs].
  change (c :: s) with ([c] ++ s).
  rewrite cleaned_app, (lower_of_letter c Hc), (IH Hs). reflexivity.
Qed.

Lemma allowed_types_are_letters (t : str) :
  existsb (str_eqb t) ALLOWED_FILE_TYPES = true ->
  Forall (fun c => is_lower c = true) t.
Proof.
  unfold ALLOWED_FILE_TYPES, str_eqb. cbn [existsb].
  rewrite !orb_true_iff, !bool_decide_eq_true.
  intros [->|[->|[->|[->|?]]]]; try discriminate;
    vm_compute; repeat constructor.
Qed.

(** A file of an allowed type keeps its type, and with it its content
    type, when its name is sanitized. *)
Theorem sanitize_filename_keeps_allowed_type (filename : str) :
  existsb (str_eqb (file_type_of filename)) ALLOWED_FILE_TYPES = true ->
  file_type_of (sanitize_filename filename) = file_type_of filename
  /\ get_content_type (sanitize_filename filename) = get_content_type filename.
Proof.
  intros Hallowed.
  assert (Htype : file_type_of (sanitize_filename filename)
                  = file_type_of filename).
  { unfold file_type_of in *.
    destruct (rsplit1 "." filename) as [[base ext]|] eqn:Hsplit;
      [|discriminate].
    rewrite (sanitize_filename_with_extension _ _ _ Hsplit).
    apply allowed_types_are_letters in Hallowed.
    rewrite (cleaned_of_letters ext Hallowed).
    apply rsplit1_inv in Hsplit as [_ Hext].
    rewrite rsplit1_app.
    - apply lower_idem.
    - apply rsplit1_none_count. rewrite <- (cleaned_of_letters ext Hallowed).
      rewrite dots_are_kept. now apply rsplit1_none_count. }
  split; [assumption|].
  unfold get_content_type. fold (file_type_of (sanitize_filename filename)).
  fold (file_type_of filename). now rewrite Htype.
Qed.

Lemma sanitize_filename_keeps_allowed_type_witness :
  file_type_of (sanitize_filename (L "Q3 Invoice (final).PDF")) = L "pdf"
  /\ get_content_type (sanitize_filename (L "Q3 Invoice (final).PDF"))
     = L "application/pdf".
Proof.
  destruct (sanitize_filename_keeps_allowed_type (L "Q3 Invoice (final).PDF"))
    as [Htype Hcontent]; [vm_compute; reflexivity|].
  rewrite Htype, Hcontent. split; vm_compute; reflexivity.
Defined.

End MoreFileNameFacts.

(** ** The validation of the uploaded files *)

Section UploadValidationFacts.
Import PyStr Attachments Spec.

Lemma file_errors_of_nil (seen : gset (list ascii)) (file : UploadedFile) :
  file_errors_of seen file = []
  <-> acceptable_file file = true /\ name file ∉ seen.
Proof.
  unfold file_errors_of, acceptable_file.
  destruct (existsb _ ALLOWED_FILE_TYPES);
    destruct (Z.ltb_spec MAX_FILE_SIZE_BYTES (size file));
    destruct (Z.leb_spec (size file) MAX_FILE_SIZE_BYTES); try lia;
    destruct (is_valid_filename (name file));
    destruct (decide (name file ∈ seen)) as [Hin|Hout];
    rewrite ?(bool_decide_eq_true_2 _ Hin), ?(bool_decide_eq_false_2 _ Hout);
    cbn; split; try discriminate; try tauto;
    intros [? ?]; try discriminate; tauto.
Qed.

Lemma validate_file_seen (st : ValidationState) (idx : nat) (file : UploadedFile) :
  vs_seen_names (validate_file st idx file)
  = {[ name file ]} ∪ vs_seen_names st.
Proof. unfold validate_file. now destruct (file_errors_of _ _). Qed.

(** The list of errors only grows. *)
Lemma validate_files_from_errors_grow (files : list UploadedFile) :
  forall st idx,
    exists more,
      vs_errors (validate_files_from st idx files) = vs_errors st ++ more.
Proof.
  induction files as [|file files IH]; intros st idx; cbn [validate_files_from].
  - exists []. now rewrite app_nil_r.
  - destruct (IH (validate_file st idx file) (S idx)) as [more Hmore].
    rewrite Hmore. unfold validate_file.
    destruct (file_errors_of _ _); cbn [vs_errors].
    + now exists more.
    + rewrite <- app_assoc. eexists. reflexivity.
Qed.

Lemma app_eq_self {A : Type} (l more : list A) : l ++ more = l -> more = [].
Proof.
  intros Heq. apply (f_equal (@length A)) in Heq. rewrite length_app in Heq.
  destruct more; [reflexivity | simpl in Heq; lia].
Qed.

(** The loop adds no error exactly when every file is acceptable and no
    name occurs twice or was seen before. *)
Lemma validate_files_from_no_error (files : list UploadedFile) :
  forall st idx,
    vs_errors (validate_files_from st idx files) = vs_errors st
    <-> Forall (fun f => acceptable_file f = true) files
        /\ NoDup (map name files)
        /\ Forall (fun f => name f ∉ vs_seen_names st) files.
Proof.
  induction files as [|file files IH]; intros st idx; cbn [validate_files_from].
  - split; [intros _; repeat constructor | reflexivity].
  - pose proof (validate_file_seen st idx file) as Hseen.
    pose proof (file_errors_of_nil (vs_seen_names st) file) as Hnil.
    specialize (IH (validate_file st idx file) (S idx)).
    destruct (validate_files_from_errors_grow files
                (validate_file st idx file) (S idx)) as [more Hmore].
    assert (Hfresh :
      Forall (fun f => name f ∉ vs_seen_names (validate_file st idx file)) files
      <-> (name file ∉ map name files)
          /\ Forall (fun f => name f ∉ vs_seen_names st) files).
    { rewrite Hseen, !List.Forall_forall. split.
      - intros Hall. split.
        + intros Hin. apply list_elem_of_In, in_map_iff in Hin
            as (g & Hname & Hg).
          apply (Hall g Hg). rewrite Hname.
          apply elem_of_union. left. now apply elem_of_singleton.
        + intros g Hg Hin. apply (Hall g Hg).
          apply elem_of_union. now right.
      - intros [Hnew Hall] g Hg Hin.
        apply elem_of_union in Hin as [Hin|Hin].
        + apply elem_of_singleton in Hin. apply Hnew.
          rewrite <- Hin. apply list_elem_of_In, in_map. exact Hg.
        + exact (Hall g Hg Hin). }
    cbn [map]. rewrite NoDup_cons, !Forall_cons.
    destruct (file_errors_of (vs_seen_names st) file) as [|e errs] eqn:Herrs.
    + assert (Hv : vs_errors (validate_file st idx file) = vs_errors st).
      { unfold validate_file. now rewrite Herrs. }
      rewrite Hv in IH. rewrite IH, Hfresh.
      destruct Hnil as [Hacc _]. specialize (Hacc eq_refl). tauto.
    + assert (Hv : vs_errors (validate_file st idx file)
                   = vs_errors st ++ [FileErrors idx (name file) (e :: errs)]).
      { unfold validate_file. now rewrite Herrs. }
      split.
      * intros Heq. rewrite Hmore, Hv, <- app_assoc in Heq.
        apply app_eq_self in Heq. discriminate.
      * intros ((Hacc & _) & _ & Hout & _).
        destruct Hnil as [_ Hnil]. now specialize (Hnil (conj Hacc Hout)).
Qed.

(** What the loop adds to the total is at most the size limit per
    file. *)
Lemma validate_files_from_total (files : list UploadedFile) :
  forall st idx,
    vs_total_size (validate_files_from st idx files)
    <= vs_total_size st + Z.of_nat (length files) * MAX_FILE_SIZE_BYTES.
Proof.
  induction files as [|file files IH]; intros st idx;
    cbn [validate_files_from length]; [lia|].
  specialize (IH (validate_file st idx file) (S idx)).
  assert (Hstep : vs_total_size (validate_file st idx file)
                  <= vs_total_size st + MAX_FILE_SIZE_BYTES).
  { unfold validate_file.
    destruct (file_errors_of (vs_seen_names st) file) eqn:Herrs;
      cbn [vs_total_size].
    - apply file_errors_of_nil in Herrs as [Hacc _].
      unfold acceptable_file in Hacc.
      apply andb_true_iff in Hacc as [Hacc _].
      apply andb_true_iff in Hacc as [_ Hsize].
      apply Z.leb_le in Hsize. lia.
    - unfold MAX_FILE_SIZE_BYTES, MAX_FILE_SIZE_MB. lia. }
  lia.
Qed.

(** With no new error, the metadata lists the files in their order. *)
Lemma validate_files_from_metadata (files : list UploadedFile) :
  forall st idx,
    vs_errors (validate_files_from st idx files) = vs_errors st ->
    map meta_file_object (vs_metadata (validate_files_from st idx files))
    = map meta_file_object (vs_metadata st) ++ files.
Proof.
  induction files as [|file files IH]; intros st idx;
    cbn [validate_files_from]; intros Heq.
  - now rewrite app_nil_r.
  - destruct (validate_files_from_errors_grow files
                (validate_file st idx file) (S idx)) as [more Hmore].
    specialize (IH (validate_file st idx file) (S idx)).
    unfold validate_file in *.
    destruct (file_errors_of (vs_seen_names st) file) as [|e errs];
      cbn [vs_errors vs_metadata] in *.
    + rewrite (IH Heq), map_app, <- app_assoc. reflexivity.
    + rewrite Hmore, <- app_assoc in Heq.
      apply app_eq_self in Heq. discriminate.
Qed.

Lemma validate_files_from_no_total_error (files : list UploadedFile) :
  forall st idx,
    In TotalTooLarge (vs_errors (validate_files_from st idx files)) ->
    In TotalTooLarge (vs_errors st).
Proof.
  induction files as [|file files IH]; intros st idx;
    cbn [validate_files_from]; [tauto|].
  intros Hin. apply IH in Hin. unfold validate_file in Hin.
  destruct (file_errors_of (vs_seen_names st) file); cbn [vs_errors] in Hin;
    [assumption|].
  apply in_app_or in Hin as [Hin|[Hin|[]]]; [assumption | discriminate].
Qed.

Lemma total_size_within_limit (files : list UploadedFile) (st : ValidationState) :
  (length files <= MAX_FILES_COUNT)%nat ->
  vs_total_size st = 0 ->
  (MAX_FILE_SIZE_MB * Z.of_nat MAX_FILES_COUNT * 1024 * 1024
   <? vs_total_size (validate_files_from st 1 files)) = false.
Proof.
  intros Hcount Hzero. apply Z.ltb_ge.
  pose proof (validate_files_from_total files st 1) as Htotal.
  unfold MAX_FILE_SIZE_BYTES, MAX_FILE_SIZE_MB, MAX_FILES_COUNT in *. lia.
Qed.

(** The files are valid exactly when they are at most ten, each one is
    acceptable on its own and no two have the same name; the validated
    metadata then lists every file, in the order of the upload. *)
Theorem validate_uploaded_files_accepts (files : list UploadedFile) :
  let '(is_valid, errors, metadata) := validate_uploaded_files files in
  (is_valid = true
   <-> (length files <= MAX_FILES_COUNT)%nat
       /\ Forall (fun f => acceptable_file f = true) files
       /\ NoDup (map name files))
  /\ (is_valid = true ->
      errors = [] /\ map meta_file_object metadata = files).
Proof.
  unfold validate_uploaded_files.
  destruct files as [|file files].
  { split; [|tauto]. split; [intros _|reflexivity].
    split; [simpl; lia|]. split; constructor. }
  set (all := file :: files).
  destruct (Nat.ltb_spec MAX_FILES_COUNT (length all)) as [Hmany|Hfew].
  { split; [|discriminate]. split; [discriminate|]. intros [Hle _]. lia. }
  set (st0 := {| vs_errors := []; vs_metadata := [];
                 vs_total_size := 0; vs_seen_names := ∅ |}).
  rewrite (total_size_within_limit all st0 Hfew eq_refl).
  pose proof (validate_files_from_no_error all st0 1) as Hiff.
  pose proof (validate_files_from_metadata all st0 1) as Hmeta.
  cbn [vs_errors vs_metadata vs_seen_names st0 map app] in Hiff, Hmeta.
  assert (Hfresh : Forall (fun f : UploadedFile => name f ∉ (∅ : gset (list ascii))) all).
  { apply List.Forall_forall. intros f _. set_solver. }
  destruct (vs_errors (validate_files_from st0 1 all)) as [|e errs].
  - split; [|intros _; split; [reflexivity | now apply Hmeta]].
    split; [intros _|reflexivity].
    split; [assumption|]. destruct Hiff as [Hiff _].
    destruct (Hiff eq_refl) as (Hacc & Hnodup & _). now split.
  - split; [|discriminate]. split; [discriminate|].
    intros (_ & Hacc & Hnodup).
    destruct Hiff as [_ Hiff]. now specialize (Hiff (conj Hacc (conj Hnodup Hfresh))).
Qed.

(** The limit on the total size can never be the reason of a refusal:
    ten files of at most ten megabytes weigh at most the hundred
    megabytes allowed. *)
Theorem total_size_limit_is_never_reached (files : list UploadedFile) :
  ~ In TotalTooLarge (snd (fst (validate_uploaded_files files))).
Proof.
  unfold validate_uploaded_files.
  destruct files as [|file files]; [simpl; tauto|].
  set (all := file :: files).
  destruct (Nat.ltb_spec MAX_FILES_COUNT (length all)) as [Hmany|Hfew].
  { cbn [fst snd]. intros [Hin|[]]. discriminate. }
  set (st0 := {| vs_errors := []; vs_metadata := [];
                 vs_total_size := 0; vs_seen_names := ∅ |}).
  rewrite (total_size_within_limit all st0 Hfew eq_refl).
  cbn [fst snd]. intros Hin.
  now apply validate_files_from_no_total_error in Hin.
Qed.

End UploadValidationFacts.

(** ** More on the object store *)

Section MoreStoreFacts.
Import PyStr Attachments S3 Spec.

Lemma strip_prefix_app (p rest : str) : strip_prefix p (p ++ rest) = Some rest.
Proof.
  induction p as [|c p IH]; [reflexivity|].
  simpl. unfold eqc. now rewrite Ascii.eqb_refl.
Qed.

(** What one upload does to the bucket. *)
Lemma upload_invoice_file_objects (env : S3Env) (st : S3State)
  (file_content filename : str) :
  let '((ok, msg), st') := upload_invoice_file env st file_content filename in
  if ok
  then objects st' = objects st ++ [(msg, file_content)]
       /\ in_invoice_folder msg = true
  else objects st' = objects st.
Proof.
  unfold upload_invoice_file.
  destruct (put_fault env (requests st)) as [[]|]; try reflexivity.
  split; [reflexivity|].
  unfold in_invoice_folder, S3_FOLDER_PREFIX. now rewrite strip_prefix_app.
Qed.

Lemma batch_step_keys (env : S3Env) (r : BatchResult) (st : S3State)
  (file : str * str) :
  let r' := fst (batch_step env (r, st) file) in
  let st' := snd (batch_step env (r, st) file) in
  exists added,
    objects st' = objects st ++ added
    /\ uploaded r' = uploaded r ++ map fst added
    /\ Forall (fun o => in_invoice_folder (fst o) = true) added
    /\ Forall (fun o => snd o = fst file) added.
Proof.
  destruct file as [file_content filename]. unfold batch_step.
  pose proof (upload_invoice_file_objects env st file_content filename) as Hup.
  destruct (upload_invoice_file env st file_content filename)
    as [[[] msg] st']; cbn [fst snd uploaded].
  - destruct Hup as [Hobjects Hfolder].
    exists [(msg, file_content)]. split; [assumption|].
    split; [reflexivity|]. split; now repeat constructor.
  - exists []. rewrite !app_nil_r. split; [assumption|]. now repeat split.
Qed.

Lemma batch_fold_keys (env : S3Env) (files : list (str * str)) :
  forall (r : BatchResult) (st : S3State),
    let r' := fst (fold_left (batch_step env) files (r, st)) in
    let st' := snd (fold_left (batch_step env) files (r, st)) in
    exists added,
      objects st' = objects st ++ added
      /\ uploaded r' = uploaded r ++ map fst added
      /\ Forall (fun o => in_invoice_folder (fst o) = true) added
      /\ Forall (fun o => In (snd o) (map fst files)) added.
Proof.
  induction files as [|file files IH]; intros r st; cbn [fold_left fst snd].
  - exists []. rewrite !app_nil_r. now repeat split.
  - pose proof (batch_step_keys env r st file) as Hstep.
    destruct (batch_step env (r, st) file) as [r1 st1]. cbn [fst snd] in Hstep.
    destruct Hstep as (added1 & Hobjects1 & Hkeys1 & Hfolder1 & Hfile1).
    destruct (IH r1 st1) as (added & Hobjects & Hkeys & Hfolder & Hfile).
    exists (added1 ++ added).
    rewrite Hobjects, Hobjects1, Hkeys, Hkeys1, map_app, <- !app_assoc.
    split; [reflexivity|]. split; [reflexivity|].
    split; [apply Forall_app; now split|].
    apply Forall_app. split.
    + eapply List.Forall_impl; [|exact Hfile1].
      intros o ->. now left.
    + eapply List.Forall_impl; [|exact Hfile]. intros o Ho. now right.
Qed.

Lemma batch_upload_keys (env : S3Env) (st : S3State)
  (files : list (str * str)) :
  exists added,
    objects (snd (batch_upload_invoice_files env st files))
    = objects st ++ added
    /\ uploaded (fst (batch_upload_invoice_files env st files))
       = map fst added
    /\ Forall (fun o => in_invoice_folder (fst o) = true) added
    /\ Forall (fun o => In (snd o) (map fst files)) added.
Proof.
  unfold batch_upload_invoice_files.
  destruct files as [|file files].
  - exists []. cbn [fst snd uploaded map]. rewrite app_nil_r.
    now repeat split.
  - set (r0 := {| success := false; uploaded := []; failed := [];
                  total := length (file :: files);
                  success_count := 0; error_count := 0 |}).
    pose proof (batch_fold_keys env (file :: files) r0 st) as Hkeys.
    destruct (fold_left (batch_step env) (file :: files) (r0, st)) as [r1 st1].
    cbn [fst snd uploaded] in *. exact Hkeys.
Qed.

Lemma batch_upload_requests (env : S3Env) (st : S3State)
  (files : list (str * str)) :
  requests (snd (batch_upload_invoice_files env st files))
  = (requests st + length files)%nat.
Proof.
  unfold batch_upload_invoice_files.
  destruct files as [|file files]; [simpl; lia|].
  set (r0 := {| success := false; uploaded := []; failed := [];
                total := length (file :: files);
                success_count := 0; error_count := 0 |}).
  pose proof (batch_fold_spec env (file :: files) r0 st) as Hspec.
  destruct (fold_left (batch_step env) (file :: files) (r0, st)) as [r1 st1].
  cbn [fst snd] in *. tauto.
Qed.

Lemma find_in_app {A : Type} (f : A -> bool) (l1 l2 : list A) :
  List.find f (l1 ++ l2)
  = match List.find f l1 with
    | Some x => Some x
    | None => List.find f l2
    end.
Proof.
  induction l1 as [|x l1 IH]; [reflexivity|].
  simpl. now destruct (f x).
Qed.

Lemma find_nothing {A : Type} (f : A -> bool) (l : list A) :
  (forall x, In x l -> f x = false) -> List.find f l = None.
Proof.
  induction l as [|x l IH]; [reflexivity|]. intros Hall.
  simpl. rewrite (Hall x (or_introl eq_refl)).
  apply IH. intros y Hy. apply Hall. now right.
Qed.

Lemma find_something {A : Type} (f : A -> bool) (l : list A) (x : A) :
  In x l -> f x = true -> exists y, List.find f l = Some y.
Proof.
  intros Hin Hx. destruct (List.find f l) as [y|] eqn:Hfind; [eauto|].
  now rewrite (find_none f l Hfind x Hin) in Hx.
Qed.

(** Reading a key after puts were added to the bucket: the last of the
    new puts under the key if there is one, what was there before
    otherwise. *)
Lemma get_object_after (st st' : S3State) (added : list (str * str))
  (key : str) :
  objects st' = objects st ++ added ->
  (In key (map fst added) ->
   exists o, In o added /\ fst o = key /\ get_object st' key = Some (snd o))
  /\ (~ In key (map fst added) -> get_object st' key = get_object st key).
Proof.
  intros Hobjects. unfold get_object.
  rewrite Hobjects, rev_app_distr, find_in_app. split.
  - intros Hin. apply in_map_iff in Hin as (o & Hkey & Ho).
    destruct (find_something (fun o => str_eqb (fst o) key) (rev added) o)
      as [y Hfind].
    + now apply in_rev in Ho.
    + unfold str_eqb. now apply bool_decide_eq_true.
    + rewrite Hfind. apply find_some in Hfind as [Hy Heq].
      exists y. split; [now apply in_rev|].
      unfold str_eqb in Heq. apply bool_decide_eq_true in Heq.
      now split.
  - intros Hnew. rewrite find_nothing; [reflexivity|].
    intros o Ho. apply not_true_is_false. intros Heq.
    unfold str_eqb in Heq. apply bool_decide_eq_true in Heq.
    apply Hnew. rewrite <- Heq. apply in_map. now apply in_rev.
Qed.

(** After a batch, every key it reports as uploaded is in the invoice
    folder and holds an object whose content is the content of one of
    the files of the batch; the object under any key the batch does not
    report is the one that was there before, or none as before; one
    request is made per file.  This holds whether or not the bucket
    already held objects under the reported keys. *)
Theorem batch_upload_stores_reported_keys (env : S3Env) (st : S3State)
  (files : list (str * str)) :
  let r := fst (batch_upload_invoice_files env st files) in
  let st' := snd (batch_upload_invoice_files env st files) in
  Forall (fun key => in_invoice_folder key = true) (uploaded r)
  /\ (forall key, In key (uploaded r) ->
       exists content,
         get_object st' key = Some content /\ In content (map fst files))
  /\ (forall key, ~ In key (uploaded r) ->
       get_object st' key = get_object st key)
  /\ requests st' = (requests st + length files)%nat.
Proof.
  cbv zeta.
  destruct (batch_upload_keys env st files)
    as (added & Hobjects & Hup & Hfolder & Hcontent).
  rewrite Hup.
  split; [now apply Forall_map|].
  split; [|split; [|apply batch_upload_requests]].
  - intros key Hkey.
    destruct (get_object_after st _ added key Hobjects) as [Hnew _].
    destruct (Hnew Hkey) as (o & Ho & _ & Hget).
    exists (snd o). split; [assumption|].
    rewrite List.Forall_forall in Hcontent. now apply Hcontent.
  - intros key Hkey.
    now destruct (get_object_after st _ added key Hobjects) as [_ Hold];
      apply Hold.
Qed.

Lemma delete_file_objects (env : S3Env) (st : S3State) (key : str) :
  delete_fault env (requests st) = false ->
  objects (snd (delete_file env st key))
  = List.filter (fun o => negb (str_eqb (fst o) key)) (objects st).
Proof. unfold delete_file. now intros ->. Qed.

Lemma filter_twice {A : Type} (f g : A -> bool) (l : list A) :
  List.filter f (List.filter g l) = List.filter (fun x => g x && f x) l.
Proof.
  induction l as [|x l IH]; [reflexivity|].
  simpl. destruct (g x); simpl; [destruct (f x)|]; now rewrite IH.
Qed.

Lemma filter_none {A : Type} (f : A -> bool) (l : list A) :
  (forall x, In x l -> f x = false) -> List.filter f l = [].
Proof.
  induction l as [|x l IH]; [reflexivity|]. intros Hall.
  simpl. rewrite (Hall x (or_introl eq_refl)).
  apply IH. intros y Hy. apply Hall. now right.
Qed.

Lemma filter_all {A : Type} (f : A -> bool) (l : list A) :
  (forall x, In x l -> f x = true) -> List.filter f l = l.
Proof.
  induction l as [|x l IH]; [reflexivity|]. intros Hall.
  simpl. rewrite (Hall x (or_introl eq_refl)). f_equal.
  apply IH. intros y Hy. apply Hall. now right.
Qed.

(** With a store that answers every deletion, the cleanup removes the
    objects of the given keys and no other. *)
Lemma cleanup_removes_keys (env : S3Env) (keys : list str) :
  (forall n, delete_fault env n = false) ->
  forall st,
    objects (cleanup_failed_uploads env st keys)
    = List.filter (fun o => negb (existsb (str_eqb (fst o)) keys)) (objects st).
Proof.
  intros Hhealthy. unfold cleanup_failed_uploads.
  induction keys as [|key keys IH]; intros st; cbn [fold_left existsb].
  - symmetry. apply filter_all. reflexivity.
  - rewrite IH, delete_file_objects by apply Hhealthy.
    rewrite filter_twice. apply List.filter_ext. intros o.
    now rewrite negb_orb.
Qed.

Lemma existsb_str_eqb (key : str) (keys : list str) :
  existsb (str_eqb key) keys = true <-> In key keys.
Proof.
  rewrite existsb_exists. unfold str_eqb. split.
  - intros (k & Hin & Heq). apply bool_decide_eq_true in Heq. now subst.
  - intros Hin. exists key. split; [assumption|].
    now apply bool_decide_eq_true.
Qed.

(** The cleanup of the keys of the objects that were added last removes
    these objects and no other. *)
Lemma cleanup_of_added (env : S3Env) (st st' : S3State)
  (added : list (str * str)) :
  objects st' = objects st ++ added ->
  (forall n, delete_fault env n = false) ->
  (forall o, In o (objects st) -> ~ In (fst o) (map fst added)) ->
  objects (cleanup_failed_uploads env st' (map fst added)) = objects st.
Proof.
  intros Hobjects Hhealthy Hfresh.
  rewrite cleanup_removes_keys by assumption.
  rewrite Hobjects, List.filter_app.
  rewrite filter_all, filter_none; [apply app_nil_r | |].
  - intros o Ho. apply negb_false_iff, existsb_str_eqb. now apply in_map.
  - intros o Ho. apply negb_true_iff, not_true_is_false.
    intros Hin. apply existsb_str_eqb in Hin. exact (Hfresh o Ho Hin).
Qed.

(** A batch followed by the cleanup of the keys it reported leaves the
    bucket as it was, when the store answers the deletions and the
    bucket held no object under one of these keys. *)
Theorem cleanup_undoes_batch_upload (env : S3Env) (st : S3State)
  (files : list (str * str)) :
  let r := fst (batch_upload_invoice_files env st files) in
  let st' := snd (batch_upload_invoice_files env st files) in
  (forall n, delete_fault env n = false) ->
  (forall o, In o (objects st) -> ~ In (fst o) (uploaded r)) ->
  objects (cleanup_failed_uploads env st' (uploaded r)) = objects st.
Proof.
  intros r st' Hhealthy Hfresh. subst r st'.
  destruct (batch_upload_keys env st files) as (added & Hobjects & Hup & _).
  rewrite Hup in Hfresh |- *.
  exact (cleanup_of_added env st _ added Hobjects Hhealthy Hfresh).
Qed.

(** A key outside the invoice folder is refused before any request:
    whatever key is given, the deletion of an invoice file leaves every
    object outside the invoice folder in the bucket. *)
Theorem delete_invoice_file_spares_other_folders (env : S3Env) (st : S3State)
  (s3_key : str) (o : str * str) :
  In o (objects st) ->
  in_invoice_folder (fst o) = false ->
  In o (objects (snd (delete_invoice_file env st s3_key))).
Proof.
  intros Ho Houtside. unfold delete_invoice_file.
  destruct (strip_prefix (L "purchase-invoice-file/") s3_key) eqn:Hkey;
    [|assumption].
  unfold delete_file. destruct (delete_fault env (requests st)); [assumption|].
  cbn [snd objects]. apply filter_In. split; [assumption|].
  apply negb_true_iff, not_true_is_false. unfold str_eqb.
  intros Heq. apply bool_decide_eq_true in Heq.
  unfold in_invoice_folder, S3_FOLDER_PREFIX in Houtside.
  rewrite Heq, Hkey in Houtside. discriminate.
Qed.

End MoreStoreFacts.

Section MoreStoreExamples.
Import PyStr Attachments S3 CreatePage Spec Examples.

(** The two objects of an interrupted batch are removed again. *)
Lemma cleanup_undoes_batch_upload_witness :
  let st := {| objects := []; requests := 0 |} in
  let files := files_for_s3 page_env fresh_world in
  let r := fst (batch_upload_invoice_files second_put_fails st files) in
  let st' := snd (batch_upload_invoice_files second_put_fails st files) in
  length (uploaded r) = 2%nat
  /\ objects (cleanup_failed_uploads second_put_fails st' (uploaded r)) = [].
Proof.
  split; [vm_compute; reflexivity|].
  apply (cleanup_undoes_batch_upload second_put_fails
           {| objects := []; requests := 0 |}
           (files_for_s3 page_env fresh_world)).
  - intros n. reflexivity.
  - intros o [].
Defined.

(** A report kept outside the invoice folder survives the deletion of
    an invoice file, whatever key is asked for. *)
Lemma delete_invoice_file_spares_other_folders_witness :
  let st := {| objects := [(L "reports/2025.pdf", L "r");
                           (L "purchase-invoice-file/1_a.pdf", L "a")];
               requests := 0 |} in
  In (L "reports/2025.pdf", L "r")
     (objects (snd (delete_invoice_file second_put_fails st
                      (L "purchase-invoice-file/1_a.pdf")))).
Proof.
  apply (delete_invoice_file_spares_other_folders second_put_fails
           {| objects := [(L "reports/2025.pdf", L "r");
                          (L "purchase-invoice-file/1_a.pdf", L "a")];
              requests := 0 |}
           (L "purchase-invoice-file/1_a.pdf")
           (L "reports/2025.pdf", L "r")).
  - left. reflexivity.
  - vm_compute. reflexivity.
Defined.

End MoreStoreExamples.

(** ** More on exchange rates *)

Section MoreRateFacts.
Import PyStr PyNum Frame Currency Spec.
Context `{Num}.

(** A look-up changes the cache exactly when it asks the API and the
    API answers a rate: then that rate is returned and stored under the
    key of the pair for one hour.  In every other case, the same
    currency on both sides, a fresh entry in the cache, no API key, a
    failure of the API, the cache after the look-up is the cache before
    it; a rate of the database is never stored. *)
Theorem cache_changes_only_on_api_answer (src : RateSources) (now : Z)
  (cache : RateCache) (from_currency to_currency : str) :
  let r := get_latest_exchange_rate src now cache from_currency to_currency in
  (snd r = cache
   /\ forall rate,
        ~ api_answers src now cache from_currency to_currency rate)
  \/ (exists rate,
        api_answers src now cache from_currency to_currency rate
        /\ fst r = Some rate
        /\ snd r
           = {| rate_cache :=
                  <[cache_key from_currency to_currency := rate]>
                    (rate_cache cache);
                cache_expiry :=
                  <[cache_key from_currency to_currency := now + 3600]>
                    (cache_expiry cache) |}).
Proof.
  unfold get_latest_exchange_rate, api_answers.
  destruct (bool_decide (from_currency = to_currency)) eqn:Hne.
  { apply bool_decide_eq_true in Hne. left. split; [reflexivity|].
    intros rate (Hdiff & _). contradiction. }
  apply bool_decide_eq_false in Hne.
  destruct (cached cache _ now) as [hit|] eqn:Hcached.
  { left. split; [reflexivity|]. intros rate (_ & Hmiss & _). discriminate. }
  destruct (api_key src) as [[|c k]|] eqn:Hkey.
  - left. split; [reflexivity|].
    intros rate (_ & _ & (c & k & Hsome) & _). discriminate.
  - destruct (api_convert src from_currency to_currency) as [|[] [rate|]]
      eqn:Hapi;
      try (left; split; [reflexivity|];
           intros rate' (_ & _ & _ & Hanswer); discriminate).
    right. exists rate. split; [|now split].
    split; [assumption|]. split; [reflexivity|]. split; [eauto | reflexivity].
  - left. split; [reflexivity|].
    intros rate (_ & _ & (c & k & Hsome) & _). discriminate.
Qed.

Lemma lookup_cache_cases (src : RateSources) (now : Z)
  (cache : RateCache) (from_currency to_currency : str) :
  let r := get_latest_exchange_rate src now cache from_currency to_currency in
  snd r = cache
  \/ exists rate,
       from_currency <> to_currency
       /\ fst r = Some rate
       /\ snd r
          = {| rate_cache :=
                 <[cache_key from_currency to_currency := rate]>
                   (rate_cache cache);
               cache_expiry :=
                 <[cache_key from_currency to_currency := now + 3600]>
                   (cache_expiry cache) |}.
Proof.
  unfold get_latest_exchange_rate.
  destruct (bool_decide (from_currency = to_currency)) eqn:Hne; [now left|].
  apply bool_decide_eq_false in Hne.
  destruct (cached cache _ now); [now left|].
  destruct (api_key src) as [[|c k]|]; try now left.
  destruct (api_convert src from_currency to_currency) as [|[] [rate|]];
    try now left.
  right. exists rate. now repeat split.
Qed.

Lemma cached_after_insert (cache : RateCache) (key : str) (rate : num)
  (now now' : Z) :
  now' < now + 3600 ->
  cached {| rate_cache := <[key := rate]> (rate_cache cache);
            cache_expiry := <[key := now + 3600]> (cache_expiry cache) |}
         key now' = Some rate.
Proof.
  intros Hfresh. unfold cached. cbn [rate_cache cache_expiry].
  rewrite !lookup_insert_eq.
  now destruct (Z.ltb_spec now' (now + 3600)); [|lia].
Qed.

(** A rate the API answered is served from the cache during the next
    hour, whatever the sources have become. *)
Theorem api_rate_is_cached_for_an_hour (src src' : RateSources) (now now' : Z)
  (cache : RateCache) (from_currency to_currency : str) (rate : num)
  (c : ascii) (k : str) :
  from_currency <> to_currency ->
  cached cache (cache_key from_currency to_currency) now = None ->
  api_key src = Some (c :: k) ->
  api_convert src from_currency to_currency = ApiAnswer true (Some rate) ->
  now' < now + 3600 ->
  let r := get_latest_exchange_rate src now cache from_currency to_currency in
  fst r = Some rate
  /\ get_latest_exchange_rate src' now' (snd r) from_currency to_currency
     = (Some rate, snd r).
Proof.
  intros Hne Hmiss Hkey Hapi Hfresh. cbv zeta.
  assert (Hfirst :
    get_latest_exchange_rate src now cache from_currency to_currency
    = (Some rate,
       {| rate_cache :=
            <[cache_key from_currency to_currency := rate]> (rate_cache cache);
          cache_expiry :=
            <[cache_key from_currency to_currency := now + 3600]>
              (cache_expiry cache) |})).
  { unfold get_latest_exchange_rate.
    now rewrite (bool_decide_eq_false_2 _ Hne), Hmiss, Hkey, Hapi. }
  rewrite Hfirst. cbn [fst snd]. split; [reflexivity|].
  unfold get_latest_exchange_rate.
  rewrite (bool_decide_eq_false_2 _ Hne).
  now rewrite cached_after_insert.
Qed.

(** Asking twice at the same instant gives the same rate. *)
Lemma lookup_twice (src : RateSources) (now : Z) (cache : RateCache)
  (from_currency to_currency : str) :
  fst (get_latest_exchange_rate src now
         (snd (get_latest_exchange_rate src now cache from_currency to_currency))
         from_currency to_currency)
  = fst (get_latest_exchange_rate src now cache from_currency to_currency).
Proof.
  destruct (lookup_cache_cases src now cache
              from_currency to_currency) as [->|(rate & Hne & -> & ->)];
    [reflexivity|].
  unfold get_latest_exchange_rate.
  rewrite (bool_decide_eq_false_2 _ Hne).
  rewrite cached_after_insert by lia. reflexivity.
Qed.

(** The look-up of the USD rate that [calculate_exchange_rates] makes
    first does not change what the pair resolves to. *)
Lemma lookup_after_usd_lookup (src : RateSources) (now : Z)
  (cache : RateCache) (po_currency invoice_currency : str) :
  fst (get_latest_exchange_rate src now
         (snd (get_latest_exchange_rate src now cache (L "USD") invoice_currency))
         po_currency invoice_currency)
  = fst (get_latest_exchange_rate src now cache po_currency invoice_currency).
Proof.
  destruct (decide (po_currency = L "USD")) as [->|Hpo];
    [apply lookup_twice|].
  assert (Hkey : cache_key po_currency invoice_currency
                 <> cache_key (L "USD") invoice_currency).
  { intros Heq. now apply cache_key_inj in Heq. }
  destruct (lookup_cache_cases src now cache (L "USD") invoice_currency)
    as [->|(rate & _ & _ & ->)]; [reflexivity|].
  now apply lookup_after_other_entry.
Qed.

Lemma po_to_invoice_rate_entry (src : RateSources) (now : Z)
  (cache : RateCache) (po_currency invoice_currency : str) :
  po_currency <> invoice_currency ->
  fst (calculate_exchange_rates src now cache po_currency invoice_currency)
    !! L "po_to_invoice_rate"
  = Some (fst (get_latest_exchange_rate src now cache
                 po_currency invoice_currency)).
Proof.
  intros Hne. unfold calculate_exchange_rates.
  rewrite (bool_decide_eq_false_2 _ Hne).
  destruct (bool_decide (invoice_currency = L "USD")).
  - destruct (get_latest_exchange_rate src now cache po_currency
                                       invoice_currency) as [po cache2].
    apply lookup_insert_eq.
  - pose proof (lookup_after_usd_lookup src now cache po_currency
                  invoice_currency) as Hafter.
    destruct (get_latest_exchange_rate src now cache (L "USD")
                                       invoice_currency) as [usd cache1].
    cbn [snd] in Hafter.
    destruct (get_latest_exchange_rate src now cache1 po_currency
                                       invoice_currency) as [po cache2].
    cbn [fst] in Hafter. subst po. apply lookup_insert_eq.
Qed.

Lemma validity_is_the_pair_rate (rates : gmap (list ascii) (option num))
  (po_currency invoice_currency : str) :
  fst (validate_exchange_rates rates po_currency invoice_currency)
  = negb (negb (bool_decide (po_currency = invoice_currency))
          && rate_is_none rates "po_to_invoice_rate").
Proof.
  unfold validate_exchange_rates.
  destruct (negb (bool_decide (po_currency = invoice_currency))
            && rate_is_none rates "po_to_invoice_rate");
    now destruct (negb (bool_decide (invoice_currency = L "USD"))
                  && rate_is_none rates "usd_exchange_rate").
Qed.

(** The rates computed for an invoice are valid exactly when the two
    currencies are the same or the pair resolves to a rate; the rate
    from USD, asked for first, has no part in it. *)
Theorem rates_are_valid_iff_pair_resolves (src : RateSources) (now : Z)
  (cache : RateCache) (po_currency invoice_currency : str) :
  fst (validate_exchange_rates
         (fst (calculate_exchange_rates src now cache
                 po_currency invoice_currency))
         po_currency invoice_currency) = true
  <-> po_currency = invoice_currency
      \/ exists rate,
           fst (get_latest_exchange_rate src now cache
                  po_currency invoice_currency) = Some rate.
Proof.
  rewrite validity_is_the_pair_rate.
  destruct (decide (po_currency = invoice_currency)) as [Heq|Hne].
  - rewrite (bool_decide_eq_true_2 _ Heq). cbn [negb andb]. tauto.
  - rewrite (bool_decide_eq_false_2 _ Hne). cbn [negb andb].
    unfold rate_is_none. rewrite (po_to_invoice_rate_entry _ _ _ _ _ Hne).
    destruct (fst (get_latest_exchange_rate src now cache po_currency
                     invoice_currency)) as [rate|]; cbn [negb].
    + split; [intros _; right; now exists rate | reflexivity].
    + split; [discriminate|]. intros [Heq|[rate Hrate]];
        [contradiction | discriminate].
Qed.

(** With the same currency on both sides no source is asked and the
    cache is left alone: the rate is one, the rates are valid, and the
    converted amounts do not depend on the sources or on the clock. *)
Theorem same_currency_asks_no_source (src src' : RateSources) (now now' : Z)
  (cache : RateCache) (selected_df : DataFrame) (currency_code : str) :
  get_latest_exchange_rate src now cache currency_code currency_code
  = (Some one, cache)
  /\ fst (calculate_exchange_rates src now cache currency_code currency_code)
       !! L "po_to_invoice_rate" = Some (Some one)
  /\ get_invoice_amounts_in_currency src now cache selected_df
        currency_code currency_code
     = get_invoice_amounts_in_currency src' now' cache selected_df
         currency_code currency_code
  /\ snd (get_invoice_amounts_in_currency src now cache selected_df
            currency_code currency_code) = cache
  /\ (forall amounts,
        fst (get_invoice_amounts_in_currency src now cache selected_df
               currency_code currency_code) = Ok (Some amounts) ->
        exchange_rate amounts = one).
Proof.
  split.
  { unfold get_latest_exchange_rate.
    now rewrite (bool_decide_eq_true_2 (currency_code = currency_code) eq_refl). }
  split.
  { unfold calculate_exchange_rates.
    rewrite (bool_decide_eq_true_2 (currency_code = currency_code) eq_refl).
    destruct (bool_decide (currency_code = L "USD")); [apply lookup_insert_eq|].
    destruct (get_latest_exchange_rate src now cache (L "USD") currency_code)
      as [usd cache1].
    apply lookup_insert_eq. }
  unfold get_invoice_amounts_in_currency.
  rewrite (bool_decide_eq_true_2 (currency_code = currency_code) eq_refl).
  split; [reflexivity|]. split; [reflexivity|].
  intros amounts. cbn [fst].
  destruct (foldM _ _ _) as [[total_amount total_vat]|e]; cbn; [|discriminate].
  intros [= <-]. reflexivity.
Qed.

End MoreRateFacts.

Section MoreRateExamples.
Import PyStr PyNum Frame Currency Examples.

(** The API answers 3 at noon; half an hour later the sources know
    nothing, and the rate is still 3. *)
Lemma api_rate_is_cached_for_an_hour_witness :
  let r := get_latest_exchange_rate api_rate_is_three 43200 empty_cache
             (L "EUR") (L "VND") in
  fst r = Some (3 # 1)%Q
  /\ get_latest_exchange_rate no_rates 45000 (snd r) (L "EUR") (L "VND")
     = (Some (3 # 1)%Q, snd r).
Proof.
  apply (api_rate_is_cached_for_an_hour api_rate_is_three no_rates
           43200 45000 empty_cache (L "EUR") (L "VND") (3 # 1)%Q
           "k"%char (L "ey")).
  - discriminate.
  - reflexivity.
  - reflexivity.
  - reflexivity.
  - lia.
Defined.

End MoreRateExamples.

(** ** More on the validation of a selection *)

Section MoreValidationFacts.
Import PyStr PyNum Frame Service InvoiceData Spec.
Context `{Num}.

Lemma coherent_initial : coherent_verdict initial_verdict.
Proof.
  unfold coherent_verdict. simpl.
  split; [now split|]. split; [|now split].
  split; [discriminate | intros Hnil; now contradiction Hnil].
Qed.

Lemma coherent_block (v : verdict) (m : message) :
  coherent_verdict v -> coherent_verdict (block v m).
Proof.
  unfold coherent_verdict, block. cbn. intros (_ & Hwarn & Hrisk & Hrisks).
  split; [split; discriminate|]. now split.
Qed.

Lemma coherent_warn (v : verdict) (m : message) :
  coherent_verdict v -> coherent_verdict (warn v m).
Proof.
  unfold coherent_verdict, warn. cbn. intros (Hcan & _ & Hrisk & Hrisks).
  split; [assumption|]. split; [|now split].
  split; [|reflexivity]. intros _ Hnil. now apply app_eq_nil in Hnil as [_ ?].
Qed.

Lemma coherent_warn_if (b : bool) (v : verdict) (m : message) :
  coherent_verdict v -> coherent_verdict (warn_if b v m).
Proof. destruct b; [apply coherent_warn | trivial]. Qed.

Lemma coherent_po_step (df : DataFrame) (po_summary : list PoRow)
  (v : verdict) (po : Z) :
  coherent_verdict v -> coherent_verdict (fst (po_step df po_summary v po)).
Proof.
  intros Hv. unfold po_step.
  destruct (List.find _ po_summary) as [po_row|]; [|assumption].
  destruct (negb (has_col df "uninvoiced_quantity")); [assumption|].
  destruct (gtb _ _); cbn [fst].
  - now apply coherent_block.
  - now repeat apply coherent_warn_if.
Qed.

Lemma coherent_po_loop (df : DataFrame) (po_summary : list PoRow)
  (po_line_ids : list Z) :
  forall v,
    coherent_verdict v ->
    coherent_verdict (fst (po_loop df po_summary po_line_ids v)).
Proof.
  induction po_line_ids as [|po rest IH]; intros v Hv; cbn [po_loop fst];
    [assumption|].
  pose proof (coherent_po_step df po_summary v po Hv) as Hstep.
  destruct (po_step df po_summary v po) as [v' []]; cbn [fst] in *;
    [now apply IH | assumption | assumption].
Qed.

Lemma coherent_po_level (get_po_line_summary : list Z -> list PoRow)
  (df : DataFrame) (v : verdict) :
  coherent_verdict v ->
  match po_level_validation get_po_line_summary df v with
  | inl v' | inr v' => coherent_verdict v'
  end.
Proof.
  intros Hv. unfold po_level_validation.
  destruct (has_col df "product_purchase_order_id"); [|assumption].
  destruct (get_po_line_summary _) as [|p ps] eqn:Hsummary; [assumption|].
  pose proof (coherent_po_loop df (p :: ps)
                (unique Z.eqb (map product_purchase_order_id (rows df)))
                v Hv) as Hloop.
  destruct (po_loop df (p :: ps) _ v) as [v' []]; cbn [fst] in Hloop;
    [assumption | assumption | now apply coherent_warn].
Qed.

Lemma coherent_informational (df : DataFrame) (v v' : verdict) :
  coherent_verdict v -> informational_checks df v = Ok v' ->
  coherent_verdict v'.
Proof.
  intros Hv. unfold informational_checks.
  destruct (cell df "payment_term" _) as [terms|e]; cbn; [|discriminate].
  intros [= <-]. now repeat apply coherent_warn_if.
Qed.

(** Whatever the selection and the summary of the PO lines, the flags
    and the messages of a verdict agree: the invoice is blocked exactly
    when there is an error message, warnings are flagged exactly when
    there is one, and no risk is ever reported. *)
Theorem verdict_is_coherent (get_po_line_summary : list Z -> list PoRow)
  (df : DataFrame) (v : verdict) :
  validate_invoice_with_po_level get_po_line_summary df = Ok v ->
  coherent_verdict v.
Proof.
  pose proof coherent_initial as Hinit.
  unfold validate_invoice_with_po_level.
  destruct (empty df).
  { intros [= <-]. now apply coherent_block. }
  destruct (cell df "vendor_code" _) as [vendor_codes|e]; cbn [mbind result_bind]; [|discriminate].
  destruct (1 <? length (unique str_eqb vendor_codes))%nat.
  { intros [= <-]. now apply coherent_block. }
  destruct (cell df "legal_entity_code" _) as [entity_codes|e]; cbn [mbind result_bind];
    [|discriminate].
  destruct (1 <? length (unique str_eqb entity_codes))%nat.
  { intros [= <-]. now apply coherent_block. }
  destruct (cell df "vendor_type" _) as [types|e]; cbn [mbind result_bind]; [|discriminate].
  destruct (1 <? length (unique str_eqb types))%nat.
  { intros [= <-]. now apply coherent_block. }
  pose proof (coherent_po_level get_po_line_summary df initial_verdict Hinit)
    as Hpo.
  destruct (po_level_validation get_po_line_summary df initial_verdict)
    as [blocked|v'].
  - now intros [= <-].
  - now apply coherent_informational.
Qed.

(** On a frame with the three columns, the basic validator of the data
    module accepts exactly the consistent selections, and what it
    refuses the validator of the service blocks as well. *)
Theorem basic_validators_agree (get_po_line_summary : list Z -> list PoRow)
  (df : DataFrame) :
  has_col df "vendor_code" = true ->
  has_col df "vendor_type" = true ->
  has_col df "legal_entity_code" = true ->
  exists msg,
    validate_invoice_selection df = Ok (consistent_selection df, msg)
    /\ (consistent_selection df = false ->
        exists v,
          validate_invoice_with_po_level get_po_line_summary df = Ok v
          /\ can_invoice (fst v) = false).
Proof.
  intros Hvendor Htype Hentity.
  unfold validate_invoice_selection, validate_invoice_with_po_level,
    consistent_selection, cell.
  rewrite Hvendor, Htype, Hentity, !Nat.leb_antisym.
  destruct (empty df); cbn [negb andb mbind result_bind].
  { eexists. split; [reflexivity|]. intros _. eexists. now split. }
  destruct (1 <? length (unique str_eqb (map vendor_code (rows df))))%nat;
    cbn [negb andb].
  { eexists. split; [reflexivity|]. intros _. eexists. now split. }
  destruct (1 <? length (unique str_eqb (map vendor_type (rows df))))%nat;
    destruct (1 <? length (unique str_eqb (map legal_entity_code (rows df))))%nat;
    cbn [negb andb]; eexists; (split; [reflexivity|]);
    try discriminate; intros _; eexists; now split.
Qed.

Lemma value_line_is_totals_line (df : DataFrame) (row : Row)
  (total vat : num) (currency : option (list ascii)) :
  value_line df (total, currency) row
  = ('(subtotal, _, currency') ← totals_line df (total, vat, currency) row;
     Ok (subtotal, currency')).
Proof.
  unfold value_line, totals_line.
  destruct (cell df "buying_unit_cost" _) as [cost|e]; cbn; [|reflexivity].
  destruct (split cost) as [|first [|second rest]]; try reflexivity.
  destruct (float_of_str first) as [unit_cost|e]; cbn; [|reflexivity].
  now destruct (line_quantity df row) as [qty|e].
Qed.

Lemma value_loop_is_totals_loop (df : DataFrame) (lines : list Row) :
  forall (total vat : num) (currency : option (list ascii)),
    foldM (value_line df) lines (total, currency)
    = ('(subtotal, _, currency') ←
         foldM (totals_line df) lines (total, vat, currency);
       Ok (subtotal, currency')).
Proof.
  induction lines as [|row lines IH]; intros total vat currency;
    cbn [foldM]; [reflexivity|].
  rewrite (value_line_is_totals_line df row total vat currency).
  destruct (totals_line df (total, vat, currency) row)
    as [[[subtotal vat'] currency']|e]; cbn; [|reflexivity].
  apply IH.
Qed.

(** The totals without VAT are the totals with VAT without the two VAT
    entries: the same counts and currency, and the total value is the
    subtotal; the two functions fail on the same frames. *)
Theorem total_value_is_subtotal (df : DataFrame) :
  calculate_invoice_totals df
  = (totals ← calculate_invoice_totals_with_vat df;
     Ok {| plain_total_quantity := total_quantity totals;
           plain_total_lines := total_lines totals;
           plain_po_count := po_count totals;
           plain_an_count := an_count totals;
           total_value := subtotal totals;
           plain_currency := currency totals |}).
Proof.
  unfold calculate_invoice_totals, calculate_invoice_totals_with_vat.
  destruct (cell df "uninvoiced_quantity" _) as [quantities|e]; cbn;
    [|reflexivity].
  destruct (cell df "po_number" _) as [po_numbers|e]; cbn; [|reflexivity].
  destruct (cell df "arrival_note_number" _) as [an_numbers|e]; cbn;
    [|reflexivity].
  rewrite (value_loop_is_totals_loop df (rows df) zero zero None).
  now destruct (foldM (totals_line df) (rows df) (zero, zero, None))
    as [[[subtotal vat] currency]|e].
Qed.

End MoreValidationFacts.

(** ** The converted amounts *)

Section ConversionFacts.
Import PyStr PyNum Frame Currency Spec.
Context `{Num}.

(** When the pair resolves to a rate, the converted amounts are the sums
    over the lines of unit cost times raw uninvoiced quantity times
    rate, and of their VAT, each sum rounded once. *)
Theorem conversion_formula (src : RateSources) (now : Z)
  (cache cache' : RateCache) (df : DataFrame) (costs : Row -> num)
  (po_currency invoice_currency : str) (rate : num) :
  has_col df "uninvoiced_quantity" = true ->
  (forall row, In row (rows df) -> converted_unit_cost df row = Ok (costs row)) ->
  po_currency <> invoice_currency ->
  get_latest_exchange_rate src now cache po_currency invoice_currency
  = (Some rate, cache') ->
  let amount row := mul (mul (costs row) (uninvoiced_quantity row)) rate in
  let vat row := div (mul (amount row) (vat_percent_of df row)) hundred in
  get_invoice_amounts_in_currency src now cache df po_currency invoice_currency
  = (Ok (Some {| exchange_rate := rate;
                 subtotal := round2 (sigma amount (rows df));
                 total_vat := round2 (sigma vat (rows df));
                 total_with_vat :=
                   round2 (add (sigma amount (rows df)) (sigma vat (rows df)));
                 currency := invoice_currency |}),
     cache').
Proof.
  intros Hqty Hcosts Hne Hrate amount vat.
  unfold get_invoice_amounts_in_currency.
  rewrite (bool_decide_eq_false_2 _ Hne), Hrate.
  rewrite (conversion_loop df costs rate (rows df) zero zero Hqty Hcosts).
  reflexivity.
Qed.

End ConversionFacts.

Section MoreServiceExamples.
Import PyStr PyNum Frame Currency Service InvoiceData Spec Examples.

Ltac run call :=
  let v := eval vm_compute in call in
  lazymatch v with
  | Ok ?x => exists x
  end.

(** The verdict on two lines within the remaining quantity of their PO
    line. *)
Lemma verdict_is_coherent_witness :
  exists v,
    validate_invoice_with_po_level hundred_remaining two_lines = Ok v
    /\ coherent_verdict v.
Proof.
  run (validate_invoice_with_po_level hundred_remaining two_lines).
  split; [reflexivity|].
  apply (verdict_is_coherent hundred_remaining two_lines). reflexivity.
Defined.

(** An empty selection is refused by both validators. *)
Lemma basic_validators_agree_witness :
  exists msg,
    validate_invoice_selection (selection [])
    = Ok (consistent_selection (selection []), msg)
    /\ (consistent_selection (selection []) = false ->
        exists v,
          validate_invoice_with_po_level hundred_remaining (selection []) = Ok v
          /\ can_invoice (fst v) = false).
Proof.
  apply (basic_validators_agree hundred_remaining (selection [])).
  - vm_compute. reflexivity.
  - vm_compute. reflexivity.
  - vm_compute. reflexivity.
Defined.

(** The totals of the line of 5 units of which 3 remain, at 10 USD. *)
Lemma totals_with_vat_formula_witness :
  let amount row := Qmult (10 # 1) (preferred_quantity capped_selection row) in
  let vat row :=
    Qdiv (Qmult (amount row) (vat_percent_of capped_selection row)) (100 # 1) in
  exists totals,
    calculate_invoice_totals_with_vat capped_selection = Ok totals
    /\ Service.subtotal totals = round2 (sigma amount (rows capped_selection))
    /\ Service.total_vat totals = round2 (sigma vat (rows capped_selection))
    /\ Service.total_with_vat totals
       = round2 (add (sigma amount (rows capped_selection))
                     (sigma vat (rows capped_selection))).
Proof.
  apply (totals_with_vat_formula capped_selection (fun _ => (10 # 1)%Q)).
  - vm_compute. reflexivity.
  - vm_compute. reflexivity.
  - vm_compute. reflexivity.
  - vm_compute. reflexivity.
  - intros row [<-|[]]. exists (L "10"), (L "USD"), []. split; reflexivity.
Defined.

(** The same line converted to EUR at the rate 2. *)
Lemma conversion_formula_witness :
  let amount row := Qmult (Qmult (10 # 1) (uninvoiced_quantity row)) (2 # 1) in
  let vat row :=
    Qdiv (Qmult (amount row) (vat_percent_of capped_selection row)) (100 # 1) in
  get_invoice_amounts_in_currency usd_rate_is_two 0 empty_cache
    capped_selection (L "USD") (L "EUR")
  = (Ok (Some {| exchange_rate := (2 # 1)%Q;
                 Currency.subtotal :=
                   round2 (sigma amount (rows capped_selection));
                 Currency.total_vat :=
                   round2 (sigma vat (rows capped_selection));
                 Currency.total_with_vat :=
                   round2 (add (sigma amount (rows capped_selection))
                               (sigma vat (rows capped_selection)));
                 Currency.currency := L "EUR" |}),
     empty_cache).
Proof.
  apply (conversion_formula usd_rate_is_two 0 empty_cache empty_cache
           capped_selection (fun _ => (10 # 1)%Q) (L "USD") (L "EUR")
           (2 # 1)%Q).
  - vm_compute. reflexivity.
  - intros row [<-|[]]. reflexivity.
  - discriminate.
  - reflexivity.
Defined.

(** Two vendor types and two legal entities at once: both validators
    refuse, each with the message of the check it makes first. *)
Example validators_differ_on_the_message :
  let df := selection [vendor_line "V1" 7 "10 USD" (1 # 1) (1 # 1) (10 # 1);
                       {| vendor_code := L "V1";
                          legal_entity_code := L "E2";
                          vendor_type := L "Internal";
                          po_number := L "PO-1";
                          arrival_note_number := L "AN-2";
                          payment_term := None;
                          product_purchase_order_id := 7;
                          buying_unit_cost := L "10 USD";
                          uninvoiced_quantity := (1 # 1)%Q;
                          true_remaining_qty := (1 # 1)%Q;
                          vat_percent := (10 # 1)%Q;
                          po_line_is_over_delivered := L "N";
                          po_line_is_over_invoiced := L "N";
                          has_legacy_invoices := L "N" |}] in
  validate_invoice_selection df = Ok (false, Some MixedVendorTypesSelected)
  /\ exists v,
       validate_invoice_with_po_level hundred_remaining df = Ok v
       /\ error (snd v) = Some (MultipleEntities [L "E1"; L "E2"]).
Proof.
  cbv zeta. split; [reflexivity|].
  match goal with
  | |- exists v, ?call = Ok v /\ _ => run call
  end.
  split; reflexivity.
Qed.

End MoreServiceExamples.

(** ** More on the two writers of the database *)

Section MoreWriterFacts.
Import PyStr PyNum Frame Store.
Context `{Num}.

Lemma insert_medias_rows (env : DbEnv) (keycloak_id : str) (s3_keys : list str) :
  forall (n : nat) (next_id : Z) (rows : list MediaRow),
    insert_medias env n next_id keycloak_id s3_keys = Ok rows ->
    map media_path rows = s3_keys
    /\ map media_name rows = map last_segment s3_keys
    /\ Forall (fun row => media_created_by row = keycloak_id) rows.
Proof.
  induction s3_keys as [|s3_key rest IH]; intros n next_id rows;
    cbn [insert_medias].
  - intros [= <-]. now repeat split.
  - destruct (statement_fault env n); [discriminate|].
    destruct (insert_medias env (S n) (next_id + 1) keycloak_id rest)
      as [rows'|e] eqn:Hrest; cbn [mbind result_bind]; [|discriminate].
    intros [= <-]. destruct (IH _ _ _ Hrest) as (Hpath & Hname & Huser).
    cbn [map media_path media_name]. rewrite Hpath, Hname.
    split; [reflexivity|]. split; [reflexivity|].
    constructor; [reflexivity | assumption].
Qed.

(** The media records are written all together or not at all: on
    success there is one new record per key, in the order of the keys,
    with the key as its path, the last segment of the key as its name
    and the user as its author, and the identifiers returned are those
    of the new records; otherwise the tables are as before.  The
    invoice tables are never touched. *)
Theorem save_media_records_all_or_nothing (env : DbEnv) (db : Db)
  (s3_keys : list str) (keycloak_id : str) :
  let r := save_media_records env db s3_keys keycloak_id in
  purchase_invoices (snd r) = purchase_invoices db
  /\ purchase_invoice_details (snd r) = purchase_invoice_details db
  /\ purchase_invoice_medias (snd r) = purchase_invoice_medias db
  /\ match fst r with
     | Ok (true, media_ids, _) =>
         exists rows,
           medias (snd r) = medias db ++ rows
           /\ map media_id rows = media_ids
           /\ map media_path rows = s3_keys
           /\ map media_name rows = map last_segment s3_keys
           /\ Forall (fun row => media_created_by row = keycloak_id) rows
     | _ => snd r = db
     end.
Proof.
  unfold save_media_records.
  destruct s3_keys as [|s3_key rest].
  { cbn [fst snd]. repeat split. exists []. rewrite app_nil_r.
    now repeat split. }
  destruct (engine_fault env); [now repeat split|].
  destruct (insert_medias env 0 _ keycloak_id (s3_key :: rest))
    as [rows|e] eqn:Hrows; cbn [fst snd]; [|now repeat split].
  destruct (insert_medias_rows _ _ _ _ _ _ Hrows) as (Hpath & Hname & Huser).
  cbn [purchase_invoices purchase_invoice_details purchase_invoice_medias
       medias].
  split; [reflexivity|]. split; [reflexivity|]. split; [reflexivity|].
  exists rows. now repeat split.
Qed.

(** What the page needs of it: the number of new records. *)
Lemma save_media_records_frame (env : DbEnv) (db : Db)
  (s3_keys : list str) (keycloak_id : str) :
  let r := save_media_records env db s3_keys keycloak_id in
  purchase_invoices (snd r) = purchase_invoices db
  /\ purchase_invoice_details (snd r) = purchase_invoice_details db
  /\ purchase_invoice_medias (snd r) = purchase_invoice_medias db
  /\ match fst r with
     | Ok (true, media_ids, _) =>
         length (medias (snd r))
         = (length (medias db) + length s3_keys)%nat
         /\ length media_ids = length s3_keys
     | _ => snd r = db
     end.
Proof.
  unfold save_media_records.
  destruct s3_keys as [|s3_key rest].
  { cbn [fst snd length]. repeat split. lia. }
  destruct (engine_fault env); [now repeat split|].
  destruct (insert_medias env 0 _ keycloak_id (s3_key :: rest))
    as [rows|e] eqn:Hrows; cbn [fst snd]; [|now repeat split].
  destruct (insert_medias_rows _ _ _ _ _ _ Hrows) as (Hpath & _ & _).
  cbn [purchase_invoices purchase_invoice_details purchase_invoice_medias
       medias].
  rewrite length_app, <- Hpath, !length_map. now repeat split.
Qed.


Lemma steps_rows {A B} (env : DbEnv) (f : A -> result B) (xs : list A) :
  forall (n : nat) (ys : list B),
    steps env n f xs = Ok ys -> Forall2 (fun x y => f x = Ok y) xs ys.
Proof.
  induction xs as [|x xs IH]; intros n ys; cbn [steps].
  - intros [= <-]. constructor.
  - destruct (statement_fault env n); [discriminate|].
    destruct (f x) as [y|e] eqn:Hy; cbn [mbind result_bind]; [|discriminate].
    destruct (steps env (S n) f xs) as [ys'|e] eqn:Hrest;
      cbn [mbind result_bind]; [|discriminate].
    intros [= <-]. constructor; [assumption | now apply (IH (S n))].
Qed.

Lemma detail_of_row (env : DbEnv) (rate : option num) (new_id : Z)
  (row : DetailsRow) (line : InvoiceLine) :
  detail_of env rate new_id row = Ok line ->
  line_invoice_id line = new_id
  /\ line_arrival_detail_id line = d_arrival_detail_id row
  /\ line_quantity line = d_uninvoiced_quantity row.
Proof.
  unfold detail_of.
  destruct (base_amount rate row) as [base|e]; cbn [mbind result_bind];
    [|discriminate].
  intros [= <-]. now repeat split.
Qed.

Lemma detail_lines (env : DbEnv) (rate : option num) (new_id : Z)
  (details_df : list DetailsRow) (lines : list InvoiceLine) :
  Forall2 (fun row line => detail_of env rate new_id row = Ok line)
          details_df lines ->
  map line_arrival_detail_id lines = map d_arrival_detail_id details_df
  /\ map line_quantity lines = map d_uninvoiced_quantity details_df
  /\ Forall (fun line => line_invoice_id line = new_id) lines.
Proof.
  induction 1 as [|row line rows lines Hline _ IH]; [now repeat split|].
  apply detail_of_row in Hline as (Hid & Harrival & Hqty).
  destruct IH as (IHa & IHq & IHid). cbn [map].
  rewrite Harrival, Hqty, IHa, IHq.
  split; [reflexivity|]. split; [reflexivity|]. now constructor.
Qed.

Lemma media_links (new_id : Z) (keycloak_id : str) (media_ids : list Z)
  (links : list MediaLink) :
  Forall2 (fun m link => @Ok MediaLink {| link_invoice_id := new_id;
                                          link_media_id := m;
                                          link_created_by := keycloak_id |}
                         = Ok link)
          media_ids links ->
  map link_media_id links = media_ids
  /\ Forall (fun link => link_invoice_id link = new_id) links.
Proof.
  induction 1 as [|m link ms links Hlink _ IH]; [now split|].
  injection Hlink as <-. destruct IH as [IHm IHid]. cbn [map link_media_id].
  rewrite IHm. split; [reflexivity|]. now constructor.
Qed.

(** An invoice is written with all its rows or not at all: on success
    there is one new header with the returned identifier and the invoice
    number of the data, one detail row per line of the selection and one
    link per media record, all of that invoice; otherwise the tables are
    as before.  The media records are never touched. *)
Theorem create_purchase_invoice_all_or_nothing (env : DbEnv) (db : Db)
  (invoice_data : InvoiceData) (details_df : list DetailsRow)
  (keycloak_id : str) (media_ids : list Z) :
  let r := create_purchase_invoice env db invoice_data details_df
                                   keycloak_id media_ids in
  medias (snd r) = medias db
  /\ match fst r with
     | Ok (true, Some new_id) =>
         exists header lines links,
           purchase_invoices (snd r) = purchase_invoices db ++ [header]
           /\ invoice_id header = new_id
           /\ header_invoice_number header = invoice_number invoice_data
           /\ purchase_invoice_details (snd r)
              = purchase_invoice_details db ++ lines
           /\ map line_arrival_detail_id lines
              = map d_arrival_detail_id details_df
           /\ map line_quantity lines = map d_uninvoiced_quantity details_df
           /\ Forall (fun line => line_invoice_id line = new_id) lines
           /\ purchase_invoice_medias (snd r)
              = purchase_invoice_medias db ++ links
           /\ map link_media_id links = media_ids
           /\ Forall (fun link => link_invoice_id link = new_id) links
     | Ok (true, None) => False
     | _ => snd r = db
     end.
Proof.
  unfold create_purchase_invoice.
  destruct (engine_fault env); [now split|].
  unfold invoice_transaction.
  destruct (mapM_result _ details_df) as [amounts|e]; cbn [mbind result_bind];
    [|now split].
  destruct (statement_fault env 0); cbn [mbind result_bind]; [now split|].
  destruct (steps env 1 _ details_df) as [lines|e] eqn:Hlines;
    cbn [mbind result_bind]; [|now split].
  destruct (steps env (1 + length details_df) _ media_ids) as [links|e]
    eqn:Hlinks; cbn [mbind result_bind]; [|now split].
  apply steps_rows, detail_lines in Hlines as (Harrival & Hqty & Hid).
  apply steps_rows, media_links in Hlinks as (Hmedia & Hlid).
  cbn [fst snd medias purchase_invoices purchase_invoice_details
       purchase_invoice_medias].
  split; [reflexivity|].
  eexists _, lines, links.
  split; [reflexivity|]. split; [reflexivity|]. split; [reflexivity|].
  split; [reflexivity|]. now repeat split.
Qed.

(** What the page needs of it: the new header and the numbers of new
    rows. *)
Lemma create_purchase_invoice_frame (env : DbEnv) (db : Db)
  (invoice_data : InvoiceData) (details_df : list DetailsRow)
  (keycloak_id : str) (media_ids : list Z) :
  let r := create_purchase_invoice env db invoice_data details_df
                                   keycloak_id media_ids in
  medias (snd r) = medias db
  /\ match fst r with
     | Ok (true, Some new_id) =>
         exists header,
           purchase_invoices (snd r) = purchase_invoices db ++ [header]
           /\ invoice_id header = new_id
           /\ length (purchase_invoice_details (snd r))
              = (length (purchase_invoice_details db) + length details_df)%nat
           /\ length (purchase_invoice_medias (snd r))
              = (length (purchase_invoice_medias db) + length media_ids)%nat
     | Ok (true, None) => False
     | _ => snd r = db
     end.
Proof.
  unfold create_purchase_invoice.
  destruct (engine_fault env); [now split|].
  unfold invoice_transaction.
  destruct (mapM_result _ details_df) as [amounts|e]; cbn [mbind result_bind];
    [|now split].
  destruct (statement_fault env 0); cbn [mbind result_bind]; [now split|].
  destruct (steps env 1 _ details_df) as [lines|e] eqn:Hlines;
    cbn [mbind result_bind]; [|now split].
  destruct (steps env (1 + length details_df) _ media_ids) as [links|e]
    eqn:Hlinks; cbn [mbind result_bind]; [|now split].
  apply steps_rows, Forall2_length in Hlines.
  apply steps_rows, Forall2_length in Hlinks.
  cbn [fst snd medias purchase_invoices purchase_invoice_details
       purchase_invoice_medias].
  split; [reflexivity|]. eexists.
  rewrite !length_app, Hlines, Hlinks. now repeat split.
Qed.


End MoreWriterFacts.

Section MoreWriterExamples.
Import PyStr PyNum Frame Store Examples.

(** The rate of the pair was looked up and not found: the line is not
    written. *)
Lemma unresolved_rate_creates_no_invoice_witness :
  create_purchase_invoice healthy_db empty_db unresolved_invoice
                          [ten_units] (L "user-1") []
  = (Ok (false, None), empty_db).
Proof.
  apply (unresolved_rate_creates_no_invoice healthy_db empty_db
           unresolved_invoice ten_units [] (L "user-1") []).
  - reflexivity.
  - reflexivity.
Defined.

End MoreWriterExamples.

(** ** More on the creation of an invoice with attachments *)

Section MorePageFacts.
Import PyStr PyNum Attachments S3 Store CreatePage Spec.
Context `{Num}.

Lemma batch_success_uploads_all (env : S3Env) (st : S3State)
  (files : list (str * str)) :
  success (fst (batch_upload_invoice_files env st files)) = true ->
  length (uploaded (fst (batch_upload_invoice_files env st files)))
  = length files.
Proof.
  unfold batch_upload_invoice_files.
  destruct files as [|file files]; [reflexivity|].
  set (r0 := {| success := false; uploaded := []; failed := [];
                total := length (file :: files);
                success_count := 0; error_count := 0 |}).
  pose proof (batch_fold_spec env (file :: files) r0 st) as Hfold.
  destruct (fold_left (batch_step env) (file :: files) (r0, st)) as [r1 st1].
  cbn [fst snd] in Hfold. destruct Hfold as (_ & _ & Hc & Hinv & _).
  destruct Hinv as [Hu Hf]; [split; reflexivity|].
  cbn [fst success uploaded]. subst r0.
  cbn [success_count error_count] in Hc.
  intros Hzero. apply Nat.eqb_eq in Hzero. lia.
Qed.

Lemma app_eq_self_list {A : Type} (l more : list A) :
  l ++ more = l -> more = [].
Proof.
  intros Heq. apply (f_equal (@length A)) in Heq. rewrite length_app in Heq.
  destruct more; [reflexivity | simpl in Heq; lia].
Qed.

Lemma no_invoice_written_refl (w : World) : no_invoice_written w w.
Proof. unfold no_invoice_written. now repeat split. Qed.

Lemma no_invoice_written_trans (w1 w2 w3 : World) :
  no_invoice_written w1 w2 -> no_invoice_written w2 w3 ->
  no_invoice_written w1 w3.
Proof.
  unfold no_invoice_written.
  intros (? & ? & ? & ? & ?) (? & ? & ? & ? & ?).
  repeat split; congruence.
Qed.

Lemma clean_up_s3 (env : PageEnv) (w : World) (keys : list str) :
  s3 (clean_up env w keys) = cleanup_failed_uploads (s3_env env) (s3 w) keys
  /\ db (clean_up env w keys) = db w
  /\ last_created_invoice (clean_up env w keys) = last_created_invoice w
  /\ uploaded_files (clean_up env w keys) = uploaded_files w.
Proof. destruct keys; now repeat split. Qed.

(** The uploads write nothing to the database. *)
Lemma upload_step_frame (env : PageEnv) (w : World) :
  match upload_step env w with
  | inl stop => no_invoice_written w stop /\ medias (db stop) = medias (db w)
  | inr (w1, keys) =>
      no_invoice_written w w1
      /\ medias (db w1) = medias (db w)
      /\ length keys = length (uploaded_files w)
  end.
Proof.
  unfold upload_step.
  pose proof (files_for_s3_length env w) as Hlen.
  destruct (uploaded_files w) as [|file files] eqn:Hfiles.
  { split; [apply no_invoice_written_refl|]. now split. }
  destruct (s3_manager_fault env).
  { unfold no_invoice_written. cbn. now rewrite Hfiles. }
  pose proof (batch_success_uploads_all (s3_env env) (s3 w)
                (files_for_s3 env w)) as Hall.
  destruct (batch_upload_invoice_files (s3_env env) (s3 w) (files_for_s3 env w))
    as [r st]. cbn [fst] in Hall.
  destruct (success r); cbn [negb].
  - unfold no_invoice_written. cbn. rewrite Hfiles.
    repeat split. rewrite Hall by reflexivity. exact Hlen.
  - unfold no_invoice_written. cbn. now rewrite Hfiles.
Qed.

(** The media records are written without a change to the invoice
    tables; when they cannot be written, the uploads are cleaned up. *)
Lemma media_step_frame (env : PageEnv) (w : World) (user : str)
  (keys : list str) :
  match media_step env w user keys with
  | inl stop =>
      no_invoice_written w stop
      /\ s3 stop = cleanup_failed_uploads (s3_env env) (s3 w) keys
  | inr (w2, media_ids) =>
      no_invoice_written w w2
      /\ s3 w2 = s3 w
      /\ length (medias (db w2)) = (length (medias (db w)) + length keys)%nat
      /\ length media_ids = length keys
  end.
Proof.
  unfold media_step.
  destruct keys as [|key keys].
  { split; [apply no_invoice_written_refl|]. cbn. repeat split. lia. }
  pose proof (save_media_records_frame (media_env env) (db w) (key :: keys) user)
    as Hcases. cbv zeta in Hcases.
  destruct (save_media_records (media_env env) (db w) (key :: keys) user)
    as [outcome db']. cbn [fst snd] in Hcases.
  destruct Hcases as (Hinv & Hdet & Hlinks & Hrows).
  assert (Hstop :
    no_invoice_written w
      (clean_up env (show (with_db w db') ErrMediaRecords) (key :: keys))
    /\ s3 (clean_up env (show (with_db w db') ErrMediaRecords) (key :: keys))
       = cleanup_failed_uploads (s3_env env) (s3 w) (key :: keys)).
  { unfold no_invoice_written. cbn. now repeat split. }
  destruct outcome as [[[[] media_ids] msg]|e]; try exact Hstop.
  destruct Hrows as [Hmedias Hids].
  unfold no_invoice_written. cbn [show with_db db s3 last_created_invoice
                                  uploaded_files].
  split; [now repeat split|]. split; [reflexivity|]. now split.
Qed.

(** The invoice is written in full, or it is not written and the
    uploads are cleaned up. *)
Lemma invoice_step_frame (env : PageEnv) (w : World) (user : str)
  (invoice_data : InvoiceData) (details_df : list DetailsRow)
  (keys : list str) (media_ids : list Z) :
  let w3 := invoice_step env w user invoice_data details_df keys media_ids in
  (no_invoice_written w w3
   /\ medias (db w3) = medias (db w)
   /\ s3 w3 = cleanup_failed_uploads (s3_env env) (s3 w) keys)
  \/ (exists new_id header,
        last_created_invoice w3 = Some (Some new_id, invoice_number invoice_data)
        /\ purchase_invoices (db w3) = purchase_invoices (db w) ++ [header]
        /\ invoice_id header = new_id
        /\ length (purchase_invoice_details (db w3))
           = (length (purchase_invoice_details (db w)) + length details_df)%nat
        /\ medias (db w3) = medias (db w)
        /\ length (purchase_invoice_medias (db w3))
           = (length (purchase_invoice_medias (db w)) + length media_ids)%nat
        /\ uploaded_files w3 = []
        /\ invoice_creating w3 = false).
Proof.
  unfold invoice_step.
  pose proof (create_purchase_invoice_frame (invoice_env env) (db w)
                invoice_data details_df user media_ids) as Hcases.
  cbv zeta in Hcases.
  destruct (create_purchase_invoice (invoice_env env) (db w) invoice_data
              details_df user media_ids) as [outcome db'].
  cbn [fst snd] in Hcases. destruct Hcases as [Hmedias Hrows].
  assert (Hfail : db' = db w ->
    let w1 := show (with_db w db') ErrInvoice in
    let w3 := match keys with
              | [] => w1
              | _ => clean_up env (show w1 WarnCleaningUp) keys
              end in
    no_invoice_written w w3
    /\ medias (db w3) = medias (db w)
    /\ s3 w3 = cleanup_failed_uploads (s3_env env) (s3 w) keys).
  { intros ->. destruct keys; unfold no_invoice_written; cbn;
      now repeat split. }
  destruct outcome as [[[] [new_id|]]|e]; try (left; now apply Hfail);
    [|contradiction].
  right. destruct Hrows as (header & Hinv & Hid & Hdet & Hlinks).
  exists new_id, header.
  assert (Hfields : forall w2 : World,
            db w2 = db' ->
            let w3 := succeed w2 (Some new_id) (invoice_number invoice_data) in
            last_created_invoice w3
            = Some (Some new_id, invoice_number invoice_data)
            /\ db w3 = db'
            /\ uploaded_files w3 = []
            /\ invoice_creating w3 = false).
  { intros w2 Hdb. cbn. now repeat split. }
  destruct (Hfields
              (match media_ids with
               | [] => show (with_db w db') (OkInvoice (Some new_id))
               | _ => show (show (with_db w db') (OkInvoice (Some new_id)))
                           (OkLinked (length media_ids))
               end)) as (Hlast & Hdb & Hfiles & Hflag);
    [now destruct media_ids|].
  rewrite Hlast, Hdb, Hfiles, Hflag, Hinv, Hdet, Hlinks, Hmedias.
  now repeat split.
Qed.

Lemma with_creating_frame (w : World) (b : bool) :
  no_invoice_written w (with_creating w b)
  /\ db (with_creating w b) = db w
  /\ s3 (with_creating w b) = s3 w.
Proof. unfold no_invoice_written. cbn. now repeat split. Qed.

(** The three steps after the guards, from the world [w0] in which the
    flag of the creation is set. *)
Lemma creation_steps (env : PageEnv) (user : str)
  (invoice_data : InvoiceData) (details_df : list DetailsRow) (w0 : World) :
  let after :=
    match upload_step env w0 with
    | inl stop => stop
    | inr (w1, s3_keys_uploaded) =>
        match media_step env w1 user s3_keys_uploaded with
        | inl stop => stop
        | inr (w2, media_ids_created) =>
            invoice_step env w2 user invoice_data details_df
                         s3_keys_uploaded media_ids_created
        end
    end in
  no_invoice_written w0 after
  \/ (exists new_id header,
        last_created_invoice after
        = Some (Some new_id, invoice_number invoice_data)
        /\ purchase_invoices (db after) = purchase_invoices (db w0) ++ [header]
        /\ invoice_id header = new_id
        /\ length (purchase_invoice_details (db after))
           = (length (purchase_invoice_details (db w0)) + length details_df)%nat
        /\ length (medias (db after))
           = (length (medias (db w0)) + length (uploaded_files w0))%nat
        /\ length (purchase_invoice_medias (db after))
           = (length (purchase_invoice_medias (db w0))
              + length (uploaded_files w0))%nat
        /\ uploaded_files after = []
        /\ invoice_creating after = false).
Proof.
  cbv zeta.
  pose proof (upload_step_frame env w0) as Hup.
  destruct (upload_step env w0) as [stop|[w1 keys]]; [left; tauto|].
  destruct Hup as (Hw1 & Hmedias1 & Hkeys).
  pose proof (media_step_frame env w1 user keys) as Hmedia.
  destruct (media_step env w1 user keys) as [stop|[w2 media_ids]].
  { left. destruct Hmedia as [Hstop _].
    exact (no_invoice_written_trans _ _ _ Hw1 Hstop). }
  destruct Hmedia as (Hw2 & _ & Hmedias2 & Hids).
  pose proof (no_invoice_written_trans _ _ _ Hw1 Hw2) as Hw02.
  destruct (invoice_step_frame env w2 user invoice_data details_df keys
              media_ids) as [(Hw3 & _)|Hdone].
  { left. exact (no_invoice_written_trans _ _ _ Hw02 Hw3). }
  right.
  destruct Hdone as (new_id & header & Hlast & Hinv & Hid & Hdet & Hmedias3
                     & Hlinks & Hfiles & Hflag).
  destruct Hw02 as (_ & Hinv02 & Hdet02 & Hlinks02 & _).
  exists new_id, header.
  rewrite Hlast, Hinv, Hdet, Hmedias3, Hmedias2, Hlinks, Hfiles, Hflag,
    Hinv02, Hdet02, Hlinks02, Hmedias1, Hids, Hkeys.
  now repeat split.
Qed.

(** Whatever the collaborators do, a run of the creation ends in one of
    two ways: no invoice is written (the invoice tables, the record of
    the last created invoice and the selected files are as before), or
    the invoice is written in full, with one header, one detail row per
    line, and one media record and one link for every uploaded file. *)
Theorem invoice_is_written_in_full_or_not_at_all (env : PageEnv)
  (invoice_data : InvoiceData) (details_df : list DetailsRow) (w : World) :
  let w' := create_invoice_final env invoice_data details_df w in
  no_invoice_written w w' \/ invoice_written invoice_data details_df w w'.
Proof.
  cbv zeta. unfold create_invoice_final.
  destruct (invoice_creating w).
  { left. unfold no_invoice_written. cbn. now repeat split. }
  destruct (keycloak_id env) as [[|c user]|];
    try (left; unfold no_invoice_written; cbn; now repeat split).
  destruct (creation_steps env (c :: user) invoice_data details_df
              (with_creating w true)) as [Hnone|Hdone].
  - left. unfold no_invoice_written in *. cbn in *. exact Hnone.
  - right. unfold invoice_written.
    destruct Hdone as (new_id & header & Hdone).
    exists new_id, header. cbn in *. tauto.
Qed.

Lemma upload_step_s3 (env : PageEnv) (w : World) :
  success (fst (batch_upload_invoice_files (s3_env env) (s3 w)
                  (files_for_s3 env w))) = true ->
  match upload_step env w with
  | inl stop => s3 stop = s3 w
  | inr (w1, keys) =>
      (keys = [] /\ s3 w1 = s3 w)
      \/ (keys = uploaded (fst (batch_upload_invoice_files (s3_env env) (s3 w)
                                  (files_for_s3 env w)))
          /\ s3 w1 = snd (batch_upload_invoice_files (s3_env env) (s3 w)
                            (files_for_s3 env w)))
  end.
Proof.
  intros Hok. unfold upload_step.
  destruct (uploaded_files w) as [|file files]; [left; now split|].
  destruct (s3_manager_fault env); [reflexivity|].
  destruct (batch_upload_invoice_files (s3_env env) (s3 w) (files_for_s3 env w))
    as [r st]. cbn [fst snd] in *. rewrite Hok. cbn [negb].
  right. now split.
Qed.

(** When the uploads succeeded and no invoice was written, the uploaded
    objects are removed again: the bucket is as it was before the run,
    provided the store answers the deletions and held no object under
    one of the new keys. *)
Theorem failed_creation_removes_uploads (env : PageEnv)
  (invoice_data : InvoiceData) (details_df : list DetailsRow) (w : World) :
  let batch := batch_upload_invoice_files (s3_env env) (s3 w)
                 (files_for_s3 env w) in
  let w' := create_invoice_final env invoice_data details_df w in
  success (fst batch) = true ->
  (forall n, delete_fault (s3_env env) n = false) ->
  (forall o, In o (objects (s3 w)) -> ~ In (fst o) (uploaded (fst batch))) ->
  purchase_invoices (db w') = purchase_invoices (db w) ->
  objects (s3 w') = objects (s3 w).
Proof.
  intros batch w' Hok Hhealthy Hfresh Hnone. subst batch w'.
  assert (Hundo :
    objects (cleanup_failed_uploads (s3_env env)
               (snd (batch_upload_invoice_files (s3_env env) (s3 w)
                       (files_for_s3 env w)))
               (uploaded (fst (batch_upload_invoice_files (s3_env env) (s3 w)
                                 (files_for_s3 env w)))))
    = objects (s3 w)).
  { destruct (batch_upload_keys (s3_env env) (s3 w) (files_for_s3 env w))
      as (added & Hobjects & Hup & _).
    rewrite Hup in Hfresh |- *.
    exact (cleanup_of_added (s3_env env) (s3 w) _ added Hobjects Hhealthy
                            Hfresh). }
  unfold create_invoice_final in *.
  destruct (invoice_creating w); [reflexivity|].
  destruct (keycloak_id env) as [[|c user]|]; try reflexivity.
  set (w0 := with_creating w true) in *.
  change (files_for_s3 env w) with (files_for_s3 env w0) in *.
  change (s3 w) with (s3 w0) in *.
  change (db w) with (db w0) in Hnone.
  pose proof (upload_step_s3 env w0 Hok) as Hup.
  pose proof (upload_step_frame env w0) as Hframe.
  destruct (upload_step env w0) as [stop|[w1 keys]];
    [cbn [with_creating s3]; now rewrite Hup|].
  destruct Hframe as (Hw1 & _).
  pose proof (media_step_frame env w1 (c :: user) keys) as Hmedia.
  assert (Hclean : objects (cleanup_failed_uploads (s3_env env) (s3 w1) keys)
                   = objects (s3 w0)).
  { destruct Hup as [[-> ->]|[-> ->]]; [reflexivity | exact Hundo]. }
  destruct (media_step env w1 (c :: user) keys) as [stop|[w2 media_ids]].
  { destruct Hmedia as [_ Hs3]. cbn [with_creating s3]. now rewrite Hs3. }
  destruct Hmedia as (Hw2 & Hs3 & _).
  destruct (invoice_step_frame env w2 (c :: user) invoice_data details_df keys
              media_ids) as [(_ & _ & Hs3')|Hdone].
  - cbn [with_creating s3]. now rewrite Hs3', Hs3.
  - exfalso. destruct Hdone as (new_id & header & _ & Hinv & _).
    cbn [with_creating db] in Hnone. rewrite Hinv in Hnone.
    destruct Hw1 as (_ & Hinv1 & _). destruct Hw2 as (_ & Hinv2 & _).
    rewrite Hinv2, Hinv1 in Hnone.
    apply app_eq_self_list in Hnone. discriminate.
Qed.

End MorePageFacts.

Section MorePageExamples.
Import PyStr PyNum Attachments S3 Store CreatePage Spec Examples.

(** The three files are uploaded, the header of the invoice cannot be
    inserted: the bucket is empty again. *)
Lemma failed_creation_removes_uploads_witness :
  objects (s3 (create_invoice_final header_insert_fails one_line_invoice
                 one_line fresh_world)) = [].
Proof.
  apply (failed_creation_removes_uploads header_insert_fails one_line_invoice
           one_line fresh_world).
  - vm_compute. reflexivity.
  - intros n. reflexivity.
  - intros o [].
  - reflexivity.
Defined.

End MorePageExamples.

(** ** Invoice numbers and the due date of the service *)

Section InvoiceNumberFacts.
Import PyStr PyDate PaymentTerms InvoiceData.

Lemma str_of_int_inj (a b : Z) : str_of_int a = str_of_int b -> a = b.
Proof.
  unfold str_of_int, L. intros Heq.
  apply (f_equal string_of_list_ascii) in Heq.
  rewrite !string_of_list_ascii_of_string in Heq.
  now apply (inj pretty) in Heq.
Qed.

(** On the same day and for the same vendor, buyer and kind of
    payment, two different last identifiers give two different invoice
    numbers. *)
Theorem invoice_numbers_follow_the_last_id (date_str time_str : str)
  (last_id last_id' : option Z) (vendor_id buyer_id : option Z)
  (is_advance_payment : bool) :
  default 0 last_id <> default 0 last_id' ->
  generate_invoice_number date_str time_str (Ok last_id) vendor_id buyer_id
                          is_advance_payment
  <> generate_invoice_number date_str time_str (Ok last_id') vendor_id buyer_id
                             is_advance_payment.
Proof.
  intros Hne Heq. unfold generate_invoice_number in Heq.
  repeat apply app_inv_head in Heq.
  apply app_inv_tail, str_of_int_inj in Heq. lia.
Qed.

Lemma invoice_numbers_follow_the_last_id_witness :
  generate_invoice_number (L "20250105") (L "101500") (Ok (Some 41))
                          (Some 12) (Some 1) false
  <> generate_invoice_number (L "20250105") (L "101500") (Ok (Some 42))
                             (Some 12) (Some 1) false.
Proof.
  apply (invoice_numbers_follow_the_last_id (L "20250105") (L "101500")
           (Some 41) (Some 42) (Some 12) (Some 1) false).
  simpl. lia.
Defined.

(** The identifiers are written one after the other without a
    separator: vendor 1 with buyer 12 and vendor 11 with buyer 2 get the
    same number. *)
Example invoice_numbers_of_two_vendors_collide :
  generate_invoice_number (L "20250105") (L "101500") (Ok (Some 3))
                          (Some 1) (Some 12) false
  = generate_invoice_number (L "20250105") (L "101500") (Ok (Some 3))
                            (Some 11) (Some 2) false.
Proof. reflexivity. Qed.



End InvoiceNumberFacts.

(** ** More on the uninvoiced arrivals and on the object keys *)

Section MoreArrivalFacts.
Import PyStr InvoiceData.

(** Only the live detail rows without arrival count as legacy: a detail
    row that has an arrival, or is deleted, or belongs to a deleted
    invoice, changes nothing in the result. *)
Theorem non_legacy_details_are_ignored (view : result (list CanRow))
  (product_purchase_orders : gmap Z (option Q))
  (detail : InvoiceDetail) (details : list InvoiceDetail)
  (conditions : CanRow -> bool) :
  is_Some (pid_arrival_detail_id detail)
  \/ pid_delete_flag detail = true
  \/ pi_delete_flag detail = true ->
  get_uninvoiced_ans view product_purchase_orders (detail :: details) conditions
  = get_uninvoiced_ans view product_purchase_orders details conditions.
Proof.
  intros Hskip.
  assert (Hlegacy : forall ppo,
            legacy_invoice_qty_of (detail :: details) ppo
            = legacy_invoice_qty_of details ppo).
  { intros ppo. unfold legacy_invoice_qty_of. cbn [List.filter].
    destruct Hskip as [Harrival|[Hdeleted|Hdeleted]].
    - rewrite (bool_decide_eq_true_2 _ Harrival).
      now rewrite andb_false_r.
    - rewrite Hdeleted. cbn [negb]. now rewrite andb_false_r.
    - rewrite Hdeleted. cbn [negb]. now rewrite andb_false_r. }
  unfold get_uninvoiced_ans, select_row.
  destruct view as [cans|e]; [|reflexivity].
  induction cans as [|can cans IH]; [reflexivity|].
  cbn [omap list_omap]. now rewrite IH, Hlegacy.
Qed.

Lemma non_legacy_details_are_ignored_witness :
  let view := Ok [ {| can_line_id := 1;
                      can_product_purchase_order_id := 7;
                      can_uninvoiced_quantity := Some (5 # 1)%Q;
                      can_po_line_pending_invoiced_qty := Some (3 # 1)%Q |} ] in
  let lines : gmap Z (option Q) := {[ 7 := Some (10 # 1)%Q ]} in
  let with_arrival := {| pid_product_purchase_order_id := 7;
                         pid_arrival_detail_id := Some 4;
                         pid_purchased_invoice_quantity := (2 # 1)%Q;
                         pid_delete_flag := false;
                         pi_delete_flag := false |} in
  get_uninvoiced_ans view lines [with_arrival] (fun _ => true)
  = get_uninvoiced_ans view lines [] (fun _ => true).
Proof.
  cbv zeta.
  apply (non_legacy_details_are_ignored _ _
           {| pid_product_purchase_order_id := 7;
              pid_arrival_detail_id := Some 4;
              pid_purchased_invoice_quantity := (2 # 1)%Q;
              pid_delete_flag := false;
              pi_delete_flag := false |} [] (fun _ => true)).
  left. simpl. eauto.
Defined.

End MoreArrivalFacts.

Section KeyFacts.
Import PyStr Attachments S3 Spec.

Lemma clean_char_is_no_space (c : ascii) :
  is_clean_char c = true -> (if eqc c " " then "_"%char else c) = c.
Proof. destruct c as [[] [] [] [] [] [] [] []]; vm_compute; congruence. Qed.

Lemma clean_name_has_no_space (s : str) :
  Forall (fun c => is_clean_char c = true) s -> replace_char " " "_" s = s.
Proof.
  unfold replace_char. induction 1 as [|c s Hc _ IH]; [reflexivity|].
  cbn [map]. now rewrite IH, (clean_char_is_no_space c Hc).
Qed.

(** For a sanitized name the object store builds the key that
    [generate_s3_key] builds for the instant of the request: the two
    builders of keys agree, and the object is stored under that key. *)
Theorem upload_key_is_generated_key (env : S3Env) (st : S3State)
  (file_content filename : str) :
  put_fault env (requests st) = None ->
  let key := generate_s3_key 0 (sanitize_filename filename)
                             (Some (clock_ms env (requests st))) in
  let r := upload_invoice_file env st file_content
                               (sanitize_filename filename) in
  fst r = (true, key)
  /\ objects (snd r) = objects st ++ [(key, file_content)].
Proof.
  intros Hput. cbv zeta. unfold upload_invoice_file, generate_s3_key.
  rewrite Hput. cbn [fst snd objects default].
  rewrite (clean_name_has_no_space _ (sanitize_filename_is_clean filename)).
  now split.
Qed.

End KeyFacts.

Section KeyExamples.
Import PyStr Attachments S3 Spec Examples.

Lemma upload_key_is_generated_key_witness :
  fst (upload_invoice_file second_put_fails {| objects := []; requests := 0 |}
         (L "a") (sanitize_filename (L "Invoice 1.pdf")))
  = (true, L "purchase-invoice-file/1736035200000_invoice_1.pdf").
Proof.
  destruct (upload_key_is_generated_key second_put_fails
              {| objects := []; requests := 0 |} (L "a") (L "Invoice 1.pdf"))
    as [Hkey _]; [reflexivity|].
  rewrite Hkey. vm_compute. reflexivity.
Defined.

End KeyExamples.
